(** * core/download.py: song-asset download authorisation and cache

    A shallow embedding of [src/core/download.py] and the properties of
    its specification.

    Modelling conventions.
    - Python [str] values are byte strings ([string]): the UTF-8 encoding
      of the text.  SQLite's default (BINARY) collation compares these
      bytes, which is the order [String.leb] implements.
    - Python exceptions are values of [exn]; a computation that can raise
      has type [outcome A], and one that also touches the process state
      (databases, memoisation caches, class attributes, clock) has type
      [M A]: the state survives an exception, as it does in Python.
    - JSON numbers are the integers ([JInt]); numbers with a fraction or an
      exponent (Python [float]) are outside the model.
    - The song tree is a snapshot during one call: a directory does not
      change while it is being scanned, so the handlers the source keeps
      for races ([except FileNotFoundError]) are not reachable here.
    - A [song_id] names one entry of the root directory (a single path
      component); a [file_name] names one entry of a song directory. *)

From Stdlib Require Import ZArith String Ascii List Lia Bool Btauto.
From stdpp Require Import gmap strings list fin_maps sorting pretty.

Set Warnings "-register-all,-clear-no-such-hyp".
Local Open Scope string_scope.
Local Open Scope Z_scope.

(** ** Python values *)

Module Py.

Inductive exn : Type :=
| TypeError
| ValueError
| KeyError
| IndexError
| AttributeError
| UnicodeDecodeError
| JSONDecodeError
| NoAccess.

Inductive outcome (A : Type) : Type :=
| Ret (a : A)
| Raise (e : exn).

Arguments Ret {A} a.
Arguments Raise {A} e.

Definition obind {A B : Type} (m : outcome A) (k : A -> outcome B) : outcome B :=
  match m with
  | Ret a => k a
  | Raise e => Raise e
  end.

(** What [json.loads] returns (without floats).  A [JObj] lists the items
    of a [dict] in insertion order; its keys are pairwise distinct. *)
Inductive json : Type :=
| JNull
| JBool (b : bool)
| JInt (z : Z)
| JStr (s : string)
| JArr (l : list json)
| JObj (kv : list (string * json)).

(** Hashable values, up to Python's [==]: [True == 1] and [False == 0]. *)
Inductive pykey : Type :=
| KNone
| KInt (z : Z)
| KStr (s : string).

#[global] Instance pykey_eq_dec : EqDecision pykey.
Proof. solve_decision. Defined.

#[global] Instance pykey_countable : Countable pykey.
Proof.
  refine (inj_countable'
    (fun k => match k with
              | KNone => inl tt
              | KInt z => inr (inl z)
              | KStr s => inr (inr s)
              end)
    (fun x => match x with
              | inl _ => KNone
              | inr (inl z) => KInt z
              | inr (inr s) => KStr s
              end) _).
  by intros [].
Defined.

(** [hash(v)]: lists and dicts are unhashable. *)
Definition to_key (v : json) : outcome pykey :=
  match v with
  | JNull => Ret KNone
  | JBool b => Ret (KInt (Z.b2z b))
  | JInt z => Ret (KInt z)
  | JStr s => Ret (KStr s)
  | JArr _ | JObj _ => Raise TypeError
  end.

(** [bool(v)] *)
Definition truthy (v : json) : bool :=
  match v with
  | JNull => false
  | JBool b => b
  | JInt z => negb (z =? 0)
  | JStr s => negb (String.eqb s "")
  | JArr l => match l with [] => false | _ => true end
  | JObj kv => match kv with [] => false | _ => true end
  end.

(** The integer a value denotes, [bool] being a subclass of [int]. *)
Definition as_int (v : json) : option Z :=
  match v with
  | JBool b => Some (Z.b2z b)
  | JInt z => Some z
  | _ => None
  end.

(** [v == n] for an integer literal [n] *)
Definition eq_int (v : json) (n : Z) : bool :=
  match as_int v with
  | Some z => z =? n
  | None => false
  end.

(** [v == s] for a string [s] *)
Definition eq_str (v : json) (s : string) : bool :=
  match v with
  | JStr t => String.eqb t s
  | _ => false
  end.

Fixpoint assoc {V : Type} (k : string) (kv : list (string * V)) : option V :=
  match kv with
  | [] => None
  | (k', v) :: rest => if String.eqb k k' then Some v else assoc k rest
  end.

(** [d[k] = v] on a dict: an existing key keeps its position. *)
Fixpoint dict_set {V : Type} (k : string) (v : V) (kv : list (string * V)) : list (string * V) :=
  match kv with
  | [] => [(k, v)]
  | (k', v') :: rest =>
      if String.eqb k k' then (k', v) :: rest else (k', v') :: dict_set k v rest
  end.

Fixpoint str_contains (k s : string) : bool :=
  String.prefix k s ||
  match s with
  | EmptyString => false
  | String _ s' => str_contains k s'
  end.

(** [k in v] for a string literal [k] *)
Definition contains (k : string) (v : json) : outcome bool :=
  match v with
  | JObj kv => Ret (bool_decide (is_Some (assoc k kv)))
  | JArr l => Ret (existsb (fun x => eq_str x k) l)
  | JStr s => Ret (str_contains k s)
  | JNull | JBool _ | JInt _ => Raise TypeError
  end.

(** [v[k]] for a string literal [k] *)
Definition subscript (v : json) (k : string) : outcome json :=
  match v with
  | JObj kv => match assoc k kv with Some x => Ret x | None => Raise KeyError end
  | _ => Raise TypeError
  end.

(** [v.get(k, d)] *)
Definition get (v : json) (k : string) (d : json) : outcome json :=
  match v with
  | JObj kv => Ret (default d (assoc k kv))
  | _ => Raise AttributeError
  end.

Fixpoint chars (s : string) : list json :=
  match s with
  | EmptyString => []
  | String c s' => JStr (String c EmptyString) :: chars s'
  end.

(** The values [for x in v] runs through. *)
Definition iter (v : json) : outcome (list json) :=
  match v with
  | JArr l => Ret l
  | JObj kv => Ret (map (fun p => JStr (fst p)) kv)
  | JStr s => Ret (chars s)
  | JNull | JBool _ | JInt _ => Raise TypeError
  end.

(** [1 << v] *)
Definition shl1 (v : json) : outcome Z :=
  match as_int v with
  | Some n => if n <? 0 then Raise ValueError else Ret (Z.shiftl 1 n)
  | None => Raise TypeError
  end.

(** [v + '3'] *)
Definition add_str (v : json) (s : string) : outcome json :=
  match v with
  | JStr t => Ret (JStr (String.append t s))
  | _ => Raise TypeError
  end.

(** The last character of a string ([s[-1]]) and the rest ([s[:-1]]). *)
Fixpoint last_char (s : string) : option ascii :=
  match s with
  | EmptyString => None
  | String c EmptyString => Some c
  | String _ s' => last_char s'
  end.

Fixpoint drop_last (s : string) : string :=
  match s with
  | EmptyString => EmptyString
  | String _ EmptyString => EmptyString
  | String c s' => String c (drop_last s')
  end.

(** [s.rstrip('3')] *)
Fixpoint rstrip3 (s : string) : string :=
  match s with
  | EmptyString => EmptyString
  | String c s' =>
      match rstrip3 s' with
      | EmptyString => if Ascii.eqb c "3" then EmptyString else String c EmptyString
      | t => String c t
      end
  end.

End Py.

Export Py.

Declare Scope outcome_scope.
Delimit Scope outcome_scope with outcome.
Notation "'let?' x ':=' m 'in' k" := (obind m (fun x => k))
  (at level 10, x name, m at level 100, k at level 200) : outcome_scope.

(** A loop [for x in l: acc = body(acc, x)] whose body can raise. *)
Fixpoint ofold {A B : Type} (body : A -> B -> outcome A) (l : list B) (acc : A) : outcome A :=
  match l with
  | [] => Ret acc
  | x :: rest => obind (body acc x) (ofold body rest)
  end.

(** ** The world the module runs in *)

(** *** The song tree under [Constant.SONG_FILE_FOLDER_PATH] *)

Record file_node : Type := FileNode {
  st_size : Z;
  st_mtime_ns : Z;
  file_md5 : string  (* what util.get_file_md5 returns for the file *)
}.

Inductive dir_entry : Type :=
| RegularFile (f : file_node)
| NotAFile.

Record song_dir : Type := SongDir {
  dir_mtime_ns : Z;
  dir_entries : gmap string dir_entry
}.

Inductive root_entry : Type :=
| Directory (d : song_dir)
| NotADirectory.

Record root_dir : Type := RootDir {
  root_mtime_ns : Z;
  root_entries : gmap string root_entry
}.

(** What is found at the catalogue's path, and what [json.loads] makes of
    the bytes read from it (the file is opened ['rb']): there is no file;
    the bytes are not text in the encoding [json.loads] detects (UTF-8,
    UTF-16 or UTF-32), and decoding them raises [UnicodeDecodeError]; the
    text is not a JSON document, and the decoder raises
    [JSONDecodeError]; or [json.loads] returns a value.  A file that is
    there can be read, and a document is not nested so deeply that the
    decoder gives up. *)
Inductive catalogue_file : Type :=
| NoFile
| NotUnicode
| NotJson
| Decoded (j : json).

Module User.

Record t : Type := Build {
  user_id : Z;
  packs : list string;
  singles : list string;
  world_songs : list string
}.

(** [User()] *)
Definition new : t := Build 0 [] [] [].

Definition with_user_id (u : t) (uid : Z) : t :=
  Build uid (packs u) (singles u) (world_songs u).

End User.

(** *** Constants, configuration and the outside world *)

Record Env : Type := {
  SONG_FILE_FOLDER_PATH : option root_dir;  (* [None]: not a directory *)
  SONGLIST_FILE_PATH : string;
  open_songlist : string -> catalogue_file;
  FREE_PACK_NAME : string;
  SINGLE_PACK_NAME : string;
  DOWNLOAD_TIME_GAP_LIMIT : Z;
  DOWNLOAD_LINK_PREFIX : string;            (* empty when unset *)
  SONG_FILE_HASH_PRE_CALCULATE : bool;
  DOWNLOAD_FORBID_WHEN_NO_ITEM : bool;
  time : nat -> Z;                          (* the n-th reading of int(time()) *)
  urandom : nat -> string;                  (* the n-th str(os.urandom(8)) *)
  md5 : string -> string;                   (* util.md5 *)
  url_for : string -> string -> string;     (* flask.url_for('download', file_path, t) *)
  list_of_set : gset pykey -> list pykey    (* list(s): the iteration order of a set *)
}.

(** *** song_cache.db *)

Record song_row : Type := SongRow {
  row_dir_mtime_ns : Z;
  last_scan : Z
}.

Record file_row : Type := FileRow {
  row_size : Z;
  row_mtime_ns : Z;
  row_md5 : option string;
  last_seen : Z
}.

Record CacheDb : Type := {
  tbl_meta : gmap string Z;                       (* key -> value, an integer in decimal *)
  tbl_songs : gmap string song_row;               (* PRIMARY KEY song_id *)
  tbl_files : gmap (string * string) file_row     (* PRIMARY KEY (song_id, file_name) *)
}.

(** *** functools.lru_cache: most recently used first *)

Definition lru (K V : Type) : Type := list (K * V).

Fixpoint lru_find {K V : Type} `{EqDecision K} (k : K) (c : lru K V) : option V :=
  match c with
  | [] => None
  | (k', v) :: rest => if decide (k = k') then Some v else lru_find k rest
  end.

Definition lru_hit {K V : Type} `{EqDecision K} (k : K) (v : V) (c : lru K V) : lru K V :=
  (k, v) :: filter (fun p => fst p ≠ k) c.

Definition lru_miss {K V : Type} (maxsize : nat) (k : K) (v : V) (c : lru K V) : lru K V :=
  take maxsize ((k, v) :: c).

Record Memo : Type := {
  md5_cached : lru (string * string * Z * Z) (option string);   (* maxsize 8192 *)
  names_cached : lru (string * Z) (list string);                (* maxsize 2048 *)
  ids_cached : lru Z (list string)                              (* maxsize 128 *)
}.

Definition with_md5_cached
  (f : lru (string * string * Z * Z) (option string) -> lru (string * string * Z * Z) (option string))
  (m : Memo) : Memo :=
  {| md5_cached := f (md5_cached m); names_cached := names_cached m;
     ids_cached := ids_cached m |}.

Definition with_names_cached
  (f : lru (string * Z) (list string) -> lru (string * Z) (list string)) (m : Memo) : Memo :=
  {| md5_cached := md5_cached m; names_cached := f (names_cached m);
     ids_cached := ids_cached m |}.

Definition with_ids_cached
  (f : lru Z (list string) -> lru Z (list string)) (m : Memo) : Memo :=
  {| md5_cached := md5_cached m; names_cached := names_cached m;
     ids_cached := f (ids_cached m) |}.

(** *** The class attributes of SonglistParser *)

Record Catalogue : Type := {
  has_songlist : bool;
  songs : gmap pykey Z;
  pack_info : gmap pykey (gset pykey);
  free_songs : gset pykey;
  world_songs : gset pykey
}.

Definition FILE_NAMES : list string :=
  ["0.aff"; "1.aff"; "2.aff"; "3.aff"; "4.aff"; "base.ogg"; "3.ogg";
   "video.mp4"; "video_audio.ogg"; "video_720.mp4"; "video_1080.mp4"].

(** *** The table download_token of the main database

    [download_token(user_id, song_id, file_name, token, time)] with
    [PRIMARY KEY (user_id, song_id, file_name)]: the columns of the key
    are the map's key; [token] and [time] can be NULL. *)

Abbreviation token_table := (gmap (Z * string * string) (option string * option Z)).

(** *** The process state *)

Record World : Type := {
  clock_reads : nat;       (* how many times the clock has been read *)
  entropy_reads : nat;     (* how many times os.urandom has been called *)
  cache : CacheDb;
  memo : Memo;
  cat : Catalogue;
  download_token : token_table
}.

Definition set_cache (f : CacheDb -> CacheDb) (w : World) : World :=
  {| clock_reads := clock_reads w; entropy_reads := entropy_reads w;
     cache := f (cache w); memo := memo w; cat := cat w;
     download_token := download_token w |}.

Definition set_memo (f : Memo -> Memo) (w : World) : World :=
  {| clock_reads := clock_reads w; entropy_reads := entropy_reads w;
     cache := cache w; memo := f (memo w); cat := cat w;
     download_token := download_token w |}.

Definition set_cat (f : Catalogue -> Catalogue) (w : World) : World :=
  {| clock_reads := clock_reads w; entropy_reads := entropy_reads w;
     cache := cache w; memo := memo w; cat := f (cat w);
     download_token := download_token w |}.

Definition set_download_token (f : token_table -> token_table) (w : World) : World :=
  {| clock_reads := clock_reads w; entropy_reads := entropy_reads w;
     cache := cache w; memo := memo w; cat := cat w;
     download_token := f (download_token w) |}.

(** ** State and exceptions *)

Definition M (A : Type) : Type := World -> outcome A * World.

Definition ret {A : Type} (a : A) : M A := fun w => (Ret a, w).

Definition raise {A : Type} (e : exn) : M A := fun w => (Raise e, w).

Definition bind {A B : Type} (m : M A) (k : A -> M B) : M B :=
  fun w =>
    match m w with
    | (Ret a, w') => k a w'
    | (Raise e, w') => (Raise e, w')
    end.

Definition lift {A : Type} (o : outcome A) : M A := fun w => (o, w).

Definition gets {A : Type} (f : World -> A) : M A := fun w => (Ret (f w), w).

Definition modify (f : World -> World) : M unit := fun w => (Ret tt, f w).

Declare Scope m_scope.
Delimit Scope m_scope with M.
Notation "'let*' x ':=' m 'in' k" := (bind m (fun x => k))
  (at level 10, x name, m at level 100, k at level 200) : m_scope.
Notation "m ';;' k" := (bind m (fun _ => k))
  (at level 100, k at level 200, right associativity) : m_scope.

(** [for x in l: body(x)] *)
Fixpoint for_each {B : Type} (l : list B) (body : B -> M unit) : M unit :=
  match l with
  | [] => ret tt
  | x :: rest => bind (body x) (fun _ => for_each rest body)
  end.

(** [for x in l: acc = body(acc, x)] *)
Fixpoint fold_each {A B : Type} (l : list B) (body : A -> B -> M A) (acc : A) : M A :=
  match l with
  | [] => ret acc
  | x :: rest => bind (body acc x) (fold_each rest body)
  end.

(** [int(time())] *)
Definition now (e : Env) : M Z :=
  fun w =>
    (Ret (time e (clock_reads w)),
     {| clock_reads := S (clock_reads w); entropy_reads := entropy_reads w;
        cache := cache w; memo := memo w; cat := cat w;
        download_token := download_token w |}).

(** [str(os.urandom(8))] *)
Definition os_urandom (e : Env) : M string :=
  fun w =>
    (Ret (urandom e (entropy_reads w)),
     {| clock_reads := clock_reads w; entropy_reads := S (entropy_reads w);
        cache := cache w; memo := memo w; cat := cat w;
        download_token := download_token w |}).

Local Open Scope outcome_scope.
Local Open Scope m_scope.

(** ** class SonglistParser *)

Module SonglistParser.

(** The attributes of an instance.  [self.has_songlist = True] in [parse]
    binds an attribute of the instance; the class attribute
    [SonglistParser.has_songlist] ([has_songlist] of [Catalogue]) is a
    different variable. *)
Record t : Type := Build {
  path : string;
  data : json;
  self_has_songlist : option bool
}.

Fixpoint scan_rule (file_name : string) (rule : Z) (i : Z) (names : list string) : bool :=
  match names with
  | [] => false
  | v :: rest =>
      if String.eqb file_name v && negb (Z.eqb (Z.land rule (Z.shiftl 1 i)) 0)
      then true
      else scan_rule file_name rule (i + 1) rest
  end.

Definition is_available_file (c : Catalogue) (song_id file_name : string) : bool :=
  match songs c !! KStr song_id with
  | None => bool_decide (file_name ∈ FILE_NAMES)
  | Some rule => scan_rule file_name rule 0 FILE_NAMES
  end.

(** [i if i[-1] != '3' else i[:-1]] *)
Definition strip3 (i : pykey) : outcome pykey :=
  match i with
  | KStr s =>
      match last_char s with
      | None => Raise IndexError
      | Some c => if Ascii.eqb c "3" then Ret (KStr (drop_last s)) else Ret i
      end
  | KNone | KInt _ => Raise TypeError
  end.

Definition get_user_unlocks (e : Env) (c : Catalogue) (user : option User.t)
  : outcome (gset pykey) :=
  match user with
  | None => Ret ∅
  | Some u =>
      let r : gset pykey :=
        foldl (fun r i =>
                 match pack_info c !! KStr i with
                 | Some s => r ∪ s
                 | None => r
                 end) ∅ (User.packs u) in
      let r :=
        match pack_info c !! KStr (SINGLE_PACK_NAME e) with
        | Some s => r ∪ (s ∩ list_to_set (KStr <$> User.singles u))
        | None => r
        end in
      let? w :=
        ofold (fun (acc : gset pykey) i => let? j := strip3 i in Ret (acc ∪ {[ j ]}))
              (elements (world_songs c ∩ list_to_set (KStr <$> User.world_songs u)))
              ∅ in
      Ret (r ∪ w ∪ free_songs c)
  end.

Definition file_name_at (n : nat) : string := nth n FILE_NAMES "".

(** The loop over [difficulties] when [remote_dl] is truthy. *)
Definition difficulty_remote (r : Z) (i : json) : outcome Z :=
  let? rc := subscript i "ratingClass" in
  let? r :=
    if eq_int rc 3 then
      let? ao := get i "audioOverride" (JBool false) in
      Ret (if truthy ao then Z.lor r 64 else r)
    else Ret r in
  let? b := shl1 rc in
  Ret (Z.lor r b).

(** The loop over [difficulties] in the [else] branch. *)
Definition difficulty_local (r : Z) (i : json) : outcome Z :=
  let? rc := subscript i "ratingClass" in
  if eq_int rc 3 then
    let r := Z.lor r 8 in
    let? ao := get i "audioOverride" (JBool false) in
    Ret (if truthy ao then Z.lor r 64 else r)
  else Ret r.

Definition additional_file (r : Z) (extra_file : json) : outcome Z :=
  let? x := subscript extra_file "file_name" in
  Ret (if eq_str x (file_name_at 7) then Z.lor r 128
       else if eq_str x (file_name_at 8) then Z.lor r 256
       else if eq_str x (file_name_at 9) then Z.lor r 512
       else if eq_str x (file_name_at 10) then Z.lor r 1024
       else r).

(** [None] is the empty dict, [Some (k, r)] the dict [{k: r}]. *)
Definition parse_one (song : json) : outcome (option (pykey * Z)) :=
  let? has_id := contains "id" song in
  if negb has_id then Ret None else
  let r := 0 in
  let? has_dl := contains "remote_dl" song in
  let? dl :=
    if has_dl then let? v := subscript song "remote_dl" in Ret (truthy v)
    else Ret false in
  let? r :=
    if dl then
      let r := Z.lor r 32 in
      let? ds := get song "difficulties" (JArr []) in
      let? ds := iter ds in
      ofold difficulty_remote ds r
    else
      let? ds := get song "difficulties" (JArr []) in
      let? ds := iter ds in
      ofold difficulty_local ds r in
  let? fs := get song "additional_files" (JArr []) in
  let? fs := iter fs in
  let? r := ofold additional_file fs r in
  let? id := subscript song "id" in
  let? k := to_key id in
  Ret (Some (k, r)).

(** [any(i['ratingClass'] == 3 for i in l)] *)
Fixpoint any_rating3 (l : list json) : outcome bool :=
  match l with
  | [] => Ret false
  | i :: rest =>
      let? rc := subscript i "ratingClass" in
      if eq_int rc 3 then Ret true else any_rating3 rest
  end.

Definition add_world_song (k : pykey) (c : Catalogue) : Catalogue :=
  {| has_songlist := has_songlist c; songs := songs c; pack_info := pack_info c;
     free_songs := free_songs c; world_songs := world_songs c ∪ {[ k ]} |}.

Definition add_free_song (k : pykey) (c : Catalogue) : Catalogue :=
  {| has_songlist := has_songlist c; songs := songs c; pack_info := pack_info c;
     free_songs := free_songs c ∪ {[ k ]}; world_songs := world_songs c |}.

Definition set_pack (p : pykey) (s : gset pykey) (c : Catalogue) : Catalogue :=
  {| has_songlist := has_songlist c; songs := songs c;
     pack_info := <[ p := s ]> (pack_info c);
     free_songs := free_songs c; world_songs := world_songs c |}.

Definition update_songs (d : option (pykey * Z)) (c : Catalogue) : Catalogue :=
  {| has_songlist := has_songlist c;
     songs := match d with Some (k, r) => <[ k := r ]> (songs c) | None => songs c end;
     pack_info := pack_info c;
     free_songs := free_songs c; world_songs := world_songs c |}.

Definition parse_one_unlock (e : Env) (song : json) : M unit :=
  let* has_id := lift (contains "id" song) in
  if negb has_id then ret tt else
  let* has_set := lift (contains "set" song) in
  if negb has_set then ret tt else
  let* has_purchase := lift (contains "purchase" song) in
  if negb has_purchase then ret tt else
  let* set := lift (subscript song "set") in
  if eq_str set (FREE_PACK_NAME e) then
    let* ds := lift (get song "difficulties" (JArr [])) in
    let* ds := lift (iter ds) in
    let* byd := lift (any_rating3 ds) in
    (if byd then
       let* id := lift (subscript song "id") in
       let* id3 := lift (add_str id "3") in
       let* k := lift (to_key id3) in
       modify (set_cat (add_world_song k))
     else ret tt) ;;
    let* id := lift (subscript song "id") in
    let* k := lift (to_key id) in
    modify (set_cat (add_free_song k))
  else
    let* wu := lift (get song "world_unlock" (JBool false)) in
    (if truthy wu then
       let* id := lift (subscript song "id") in
       let* k := lift (to_key id) in
       modify (set_cat (add_world_song k))
     else ret tt) ;;
    let* purchase := lift (subscript song "purchase") in
    if eq_str purchase "" then ret tt else
    (* x.pack_info.setdefault(song['set'], set()).add(song['id']) *)
    let* set := lift (subscript song "set") in
    let* p := lift (to_key set) in
    let* members := gets (fun w => default ∅ (pack_info (cat w) !! p)) in
    modify (set_cat (set_pack p members)) ;;
    let* id := lift (subscript song "id") in
    let* k := lift (to_key id) in
    modify (set_cat (set_pack p (members ∪ {[ k ]}))).

Definition parse (e : Env) (self : t) : M t :=
  match open_songlist e (path self) with
  | NoFile => ret self
  | NotUnicode => raise UnicodeDecodeError
  | NotJson => raise JSONDecodeError
  | Decoded top =>
      let* d := lift (get top "songs" (JArr [])) in
      let self := Build (path self) d (Some true) in
      let* xs := lift (iter d) in
      for_each xs (fun x =>
        let* one := lift (parse_one x) in
        modify (set_cat (update_songs one)) ;;
        parse_one_unlock e x) ;;
      ret self
  end.

(** [SonglistParser(path)] *)
Definition init (e : Env) (path : string) : M t :=
  parse e (Build path (JArr []) None).

End SonglistParser.

(** ** The file system and SQL, as the module uses them *)

(** [os.path.isdir(os.path.join(SONG_FILE_FOLDER_PATH, song_id))], with
    the directory when it is one. *)
Definition song_dir_of (e : Env) (song_id : string) : option song_dir :=
  match SONG_FILE_FOLDER_PATH e with
  | None => None
  | Some root =>
      match root_entries root !! song_id with
      | Some (Directory d) => Some d
      | _ => None
      end
  end.

(** [os.path.isfile(os.path.join(SONG_FILE_FOLDER_PATH, song_id, file_name))],
    with what [os.stat] and [get_file_md5] return for the file. *)
Definition file_of (e : Env) (song_id file_name : string) : option file_node :=
  match song_dir_of e song_id with
  | None => None
  | Some d =>
      match dir_entries d !! file_name with
      | Some (RegularFile f) => Some f
      | _ => None
      end
  end.

Definition is_regular (x : dir_entry) : bool :=
  match x with RegularFile _ => true | NotAFile => false end.

Definition is_directory (x : root_entry) : bool :=
  match x with Directory _ => true | NotADirectory => false end.

(** [ORDER BY] on a TEXT column *)
Definition str_le : relation string := fun a b => String.leb a b = true.

#[global] Instance str_le_dec : RelDecision str_le.
Proof. intros a b. unfold str_le. apply _. Defined.

Definition order_by (l : list string) : list string := merge_sort str_le l.

Definition with_meta (f : gmap string Z -> gmap string Z) (db : CacheDb) : CacheDb :=
  {| tbl_meta := f (tbl_meta db); tbl_songs := tbl_songs db; tbl_files := tbl_files db |}.

Definition with_songs (f : gmap string song_row -> gmap string song_row) (db : CacheDb) : CacheDb :=
  {| tbl_meta := tbl_meta db; tbl_songs := f (tbl_songs db); tbl_files := tbl_files db |}.

Definition with_files
  (f : gmap (string * string) file_row -> gmap (string * string) file_row) (db : CacheDb)
  : CacheDb :=
  {| tbl_meta := tbl_meta db; tbl_songs := tbl_songs db; tbl_files := f (tbl_files db) |}.

(** [DELETE FROM files WHERE ...]: the rows that stay are those failing
    the condition. *)
Definition delete_files_where (cond : string -> string -> bool)
  (files : gmap (string * string) file_row) : gmap (string * string) file_row :=
  filter (fun row => cond (fst (fst row)) (snd (fst row)) = false) files.

Definition delete_songs_where (cond : string -> bool)
  (rows : gmap string song_row) : gmap string song_row :=
  filter (fun row => cond (fst row) = false) rows.

Definition mem (x : string) (l : list string) : bool := bool_decide (x ∈ l).

(** A TEXT value as a Python condition: NULL and the empty string are falsy. *)
Definition text_truthy (x : option string) : bool :=
  match x with
  | Some s => negb (String.eqb s "")
  | None => false
  end.

(** ** class SongFileCache *)

Module SongFileCache.

(** The tables are part of [CacheDb] from the start; creating them again
    changes nothing. *)
Definition ensure_schema : M unit := ret tt.

Definition _delete_song (song_id : string) : M unit :=
  ensure_schema ;;
  modify (set_cache (with_files (delete_files_where (fun s _ => String.eqb s song_id)))) ;;
  modify (set_cache (with_songs (delete song_id))).

Definition _delete_file (song_id file_name : string) : M unit :=
  ensure_schema ;;
  modify (set_cache (with_files (delete (song_id, file_name)))).

(** The body of [for file_name in file_names] in [sync_song]. *)
Definition sync_file (e : Env) (song_id : string) (now : Z) (file_name : string) : M unit :=
  match file_of e song_id file_name with
  | None => _delete_file song_id file_name
  | Some st =>
      let* existing := gets (fun w => tbl_files (cache w) !! (song_id, file_name)) in
      let upsert :=
        let md5_value :=
          if SONG_FILE_HASH_PRE_CALCULATE e then Some (file_md5 st) else None in
        modify (set_cache (with_files
          (<[ (song_id, file_name) := FileRow (st_size st) (st_mtime_ns st) md5_value now ]>))) in
      match existing with
      | Some row =>
          if Z.eqb (row_size row) (st_size st) && Z.eqb (row_mtime_ns row) (st_mtime_ns st)
          then
            if SONG_FILE_HASH_PRE_CALCULATE e && negb (text_truthy (row_md5 row))
            then modify (set_cache (with_files
                   (<[ (song_id, file_name) :=
                       FileRow (row_size row) (row_mtime_ns row) (Some (file_md5 st)) now ]>)))
            else modify (set_cache (with_files
                   (<[ (song_id, file_name) :=
                       FileRow (row_size row) (row_mtime_ns row) (row_md5 row) now ]>)))
          else upsert
      | None => upsert
      end
  end.

(** The names [os.scandir(song_dir)] yields that are files and allowed by
    the catalogue, in the order of the scan. *)
Definition scan_song_dir (c : Catalogue) (song_id : string) (d : song_dir) : list string :=
  map fst
    (List.filter
       (fun entry => is_regular (snd entry)
                     && SonglistParser.is_available_file c song_id (fst entry))
       (map_to_list (dir_entries d))).

Definition sync_song (e : Env) (song_id : string) (dir_mtime_ns_arg : option Z) : M unit :=
  ensure_schema ;;
  match song_dir_of e song_id with
  | None => _delete_song song_id
  | Some d =>
      let mtime := default (dir_mtime_ns d) dir_mtime_ns_arg in
      let* row := gets (fun w => tbl_songs (cache w) !! song_id) in
      if match row with
         | Some r => Z.eqb (row_dir_mtime_ns r) mtime
         | None => false
         end
      then ret tt
      else
        let* now := now e in
        modify (set_cache (with_songs (<[ song_id := SongRow mtime now ]>))) ;;
        let* c := gets cat in
        let file_names := scan_song_dir c song_id d in
        match file_names with
        | [] =>
            modify (set_cache (with_files
              (delete_files_where (fun s _ => String.eqb s song_id))))
        | _ =>
            modify (set_cache (with_files
              (delete_files_where
                 (fun s f => String.eqb s song_id && negb (mem f file_names))))) ;;
            for_each file_names (sync_file e song_id now)
        end
  end.

(** The names [os.scandir(root_dir)] yields that are directories. *)
Definition scan_root (root : root_dir) : list string :=
  map fst
    (List.filter
       (fun entry => is_directory (snd entry)
                     && negb (String.eqb (fst entry) ".")
                     && negb (String.eqb (fst entry) ".."))
       (map_to_list (root_entries root))).

Definition sync_all (e : Env) : M unit :=
  ensure_schema ;;
  match SONG_FILE_FOLDER_PATH e with
  | None => ret tt
  | Some root =>
      let song_ids := scan_root root in
      for_each song_ids (fun song_id =>
        match song_dir_of e song_id with
        | None => ret tt
        | Some d => sync_song e song_id (Some (dir_mtime_ns d))
        end) ;;
      match song_ids with
      | _ :: _ =>
          modify (set_cache (with_songs
            (delete_songs_where (fun s => negb (mem s song_ids))))) ;;
          modify (set_cache (with_files
            (delete_files_where (fun s _ => negb (mem s song_ids)))))
      | [] =>
          modify (set_cache (with_songs (fun _ => ∅))) ;;
          modify (set_cache (with_files (fun _ => ∅)))
      end
  end.

Definition get_all_song_ids (e : Env) (root_mtime_ns_arg : Z) : M (list string) :=
  ensure_schema ;;
  let* meta := gets (fun w => tbl_meta (cache w) !! "root_mtime_ns") in
  (if match meta with
      | Some v => negb (Z.eqb v root_mtime_ns_arg)
      | None => true
      end
   then
     sync_all e ;;
     modify (set_cache (with_meta (<[ "root_mtime_ns" := root_mtime_ns_arg ]>)))
   else ret tt) ;;
  gets (fun w => order_by (map fst (map_to_list (tbl_songs (cache w))))).

(** [SELECT file_name FROM files WHERE song_id=? ORDER BY file_name] *)
Definition select_file_names (song_id : string) (db : CacheDb) : list string :=
  order_by
    (map (fun row => snd (fst row))
       (List.filter (fun row => String.eqb (fst (fst row)) song_id)
          (map_to_list (tbl_files db)))).

Definition get_song_file_names (e : Env) (song_id : string) (dir_mtime_ns_arg : Z)
  : M (list string) :=
  ensure_schema ;;
  let* row := gets (fun w => tbl_songs (cache w) !! song_id) in
  (if match row with
      | Some r => negb (Z.eqb (row_dir_mtime_ns r) dir_mtime_ns_arg)
      | None => true
      end
   then sync_song e song_id (Some dir_mtime_ns_arg)
   else ret tt) ;;
  gets (fun w => select_file_names song_id (cache w)).

Definition get_song_file_md5 (e : Env) (song_id file_name : string)
  (file_mtime_ns file_size : Z) : M (option string) :=
  ensure_schema ;;
  match file_of e song_id file_name with
  | None => _delete_file song_id file_name ;; ret None
  | Some st =>
      let* row := gets (fun w => tbl_files (cache w) !! (song_id, file_name)) in
      let* now := now e in
      let compute :=
        let md5_value := file_md5 st in
        modify (set_cache (with_files
          (<[ (song_id, file_name) := FileRow file_size file_mtime_ns (Some md5_value) now ]>))) ;;
        match song_dir_of e song_id with
        | Some d =>
            (* INSERT OR IGNORE INTO songs *)
            modify (set_cache (with_songs (fun rows =>
              match rows !! song_id with
              | Some _ => rows
              | None => <[ song_id := SongRow (dir_mtime_ns d) now ]> rows
              end)))
        | None => ret tt
        end ;;
        ret (Some md5_value) in
      match row with
      | Some r =>
          if Z.eqb (row_size r) file_size && Z.eqb (row_mtime_ns r) file_mtime_ns
             && text_truthy (row_md5 r)
          then
            modify (set_cache (with_files
              (<[ (song_id, file_name) :=
                  FileRow (row_size r) (row_mtime_ns r) (row_md5 r) now ]>))) ;;
            ret (row_md5 r)
          else compute
      | None => compute
      end
  end.

End SongFileCache.

(** [@lru_cache(maxsize=8192)] *)
Definition _get_song_file_md5_cached (e : Env) (song_id file_name : string)
  (file_mtime_ns file_size : Z) : M (option string) :=
  let key := (song_id, file_name, file_mtime_ns, file_size) in
  let* hit := gets (fun w => lru_find key (md5_cached (memo w))) in
  match hit with
  | Some v =>
      modify (set_memo (with_md5_cached (lru_hit key v))) ;;
      ret v
  | None =>
      let* v := SongFileCache.get_song_file_md5 e song_id file_name file_mtime_ns file_size in
      modify (set_memo (with_md5_cached (lru_miss (Z.to_nat 8192) key v))) ;;
      ret v
  end.

Definition get_song_file_md5 (e : Env) (song_id file_name : string) : M (option string) :=
  match file_of e song_id file_name with
  | None => SongFileCache._delete_file song_id file_name ;; ret None
  | Some st =>
      _get_song_file_md5_cached e song_id file_name (st_mtime_ns st) (st_size st)
  end.

(** ** class UserDownload *)

(** [None] as SQL NULL and as the text an f-string gives it. *)
Definition fmt (x : option string) : string := default "None" x.

Definition json_of_hash (h : option string) : json :=
  match h with
  | Some s => JStr s
  | None => JNull
  end.

Module UserDownload.

Record t : Type := Build {
  user : option User.t;
  song_id : option string;
  file_name : option string;
  token : option string;
  token_time : option Z
}.

(** [UserDownload(c_m, user)] *)
Definition init (user : option User.t) : t := Build user None None None None.

(** [select user_id, time from download_token
     where song_id=? and file_name=? and token=? limit 1]:
    a NULL parameter matches no row. *)
Definition select_token (self : t) (rows : token_table) : option (Z * option Z) :=
  match
    List.filter
      (fun row : (Z * string * string) * (option string * option Z) =>
         bool_decide (Some (snd (fst (fst row))) = song_id self
                      ∧ Some (snd (fst row)) = file_name self
                      ∧ is_Some (token self)
                      ∧ fst (snd row) = token self))
      (map_to_list rows)
  with
  | [] => None
  | row :: _ => Some (fst (fst (fst row)), snd (snd row))
  end.

Definition select_for_check (self : t) : M t :=
  let* x := gets (fun w => select_token self (download_token w)) in
  match x with
  | None => raise NoAccess
  | Some (uid, tm) =>
      ret (Build (Some (User.with_user_id User.new uid))
                 (song_id self) (file_name self) (token self) tm)
  end.

(** The property [is_valid]: its value, and [self] after the lookup it
    can trigger. *)
Definition is_valid (e : Env) (self : t) : M (bool * t) :=
  let* self :=
    match token_time self with
    | None => select_for_check self
    | Some _ => ret self
    end in
  let* t := now e in
  match token_time self with
  | Some t0 => ret (Z.leb (t - t0) (DOWNLOAD_TIME_GAP_LIMIT e), self)
  | None => raise TypeError
  end.

Definition generate_token (e : Env) (self : t) : M t :=
  let* t := now e in
  match user self with
  | None => raise AttributeError
  | Some u =>
      match song_id self, file_name self with
      | Some s, Some f =>
          let* r := os_urandom e in
          let tok :=
            md5 e (String.append (pretty (User.user_id u))
                    (String.append s
                      (String.append f
                        (String.append (pretty t) r)))) in
          ret (Build (user self) (song_id self) (file_name self) (Some tok) (Some t))
      | _, _ => raise TypeError
      end
  end.

Definition insert_download_token (self : t) : M unit :=
  match user self, song_id self, file_name self with
  | Some u, Some s, Some f =>
      modify (set_download_token
        (<[ (User.user_id u, s, f) := (token self, token_time self) ]>))
  | None, _, _ => raise AttributeError
  | _, _, _ => raise TypeError
  end.

(** The property [url]: its value, and [self] with the token it can
    generate. *)
Definition url (e : Env) (self : t) : M (string * t) :=
  let* self :=
    match token self with
    | None => generate_token e self
    | Some _ => ret self
    end in
  let file_path :=
    String.append (fmt (song_id self)) (String.append "/" (fmt (file_name self))) in
  match DOWNLOAD_LINK_PREFIX e with
  | EmptyString => ret (url_for e file_path (fmt (token self)), self)
  | prefix =>
      let prefix :=
        if bool_decide (last_char prefix = Some "/"%char) then prefix
        else String.append prefix "/" in
      ret (String.append prefix
             (String.append file_path (String.append "?t=" (fmt (token self)))),
           self)
  end.

(** The property [hash] *)
Definition hash (e : Env) (self : t) : M (option string) :=
  match song_id self, file_name self with
  | Some s, Some f => get_song_file_md5 e s f
  | _, _ => raise TypeError
  end.

End UserDownload.

(** ** class DownloadList *)

Module DownloadList.

Record t : Type := Build {
  super : UserDownload.t;
  song_ids : option (list string);
  url_flag : option bool;
  downloads : list UserDownload.t;
  urls : list (string * json)
}.

(** [DownloadList(c_m, user)] *)
Definition init (user : option User.t) : t :=
  Build (UserDownload.init user) None None [] [].

Definition user (self : t) : option User.t := UserDownload.user (super self).

(** [if self.url_flag] *)
Definition url_flag_set (self : t) : bool :=
  match url_flag self with
  | Some b => b
  | None => false
  end.

Definition initialize_cache (e : Env) : M unit :=
  let* _ := SonglistParser.init e (SONGLIST_FILE_PATH e) in
  SongFileCache.ensure_schema ;;
  SongFileCache.sync_all e.

Definition clear_all_cache : M unit :=
  modify (set_memo (fun _ => {| md5_cached := []; names_cached := []; ids_cached := [] |})) ;;
  modify (set_cat (fun _ =>
    {| has_songlist := false; songs := ∅; pack_info := ∅;
       free_songs := ∅; world_songs := ∅ |})).

(** [time < bound] on a column that can be NULL *)
Definition time_before (bound : Z) (row : (Z * string * string) * (option string * option Z))
  : bool :=
  match snd (snd row) with
  | Some tm => Z.ltb tm bound
  | None => false
  end.

Definition clear_download_token (e : Env) : M unit :=
  let* t := now e in
  modify (set_download_token
    (filter (fun row => time_before (t - DOWNLOAD_TIME_GAP_LIMIT e) row = false))).

(** The rows [insert_download_tokens] hands to [executemany].  The
    downloads [add_one_song] makes always carry a song and a file name; a
    row whose key columns are NULL is not represented in [token_table],
    and a download without them ends the computation here. *)
Fixpoint token_rows (uid : Z) (l : list UserDownload.t)
  : outcome (list ((Z * string * string) * (option string * option Z))) :=
  match l with
  | [] => Ret []
  | x :: rest =>
      match UserDownload.song_id x, UserDownload.file_name x with
      | Some s, Some f =>
          let? rows := token_rows uid rest in
          Ret (((uid, s, f), (UserDownload.token x, UserDownload.token_time x)) :: rows)
      | _, _ => Raise TypeError
      end
  end.

Definition insert_download_tokens (self : t) : M unit :=
  match downloads self with
  | [] => ret tt
  | _ =>
      match user self with
      | None => raise AttributeError
      | Some u =>
          let* rows := lift (token_rows (User.user_id u) (downloads self)) in
          modify (set_download_token (fun tbl =>
            foldl (fun tbl row => <[ fst row := snd row ]> tbl) tbl rows))
      end
  end.

(** [@lru_cache(maxsize=2048)] *)
Definition _get_cached_song_file_names (e : Env) (song_id : string) (dir_mtime_ns_arg : Z)
  : M (list string) :=
  let key := (song_id, dir_mtime_ns_arg) in
  let* hit := gets (fun w => lru_find key (names_cached (memo w))) in
  match hit with
  | Some v =>
      modify (set_memo (with_names_cached (lru_hit key v))) ;;
      ret v
  | None =>
      let* v := SongFileCache.get_song_file_names e song_id dir_mtime_ns_arg in
      modify (set_memo (with_names_cached (lru_miss (Z.to_nat 2048) key v))) ;;
      ret v
  end.

Definition get_one_song_file_names (e : Env) (song_id : string) : M (list string) :=
  match song_dir_of e song_id with
  | None => SongFileCache._delete_song song_id ;; ret []
  | Some d => _get_cached_song_file_names e song_id (dir_mtime_ns d)
  end.

(** [if k not in re: re[k] = v] *)
Definition ensure_key (k : string) (v : json) (re : list (string * json))
  : list (string * json) :=
  match assoc k re with
  | Some _ => re
  | None => dict_set k v re
  end.

(** [re[outer][inner] = v], [re[outer]] being a dict *)
Definition set_inner (outer inner : string) (v : json) (re : list (string * json))
  : list (string * json) :=
  match assoc outer re with
  | Some (JObj kv) => dict_set outer (JObj (dict_set inner v kv)) re
  | _ => re
  end.

(** [re[outer].append(v)], [re[outer]] being a list *)
Definition append_inner (outer : string) (v : json) (re : list (string * json))
  : list (string * json) :=
  match assoc outer re with
  | Some (JArr l) => dict_set outer (JArr (l ++ [v])%list) re
  | _ => re
  end.

(** [x.hash], then [x.url] when URLs are asked for: the items
    ["checksum"] and ["url"] of a dict literal, and [x] afterwards. *)
Definition checksum_and_url (e : Env) (with_url : bool) (x : UserDownload.t)
  : M (list (string * json) * UserDownload.t) :=
  let* h := UserDownload.hash e x in
  if with_url then
    let* ux := UserDownload.url e x in
    ret ([("checksum", json_of_hash h); ("url", JStr (fst ux))], snd ux)
  else ret ([("checksum", json_of_hash h)], x).

(** The body of [for i in self.get_one_song_file_names(song_id)] in
    [add_one_song]; [acc] is [re] and [self.downloads].  [i[0]] is the
    first byte of [i]. *)
Definition add_file (e : Env) (self_user : option User.t) (with_url : bool)
  (song_id : string) (acc : list (string * json) * list UserDownload.t) (i : string)
  : M (list (string * json) * list UserDownload.t) :=
  let re := fst acc in
  let downloads := snd acc in
  let x := UserDownload.Build self_user (Some song_id) (Some i) None None in
  if String.eqb i "base.ogg" then
    let re := ensure_key "audio" (JObj []) re in
    let* h := UserDownload.hash e x in
    let re := set_inner "audio" "checksum" (json_of_hash h) re in
    if with_url then
      let* ux := UserDownload.url e x in
      ret (set_inner "audio" "url" (JStr (fst ux)) re, (downloads ++ [snd ux])%list)
    else ret (re, (downloads ++ [x])%list)
  else if String.eqb i "3.ogg" then
    let re := ensure_key "audio" (JObj []) re in
    let* d := checksum_and_url e with_url x in
    ret (set_inner "audio" "3" (JObj (fst d)) re, (downloads ++ [snd d])%list)
  else if mem i ["video.mp4"; "video_audio.ogg"; "video_720.mp4"; "video_1080.mp4"] then
    let re := ensure_key "additional_files" (JArr []) re in
    let* d := checksum_and_url e with_url x in
    ret (append_inner "additional_files" (JObj (fst d ++ [("file_name", JStr i)])%list) re,
         (downloads ++ [snd d])%list)
  else
    let re := ensure_key "chart" (JObj []) re in
    let* d := checksum_and_url e with_url x in
    match i with
    | EmptyString => raise IndexError
    | String c _ =>
        ret (set_inner "chart" (String c EmptyString) (JObj (fst d)) re,
             (downloads ++ [snd d])%list)
    end.

Definition add_one_song (e : Env) (self : t) (song_id : string) : M t :=
  let* names := get_one_song_file_names e song_id in
  let* r :=
    fold_each names (add_file e (user self) (url_flag_set self) song_id)
      ([], downloads self) in
  ret (Build (super self) (song_ids self) (url_flag self) (snd r)
         (dict_set song_id (JObj (fst r)) (urls self))).

(** [@lru_cache()], whose [maxsize] is 128 *)
Definition _get_all_cached_song_ids (e : Env) (root_mtime_ns_arg : Z) : M (list string) :=
  let* hit := gets (fun w => lru_find root_mtime_ns_arg (ids_cached (memo w))) in
  match hit with
  | Some v =>
      modify (set_memo (with_ids_cached (lru_hit root_mtime_ns_arg v))) ;;
      ret v
  | None =>
      let* v := SongFileCache.get_all_song_ids e root_mtime_ns_arg in
      modify (set_memo (with_ids_cached (lru_miss 128 root_mtime_ns_arg v))) ;;
      ret v
  end.

Definition get_all_song_ids (e : Env) : M (list string) :=
  match SONG_FILE_FOLDER_PATH e with
  | None => ret []
  | Some root => _get_all_cached_song_ids e (root_mtime_ns root)
  end.

Definition str_of_key (k : pykey) : option string :=
  match k with
  | KStr s => Some s
  | KNone | KInt _ => None
  end.

(** [list(SonglistParser.get_user_unlocks(self.user) & set(self.song_ids))] *)
Definition unlocked_among (e : Env) (c : Catalogue) (u : option User.t) (ids : list string)
  : outcome (list string) :=
  let? unlocks := SonglistParser.get_user_unlocks e c u in
  Ret (omap str_of_key (list_of_set e (unlocks ∩ list_to_set (KStr <$> ids)))).

Definition with_song_ids (self : t) (ids : option (list string)) : t :=
  Build (super self) ids (url_flag self) (downloads self) (urls self).

Definition add_songs (e : Env) (self : t) (song_ids_arg : option (list string)) : M t :=
  let self :=
    match song_ids_arg with
    | Some l => with_song_ids self (Some l)
    | None => self
    end in
  let* self :=
    match song_ids self with
    | None | Some [] =>
        let* ids := get_all_song_ids e in
        let* c := gets cat in
        let* ids :=
          if DOWNLOAD_FORBID_WHEN_NO_ITEM e && has_songlist c
          then lift (unlocked_among e c (user self) ids)
          else ret ids in
        let self := with_song_ids self (Some ids) in
        fold_each ids (add_one_song e) self
    | Some ids =>
        let* c := gets cat in
        let* ids :=
          if DOWNLOAD_FORBID_WHEN_NO_ITEM e && has_songlist c
          then lift (unlocked_among e c (user self) ids)
          else ret ids in
        let self := with_song_ids self (Some ids) in
        fold_each ids (fun self i =>
          match song_dir_of e i with
          | Some _ => add_one_song e self i
          | None => ret self
          end) self
    end in
  if url_flag_set self then
    clear_download_token e ;;
    insert_download_tokens self ;;
    ret self
  else ret self.

End DownloadList.

(** * Specification-side definitions *)

(** ** Reasoning about [M] *)

(** [m] leaves the component [f] of the state as it found it, whether it
    returns or raises. *)
Definition preserves {X A : Type} (f : World -> X) (m : M A) : Prop :=
  forall w, f (snd (m w)) = f w.

(** [m] does not raise. *)
Definition returns {A : Type} (m : M A) : Prop :=
  forall w, exists a, fst (m w) = Ret a.

(** ** Reading a catalogue entry *)

(** The entry has no [remote_dl], or a falsy one. *)
Definition remote_dl_off (kv : list (string * json)) : Prop :=
  match assoc "remote_dl" kv with
  | Some v => truthy v = false
  | None => True
  end.

(** The difficulty has [ratingClass == 3]. *)
Definition is_rating3 (d : json) : bool :=
  match subscript d "ratingClass" with
  | Ret rc => eq_int rc 3
  | Raise _ => false
  end.

(** The difficulty has [ratingClass == 3] and a truthy [audioOverride]. *)
Definition is_rating3_override (d : json) : bool :=
  is_rating3 d &&
  match get d "audioOverride" (JBool false) with
  | Ret ao => truthy ao
  | Raise _ => false
  end.

(** The item of [additional_files] names the file. *)
Definition names_file (name : string) (x : json) : bool :=
  match subscript x "file_name" with
  | Ret v => eq_str v name
  | Raise _ => false
  end.

(** Bit [n], when [b] holds. *)
Definition bit (n : Z) (b : bool) : Z := if b then Z.shiftl 1 n else 0.

(** The bits the [else] branch of [parse_one] sets for the difficulties. *)
Definition local_bits (ds : list json) : Z :=
  Z.lor (bit 3 (existsb is_rating3 ds)) (bit 6 (existsb is_rating3_override ds)).

(** The bits [parse_one] sets for [additional_files]. *)
Definition video_bits (fs : list json) : Z :=
  Z.lor (bit 7 (existsb (names_file "video.mp4") fs))
    (Z.lor (bit 8 (existsb (names_file "video_audio.ogg") fs))
       (Z.lor (bit 9 (existsb (names_file "video_720.mp4") fs))
          (bit 10 (existsb (names_file "video_1080.mp4") fs)))).

(** ** Entitlements *)

(** One trailing ['3'] removed: [i if i[-1] != '3' else i[:-1]] where it
    does not raise. *)
Definition strip_one (k : pykey) : pykey :=
  match k with
  | KStr s =>
      match last_char s with
      | Some c => if Ascii.eqb c "3" then KStr (drop_last s) else k
      | None => k
      end
  | KNone | KInt _ => k
  end.

(** Every trailing ['3'] removed: [id.rstrip('3')]. *)
Definition rstrip_key (k : pykey) : pykey :=
  match k with
  | KStr s => KStr (rstrip3 s)
  | KNone | KInt _ => k
  end.

(** The four sources of entitlement, the world songs being renamed by
    [rename]. *)
Definition unlocks_with (rename : pykey -> pykey) (e : Env) (c : Catalogue) (u : User.t)
  : gset pykey :=
  ⋃ ((fun p => default ∅ (pack_info c !! KStr p)) <$> User.packs u)
  ∪ (default ∅ (pack_info c !! KStr (SINGLE_PACK_NAME e))
     ∩ list_to_set (KStr <$> User.singles u))
  ∪ set_map rename (world_songs c ∩ list_to_set (KStr <$> User.world_songs u))
  ∪ free_songs c.

(** The set [get_user_unlocks] computes. *)
Definition unlocks : Env -> Catalogue -> User.t -> gset pykey := unlocks_with strip_one.

(** The set the specification describes, with [rstrip('3')]. *)
Definition spec_unlocks : Env -> Catalogue -> User.t -> gset pykey := unlocks_with rstrip_key.

(** ** Downloads and their tokens *)

(** The downloads in [l] that [old] did not hold carry no token. *)
Definition fresh_without_token (old l : list UserDownload.t) : Prop :=
  forall x, x ∈ l ->
    x ∈ old \/ (UserDownload.token x = None /\ UserDownload.token_time x = None).

(** What holds of a download list that is being built without URLs. *)
Definition no_url_inv (old : list UserDownload.t) (s : DownloadList.t) : Prop :=
  DownloadList.url_flag_set s = false /\
  fresh_without_token old (DownloadList.downloads s).

(** ** The manifest entry of a song *)

(** A download that [add_one_song] has just made for a file. *)
Definition new_download (u : option User.t) (song_id i : string) : UserDownload.t :=
  UserDownload.Build u (Some song_id) (Some i) None None.

(** The manifest entry has no ["checksum"] directly under ["audio"]. *)
Definition audio_without_checksum (re : list (string * json)) : Prop :=
  match assoc "audio" re with
  | None => True
  | Some (JObj a) => assoc "checksum" a = None
  | Some _ => False
  end.

(** The manifest entry has ["3"] under ["audio"]. *)
Definition audio_has_3 (re : list (string * json)) : Prop :=
  exists a entry, assoc "audio" re = Some (JObj a) /\ assoc "3" a = Some entry.

(** ** The song cache after a scan *)

(** The row of [songs] for the directory carries its modification time. *)
Definition row_current (e : Env) (w : World) (song_id : string) : Prop :=
  exists d r,
    song_dir_of e song_id = Some d /\
    tbl_songs (cache w) !! song_id = Some r /\
    row_dir_mtime_ns r = dir_mtime_ns d.

(** The table [songs] of the state. *)
Definition songs_of (w : World) : gmap string song_row := tbl_songs (cache w).

(** The table [files] of the state. *)
Definition files_of (w : World) : gmap (string * string) file_row := tbl_files (cache w).

(** The body of the loop of [sync_all]. *)
Definition sync_each (e : Env) (song_id : string) : M unit :=
  match song_dir_of e song_id with
  | None => ret tt
  | Some d => SongFileCache.sync_song e song_id (Some (dir_mtime_ns d))
  end.

(** The rows of [songs] without [last_scan]. *)
Definition songs_view (w : World) : gmap string Z :=
  row_dir_mtime_ns <$> tbl_songs (cache w).

(** The rows of [files] without [last_seen]. *)
Definition files_view (w : World) : gmap (string * string) (Z * Z * option string) :=
  (fun r => (row_size r, row_mtime_ns r, row_md5 r)) <$> tbl_files (cache w).

(** What holds of the cache after [sync_all]: the directories of the root
    have a current row, and no other song has rows. *)
Definition scanned_inv (e : Env) (w : World) : Prop :=
  match SONG_FILE_FOLDER_PATH e with
  | None => True
  | Some root =>
      (forall id, id ∈ SongFileCache.scan_root root -> row_current e w id) /\
      (forall id, is_Some (songs_of w !! id) -> id ∈ SongFileCache.scan_root root) /\
      (forall s f, is_Some (files_of w !! (s, f)) -> s ∈ SongFileCache.scan_root root)
  end.

(** ** The rows of a song *)

(** Every row of [files] for the song names a file the catalogue [c]
    allows. *)
Definition rows_legal (c : Catalogue) (song_id : string) (w : World) : Prop :=
  forall f, is_Some (files_of w !! (song_id, f)) ->
            SonglistParser.is_available_file c song_id f = true.

(** The stored row of the song is missing or carries another
    modification time: [get_song_file_names] will scan the directory. *)
Definition row_stale (w : World) (song_id : string) (m : Z) : Prop :=
  match songs_of w !! song_id with
  | Some r => row_dir_mtime_ns r <> m
  | None => True
  end.

(** The rows of the song name files of [names] only. *)
Definition rows_within (song_id : string) (names : list string) (w : World) : Prop :=
  forall f, is_Some (files_of w !! (song_id, f)) -> f ∈ names.

(** ** The order of the manifest *)

(** The keys of a dict after [d[i] = ...] for each [i] of [ids], in
    insertion order. *)
Definition keys_after (ids : list string) (keys : list string) : list string :=
  foldl (fun ks i => if mem i ks then ks else (ks ++ [i])%list) keys ids.

(** [os.path.isdir(os.path.join(SONG_FILE_FOLDER_PATH, i))] *)
Definition present (e : Env) (i : string) : bool :=
  match song_dir_of e i with
  | Some _ => true
  | None => false
  end.

(** Ascending, without repetition. *)
Definition ascending (ids : list string) : Prop := Sorted str_le ids /\ NoDup ids.

(** Every memoised result of [get_all_song_ids] is ascending. *)
Definition ids_cached_ascending (w : World) : Prop :=
  forall k v, (k, v) ∈ ids_cached (memo w) -> ascending v.

(** The ids a call of [add_songs] starts from. *)
Definition requested (self : DownloadList.t) (arg : option (list string))
  : option (list string) :=
  match arg with
  | Some l => Some l
  | None => DownloadList.song_ids self
  end.

(** The memoised results of [get_all_song_ids]. *)
Definition ids_memo (w : World) : lru Z (list string) := ids_cached (memo w).

(** ** Catalogue bitmaps *)

(** [remote_dl] is present and truthy. *)
Definition remote_dl_on (kv : list (string * json)) : bool :=
  match assoc "remote_dl" kv with
  | Some v => truthy v
  | None => false
  end.

(** The difficulty has the rating class [n]. *)
Definition has_rating (n : Z) (d : json) : bool :=
  match subscript d "ratingClass" with
  | Ret rc =>
      match as_int rc with
      | Some k => Z.leb 0 k && Z.eqb k n
      | None => false
      end
  | Raise _ => false
  end.

(** The bits the loop over [difficulties] sets when [remote_dl] is truthy. *)
Fixpoint remote_bits (ds : list json) : Z :=
  match ds with
  | [] => 0
  | d :: rest =>
      Z.lor
        (Z.lor (match subscript d "ratingClass" with
                | Ret rc =>
                    match as_int rc with
                    | Some k => if Z.ltb k 0 then 0 else Z.shiftl 1 k
                    | None => 0
                    end
                | Raise _ => 0
                end)
               (bit 6 (is_rating3_override d)))
        (remote_bits rest)
  end.

(** ** What loading a catalogue changes *)

(** [m] takes every state to one related to it by [R], whether it returns
    or raises. *)
Definition steps (R : relation World) {A : Type} (m : M A) : Prop :=
  forall w, R w (snd (m w)).

(** The second catalogue holds everything the first one does: the same
    bitmaps and [has_songlist], and entitlement indexes that have only
    grown. *)
Definition catalogue_grows (c c' : Catalogue) : Prop :=
  has_songlist c' = has_songlist c /\
  songs c' = songs c /\
  free_songs c ⊆ free_songs c' /\
  world_songs c ⊆ world_songs c' /\
  forall p s, pack_info c !! p = Some s ->
              exists s', pack_info c' !! p = Some s' /\ s ⊆ s'.

(** Only the catalogue has changed, and it has grown. *)
Definition only_catalogue_grows (w w' : World) : Prop :=
  catalogue_grows (cat w) (cat w') /\
  cache w' = cache w /\ memo w' = memo w /\
  download_token w' = download_token w /\
  clock_reads w' = clock_reads w /\ entropy_reads w' = entropy_reads w.

(** As [catalogue_grows], but a bitmap can be replaced: the songs listed
    stay listed. *)
Definition catalogue_extends (c c' : Catalogue) : Prop :=
  has_songlist c' = has_songlist c /\
  dom (songs c) ⊆ dom (songs c') /\
  free_songs c ⊆ free_songs c' /\
  world_songs c ⊆ world_songs c' /\
  forall p s, pack_info c !! p = Some s ->
              exists s', pack_info c' !! p = Some s' /\ s ⊆ s'.

(** Only the catalogue has changed, and it has been extended. *)
Definition only_catalogue_extends (w w' : World) : Prop :=
  catalogue_extends (cat w) (cat w') /\
  cache w' = cache w /\ memo w' = memo w /\
  download_token w' = download_token w /\
  clock_reads w' = clock_reads w /\ entropy_reads w' = entropy_reads w.

(** ** What a scan stores *)

(** The row of the file carries the size and the modification time
    [os.stat] gives. *)
Definition row_of_file (song_id f : string) (st : file_node) (w : World) : Prop :=
  exists r, files_of w !! (song_id, f) = Some r /\
            row_size r = st_size st /\ row_mtime_ns r = st_mtime_ns st.

(** The rows of [files] for the song are those of a scan under the
    catalogue [c]: one for each regular file the catalogue allows, with
    the size and modification time of the file. *)
Definition files_scanned (e : Env) (c : Catalogue) (song_id : string) (w : World) : Prop :=
  (forall f, is_Some (files_of w !! (song_id, f))
             <-> is_Some (file_of e song_id f)
                 /\ SonglistParser.is_available_file c song_id f = true) /\
  (forall f r st, files_of w !! (song_id, f) = Some r ->
                  file_of e song_id f = Some st ->
                  row_size r = st_size st /\ row_mtime_ns r = st_mtime_ns st).

(** ** Checksums *)

(** A digest stored in a row that has the size and the modification time
    of its file is the digest of the file. *)
Definition rows_digest_sound (e : Env) (files : gmap (string * string) file_row) : Prop :=
  forall s f r st h,
    files !! (s, f) = Some r -> file_of e s f = Some st ->
    row_size r = st_size st -> row_mtime_ns r = st_mtime_ns st ->
    row_md5 r = Some h -> h <> "" -> h = file_md5 st.

(** A digest memoised for the size and the modification time of a file
    is the digest of the file. *)
Definition memo_digest_sound (e : Env)
  (c : lru (string * string * Z * Z) (option string)) : Prop :=
  forall s f st v,
    ((s, f, st_mtime_ns st, st_size st), v) ∈ c -> file_of e s f = Some st ->
    v = Some (file_md5 st).

Definition digests_sound (e : Env) (w : World) : Prop :=
  rows_digest_sound e (files_of w) /\ memo_digest_sound e (md5_cached (memo w)).

(** Sound digests stay sound. *)
Definition digests_kept (e : Env) : relation World :=
  fun w w' => digests_sound e w -> digests_sound e w'.

(** What [digests_sound] looks at. *)
Definition digest_view (w : World)
  : gmap (string * string) file_row * lru (string * string * Z * Z) (option string) :=
  (files_of w, md5_cached (memo w)).

(** ** Download tokens *)

(** The row is one [select_for_check] can return for [self]: it has the
    song, the file name and the token of [self]. *)
Definition token_row_matches (self : UserDownload.t)
  (row : (Z * string * string) * (option string * option Z)) : Prop :=
  Some (snd (fst (fst row))) = UserDownload.song_id self
  /\ Some (snd (fst row)) = UserDownload.file_name self
  /\ is_Some (UserDownload.token self)
  /\ fst (snd row) = UserDownload.token self.

(** ** Building the manifest with URLs *)

(** Every download of the list carries a token and its time. *)
Definition all_linked (l : list UserDownload.t) : Prop :=
  forall x, x ∈ l -> is_Some (UserDownload.token x) /\ is_Some (UserDownload.token_time x).

(** What holds of a download list that is being built with URLs. *)
Definition url_inv (s : DownloadList.t) : Prop :=
  DownloadList.url_flag_set s = true /\ all_linked (DownloadList.downloads s).

(** ** The entitlement filter *)

(** The download [add_one_song] makes for the file [i] of the song. *)
Definition download_of (u : option User.t) (song_id i : string) (x : UserDownload.t) : Prop :=
  UserDownload.user x = u /\
  UserDownload.song_id x = Some song_id /\
  UserDownload.file_name x = Some i.

(** ** The bitmaps a catalogue registers *)

(** [songs] after [self.songs.update(self.parse_one(x))] for each [x] of
    [xs]. *)
Fixpoint registered (xs : list json) (m : gmap pykey Z) : gmap pykey Z :=
  match xs with
  | [] => m
  | x :: rest =>
      registered rest
        (match SonglistParser.parse_one x with
         | Ret (Some (k, r)) => <[ k := r ]> m
         | _ => m
         end)
  end.

(** ** The checksum of the audio file *)

(** ["audio"] is absent from the manifest entry, or an object. *)
Definition audio_is_object (re : list (string * json)) : Prop :=
  match assoc "audio" re with
  | None | Some (JObj _) => True
  | Some _ => False
  end.

(** The manifest entry gives [c] as ["checksum"] under ["audio"]. *)
Definition audio_checksum (c : json) (re : list (string * json)) : Prop :=
  exists a, assoc "audio" re = Some (JObj a) /\ assoc "checksum" a = Some c.

(** ** Sample data *)

Module Sample.

Definition empty_cache : CacheDb :=
  {| tbl_meta := ∅; tbl_songs := ∅; tbl_files := ∅ |}.

Definition empty_memo : Memo :=
  {| md5_cached := []; names_cached := []; ids_cached := [] |}.

Definition empty_catalogue : Catalogue :=
  {| has_songlist := false; songs := ∅; pack_info := ∅;
     free_songs := ∅; world_songs := ∅ |}.

(** A process that has just started, on fresh databases. *)
Definition fresh : World :=
  {| clock_reads := 0; entropy_reads := 0; cache := empty_cache;
     memo := empty_memo; cat := empty_catalogue; download_token := ∅ |}.

(** A process started on the song cache another one left behind. *)
Definition restart (w : World) : World :=
  {| clock_reads := 0; entropy_reads := 0; cache := cache w;
     memo := empty_memo; cat := empty_catalogue;
     download_token := download_token w |}.

Definition env (tree : option root_dir) (songlist : catalogue_file) : Env :=
  {| SONG_FILE_FOLDER_PATH := tree;
     SONGLIST_FILE_PATH := "songlist";
     open_songlist := fun _ => songlist;
     FREE_PACK_NAME := "base";
     SINGLE_PACK_NAME := "single";
     DOWNLOAD_TIME_GAP_LIMIT := 1000;
     DOWNLOAD_LINK_PREFIX := "";
     SONG_FILE_HASH_PRE_CALCULATE := false;
     DOWNLOAD_FORBID_WHEN_NO_ITEM := false;
     time := fun n => 5000 + 500 * Z.of_nat n;
     urandom := fun _ => "b'\x00'";
     md5 := fun s => s;
     url_for := fun file_path t =>
       String.append "/download/" (String.append file_path (String.append "?t=" t));
     list_of_set := elements |}.

Definition alice : User.t := User.Build 42 [] [] [].

Definition chart0 : dir_entry := RegularFile (FileNode 10 100 "9e107d9d372bb6826bd81d3542a419d6").
Definition chart1 : dir_entry := RegularFile (FileNode 20 200 "e4d909c290d0fb1ca068ffaddf22cbd0").
Definition audio : dir_entry := RegularFile (FileNode 30 300 "d41d8cd98f00b204e9800998ecf8427e").

(** /songs/abc/{0.aff, 1.aff, base.ogg} and /songs/b/{3.aff, 3.ogg} *)
Definition tree : root_dir :=
  RootDir 7
    (list_to_map
       [("abc", Directory (SongDir 5
                  (list_to_map [("0.aff", chart0); ("1.aff", chart1); ("base.ogg", audio)])));
        ("b", Directory (SongDir 6
                  (list_to_map [("3.aff", chart0); ("3.ogg", audio)])))]).

(** A download of abc/0.aff for [alice], before its token is generated. *)
Definition download0 : UserDownload.t :=
  UserDownload.Build (Some alice) (Some "abc") (Some "0.aff") None None.

(** The state when the clock is read for the third time. *)
Definition later : World :=
  {| clock_reads := 2; entropy_reads := 1; cache := empty_cache;
     memo := empty_memo; cat := empty_catalogue; download_token := ∅ |}.

(** The song cache after a first scan of [tree]. *)
Definition scanned : World :=
  snd (SongFileCache.sync_all (env (Some tree) NoFile) fresh).

(** An entry without remote download, with a Beyond chart and a video. *)
Definition local_song_with_video : list (string * json) :=
  [("id", JStr "abc");
   ("remote_dl", JBool false);
   ("difficulties", JArr [JObj [("ratingClass", JInt 0)]; JObj [("ratingClass", JInt 3)]]);
   ("additional_files", JArr [JObj [("file_name", JStr "video.mp4")]])].

(** A catalogue with one free song, a3, that has a Beyond chart. *)
Definition beyond_songlist : json :=
  JObj [("songs", JArr [JObj
    [("id", JStr "a3"); ("set", JStr "base"); ("purchase", JStr "");
     ("difficulties", JArr [JObj [("ratingClass", JInt 3)]])]])].

Definition beyond_catalogue : Catalogue :=
  cat (snd (SonglistParser.init (env None (Decoded beyond_songlist)) "songlist" fresh)).

(** A user who has unlocked the Beyond chart of a3 in world mode. *)
Definition bob : User.t := User.Build 7 [] [] ["a33"].

(** A catalogue that allows 0.aff and base.ogg for abc. *)
Definition restricted_songlist : json :=
  JObj [("songs", JArr [JObj
    [("id", JStr "abc"); ("set", JStr "base"); ("purchase", JStr "");
     ("remote_dl", JBool true);
     ("difficulties", JArr [JObj [("ratingClass", JInt 0)]])]])].

(** The process is started without a catalogue, scans [tree], and is
    started again on the same tree with [restricted_songlist]. *)
Definition restarted : World :=
  snd (DownloadList.initialize_cache (env (Some tree) (Decoded restricted_songlist))
         (restart (snd (DownloadList.initialize_cache (env (Some tree) NoFile) fresh)))).

(** The process scans [tree] without a catalogue; the catalogue file
    [restricted_songlist] is then put in place and the caches are
    refreshed: [clear_all_cache()], then [initialize_cache()]. *)
Definition refreshed : World :=
  snd (bind DownloadList.clear_all_cache
         (fun _ => DownloadList.initialize_cache
                     (env (Some tree) (Decoded restricted_songlist)))
         (snd (DownloadList.initialize_cache (env (Some tree) NoFile) fresh))).

(** A request for all songs, without URLs, right after start. *)
Definition listing : outcome DownloadList.t * World :=
  DownloadList.add_songs (env (Some tree) NoFile) (DownloadList.init (Some alice))
    None fresh.

Definition listed : DownloadList.t :=
  match fst listing with
  | Ret s => s
  | Raise _ => DownloadList.init None
  end.

(** An entry with remote download, two charts and a video. *)
Definition remote_song : list (string * json) :=
  [("id", JStr "abc");
   ("remote_dl", JBool true);
   ("difficulties", JArr [JObj [("ratingClass", JInt 0)]; JObj [("ratingClass", JInt 2)]]);
   ("additional_files", JArr [JObj [("file_name", JStr "video.mp4")]])].

(** A catalogue whose one entry, unlocked in world mode, has the empty
    string as its id. *)
Definition nameless_songlist : json :=
  JObj [("songs", JArr [JObj
    [("id", JStr ""); ("set", JStr "pack"); ("purchase", JStr "pack");
     ("world_unlock", JBool true)]])].

Definition nameless_catalogue : Catalogue :=
  cat (snd (SonglistParser.init (env None (Decoded nameless_songlist)) "songlist" fresh)).

(** A user who has that entry among their world songs. *)
Definition carol : User.t := User.Build 9 [] [] [""].

(** The download of abc/0.aff for [alice], with a token issued at 5000. *)
Definition download1 : UserDownload.t :=
  UserDownload.Build (Some alice) (Some "abc") (Some "0.aff") (Some "f00") (Some 5000).

(** A download list of [alice] that holds [download1]. *)
Definition one_link : DownloadList.t :=
  DownloadList.Build (UserDownload.init (Some alice)) (Some ["abc"]) (Some true)
    [download1] [].

(** The state once that list has stored its tokens. *)
Definition one_link_stored : World :=
  snd (DownloadList.insert_download_tokens one_link fresh).

(** What a client that follows the link of [download1] presents. *)
Definition request1 : UserDownload.t :=
  UserDownload.Build None (Some "abc") (Some "0.aff") (Some "f00") None.

(** A download list of [alice] that asks for URLs. *)
Definition with_links : DownloadList.t :=
  DownloadList.Build (UserDownload.init (Some alice)) None (Some true) [] [].

(** The manifest of song b, with URLs, right after start. *)
Definition linking : outcome DownloadList.t * World :=
  DownloadList.add_songs (env (Some tree) NoFile) with_links (Some ["b"])
    fresh.

Definition linked : DownloadList.t :=
  match fst linking with
  | Ret s => s
  | Raise _ => DownloadList.init None
  end.

(** The two downloads of that manifest. *)
Definition link_chart : UserDownload.t :=
  UserDownload.Build (Some alice) (Some "b") (Some "3.aff")
    (Some "42b3.aff6000b'\x00'") (Some 6000).

Definition link_audio : UserDownload.t :=
  UserDownload.Build (Some alice) (Some "b") (Some "3.ogg")
    (Some "42b3.ogg7000b'\x00'") (Some 7000).

(** [env] with [DOWNLOAD_FORBID_WHEN_NO_ITEM] set. *)
Definition strict (tree : option root_dir) (songlist : catalogue_file) : Env :=
  {| SONG_FILE_FOLDER_PATH := tree;
     SONGLIST_FILE_PATH := "songlist";
     open_songlist := fun _ => songlist;
     FREE_PACK_NAME := "base";
     SINGLE_PACK_NAME := "single";
     DOWNLOAD_TIME_GAP_LIMIT := 1000;
     DOWNLOAD_LINK_PREFIX := "";
     SONG_FILE_HASH_PRE_CALCULATE := false;
     DOWNLOAD_FORBID_WHEN_NO_ITEM := true;
     time := fun n => 5000 + 500 * Z.of_nat n;
     urandom := fun _ => "b'\x00'";
     md5 := fun s => s;
     url_for := fun file_path t =>
       String.append "/download/" (String.append file_path (String.append "?t=" t));
     list_of_set := elements |}.

(** A process in which other code has set [SonglistParser.has_songlist],
    with abc as the one free song. *)
Definition filtering : World :=
  set_cat (fun c =>
    {| has_songlist := true; songs := songs c; pack_info := pack_info c;
       free_songs := {[ KStr "abc" ]}; world_songs := world_songs c |}) fresh.

(** A request for all songs under the filter. *)
Definition filtered : outcome DownloadList.t * World :=
  DownloadList.add_songs (strict (Some tree) NoFile) (DownloadList.init (Some alice))
    None filtering.

Definition filtered_list : DownloadList.t :=
  match fst filtered with
  | Ret s => s
  | Raise _ => DownloadList.init None
  end.

(** The manifest entry of song b alone, without URLs. *)
Definition one_song : outcome DownloadList.t * World :=
  DownloadList.add_one_song (env (Some tree) NoFile)
    (DownloadList.init (Some alice)) "b" fresh.

Definition one_song_list : DownloadList.t :=
  match fst one_song with
  | Ret s => s
  | Raise _ => DownloadList.init None
  end.

(** The parser of [restricted_songlist], in a process that has just
    started. *)
Definition parsed : outcome SonglistParser.t * World :=
  SonglistParser.init (env None (Decoded restricted_songlist)) "songlist"
    fresh.

Definition parser : SonglistParser.t :=
  match fst parsed with
  | Ret p => p
  | Raise _ => SonglistParser.Build "songlist" (JArr []) None
  end.

(** The manifest entry of song abc alone, without URLs. *)
Definition abc_song : outcome DownloadList.t * World :=
  DownloadList.add_one_song (env (Some tree) NoFile)
    (DownloadList.init (Some alice)) "abc" fresh.

Definition abc_song_list : DownloadList.t :=
  match fst abc_song with
  | Ret s => s
  | Raise _ => DownloadList.init None
  end.

End Sample.

(** * Properties *)

(** ** Monad laws used below *)

Lemma bind_ret_inv {A B : Type} (m : M A) (k : A -> M B) w b w' :
  bind m k w = (Ret b, w') ->
  exists a w1, m w = (Ret a, w1) /\ k a w1 = (Ret b, w').
Proof.
  unfold bind. destruct (m w) as [[a | x] w1]; [eauto | discriminate].
Qed.

Lemma bind_run {A B : Type} (m : M A) (k : A -> M B) w a w1 :
  m w = (Ret a, w1) -> bind m k w = k a w1.
Proof. intros H. unfold bind. by rewrite H. Qed.

Lemma bind_raise {A B : Type} (m : M A) (k : A -> M B) w x w1 :
  m w = (Raise x, w1) -> bind m k w = (Raise x, w1).
Proof. intros H. unfold bind. by rewrite H. Qed.

(** ** The token validity window *)

(** C1.  A token issued by [generate_token] at the clock reading [t0] is
    accepted by [is_valid] at the reading [t] exactly when
    [t - t0 <= DOWNLOAD_TIME_GAP_LIMIT]; for a clock that has not gone
    back ([t0 <= t]) that is when [t] lies in the closed interval
    [t0, t0 + DOWNLOAD_TIME_GAP_LIMIT].  Validation at
    [t0 + DOWNLOAD_TIME_GAP_LIMIT] succeeds, and one second later it
    fails. *)
Theorem token_validity_window (e : Env) (x x' : UserDownload.t) (w w1 w2 : World) :
  UserDownload.generate_token e x w = (Ret x', w1) ->
  let t0 := time e (clock_reads w) in
  let t := time e (clock_reads w2) in
  let limit := DOWNLOAD_TIME_GAP_LIMIT e in
  UserDownload.token_time x' = Some t0 /\
  exists valid : bool,
    fst (UserDownload.is_valid e x' w2) = Ret (valid, x') /\
    (valid = true <-> t <= t0 + limit) /\
    (t0 <= t -> (valid = true <-> t0 <= t <= t0 + limit)) /\
    (t = t0 + limit -> valid = true) /\
    (t = t0 + limit + 1 -> valid = false).
Proof.
  intros Hgen t0 t limit.
  assert (Htime : UserDownload.token_time x' = Some t0).
  { unfold UserDownload.generate_token, bind, now, os_urandom, raise, ret in Hgen.
    simpl in Hgen.
    destruct (UserDownload.user x); [| discriminate].
    destruct (UserDownload.song_id x); [| discriminate].
    destruct (UserDownload.file_name x); [| discriminate].
    by inversion Hgen. }
  split; [exact Htime |].
  exists (Z.leb (t - t0) limit). split.
  { unfold UserDownload.is_valid, bind, now, ret. rewrite Htime. simpl.
    by rewrite Htime. }
  rewrite Z.leb_le. repeat split; intros; lia.
Qed.

(** A token issued at 5000 with a limit of 1000 is valid at 6000. *)
Lemma token_validity_window_at_limit :
  UserDownload.token_time
    (UserDownload.Build (Some Sample.alice) (Some "abc") (Some "0.aff")
       (Some "42abc0.aff5000b'\x00'") (Some 5000)) = Some 5000 /\
  exists valid : bool,
    fst (UserDownload.is_valid (Sample.env None NoFile)
           (UserDownload.Build (Some Sample.alice) (Some "abc") (Some "0.aff")
              (Some "42abc0.aff5000b'\x00'") (Some 5000))
           Sample.later) = Ret (valid,
             UserDownload.Build (Some Sample.alice) (Some "abc") (Some "0.aff")
               (Some "42abc0.aff5000b'\x00'") (Some 5000)) /\
    (valid = true <-> 6000 <= 5000 + 1000) /\
    (5000 <= 6000 -> (valid = true <-> 5000 <= 6000 <= 5000 + 1000)) /\
    (6000 = 5000 + 1000 -> valid = true) /\
    (6000 = 5000 + 1000 + 1 -> valid = false).
Proof.
  apply (token_validity_window (Sample.env None NoFile) Sample.download0 _
           Sample.fresh
           {| clock_reads := 1; entropy_reads := 1; cache := Sample.empty_cache;
              memo := Sample.empty_memo; cat := Sample.empty_catalogue;
              download_token := ∅ |}
           Sample.later).
  vm_compute. reflexivity.
Defined.

(** ** The catalogue file is absent or malformed *)

(** C5, as the code has it.  When the catalogue file is absent, [parse]
    returns without raising and changes nothing; when the file holds an
    object that has no ["songs"], or an empty list of them, [parse]
    returns too and changes nothing but the parser object, which records
    that a catalogue was read: in both cases the indexes and the class
    attribute [has_songlist] stay as they were, empty and false in a
    process that has just started, and with no song in the catalogue
    every well-known file name is allowed.  When the bytes are not
    Unicode text, when the text is not JSON, or when the top-level value
    is not an object, [parse] raises ([UnicodeDecodeError],
    [JSONDecodeError], [AttributeError]) before it touches any index. *)
Theorem parse_absent_or_malformed (e : Env) (self : SonglistParser.t) (w : World) :
  (open_songlist e (SonglistParser.path self) = NoFile ->
   SonglistParser.parse e self w = (Ret self, w)) /\
  (forall kv, open_songlist e (SonglistParser.path self) = Decoded (JObj kv) ->
     assoc "songs" kv = None \/ assoc "songs" kv = Some (JArr []) ->
     SonglistParser.parse e self w
     = (Ret (SonglistParser.Build (SonglistParser.path self) (JArr []) (Some true)), w)) /\
  (open_songlist e (SonglistParser.path self) = NotUnicode ->
   SonglistParser.parse e self w = (Raise UnicodeDecodeError, w)) /\
  (open_songlist e (SonglistParser.path self) = NotJson ->
   SonglistParser.parse e self w = (Raise JSONDecodeError, w)) /\
  (forall top, open_songlist e (SonglistParser.path self) = Decoded top ->
     (forall kv, top <> JObj kv) ->
     SonglistParser.parse e self w = (Raise AttributeError, w)) /\
  (songs (cat w) = ∅ ->
   forall song_id file_name,
     SonglistParser.is_available_file (cat w) song_id file_name
     = bool_decide (file_name ∈ FILE_NAMES)).
Proof.
  repeat split.
  - intros H. unfold SonglistParser.parse. by rewrite H.
  - intros kv H Hsongs. unfold SonglistParser.parse. rewrite H.
    unfold get. by destruct Hsongs as [-> | ->].
  - intros H. unfold SonglistParser.parse. by rewrite H.
  - intros H. unfold SonglistParser.parse. by rewrite H.
  - intros top H Hn. unfold SonglistParser.parse. rewrite H.
    destruct top; try reflexivity. by destruct (Hn kv).
  - intros H song_id file_name. unfold SonglistParser.is_available_file.
    by rewrite H, lookup_empty.
Qed.

Lemma parse_absent_or_malformed_sample :
  SonglistParser.parse (Sample.env None NoFile)
    (SonglistParser.Build "songlist" (JArr []) None) Sample.fresh
  = (Ret (SonglistParser.Build "songlist" (JArr []) None), Sample.fresh) /\
  SonglistParser.parse (Sample.env None (Decoded (JObj [("version", JInt 1)])))
    (SonglistParser.Build "songlist" (JArr []) None) Sample.fresh
  = (Ret (SonglistParser.Build "songlist" (JArr []) (Some true)), Sample.fresh) /\
  SonglistParser.parse (Sample.env None NotUnicode)
    (SonglistParser.Build "songlist" (JArr []) None) Sample.fresh
  = (Raise UnicodeDecodeError, Sample.fresh) /\
  SonglistParser.parse (Sample.env None NotJson)
    (SonglistParser.Build "songlist" (JArr []) None) Sample.fresh
  = (Raise JSONDecodeError, Sample.fresh) /\
  SonglistParser.parse (Sample.env None (Decoded (JArr [])))
    (SonglistParser.Build "songlist" (JArr []) None) Sample.fresh
  = (Raise AttributeError, Sample.fresh) /\
  SonglistParser.is_available_file (cat Sample.fresh) "abc" "1.aff"
  = bool_decide ("1.aff" ∈ FILE_NAMES).
Proof.
  split; [| split; [| split; [| split; [| split]]]].
  - apply (proj1 (parse_absent_or_malformed (Sample.env None NoFile) _ _)).
    reflexivity.
  - apply (proj1 (proj2
      (parse_absent_or_malformed
         (Sample.env None (Decoded (JObj [("version", JInt 1)])))
         (SonglistParser.Build "songlist" (JArr []) None) Sample.fresh))
      [("version", JInt 1)]).
    + reflexivity.
    + left. reflexivity.
  - apply (proj1 (proj2 (proj2
      (parse_absent_or_malformed (Sample.env None NotUnicode) _ _)))).
    reflexivity.
  - apply (proj1 (proj2 (proj2 (proj2
      (parse_absent_or_malformed (Sample.env None NotJson) _ _))))).
    reflexivity.
  - apply (proj1 (proj2 (proj2 (proj2 (proj2
      (parse_absent_or_malformed (Sample.env None (Decoded (JArr []))) _ _)))))
      (JArr [])).
    + reflexivity.
    + discriminate.
  - apply (proj2 (proj2 (proj2 (proj2 (proj2
      (parse_absent_or_malformed (Sample.env None NoFile)
         (SonglistParser.Build "songlist" (JArr []) None) Sample.fresh)))))).
    reflexivity.
Defined.

(** C5 as stated fails: a catalogue file whose bytes are not Unicode
    text, or whose text is not JSON, makes the constructor of
    [SonglistParser] raise, and so does one whose top-level value is a
    list; [initialize_cache] raises with it and does not reach the scan
    of the song tree. *)
Lemma parse_malformed_raises :
  fst (SonglistParser.init (Sample.env None NotUnicode) "songlist" Sample.fresh)
  = Raise UnicodeDecodeError /\
  fst (SonglistParser.init (Sample.env None NotJson) "songlist" Sample.fresh)
  = Raise JSONDecodeError /\
  fst (SonglistParser.init (Sample.env None (Decoded (JArr []))) "songlist" Sample.fresh)
  = Raise AttributeError /\
  fst (DownloadList.initialize_cache (Sample.env None NotUnicode) Sample.fresh)
  = Raise UnicodeDecodeError /\
  fst (DownloadList.initialize_cache (Sample.env None NotJson) Sample.fresh)
  = Raise JSONDecodeError.
Proof. by vm_compute. Qed.

(** ** Scanning an absent or empty root *)

Lemma filter_none {A : Type} (f : A -> bool) (l : list A) :
  (forall x, x ∈ l -> f x = false) -> List.filter f l = [].
Proof.
  induction l as [| a l IH]; intros H; [done |].
  simpl. rewrite (H a) by apply list_elem_of_here.
  apply IH. intros x Hx. apply H. by apply list_elem_of_further.
Qed.

Lemma scan_root_no_directory (root : root_dir) :
  (forall name d, root_entries root !! name <> Some (Directory d)) ->
  SongFileCache.scan_root root = [].
Proof.
  intros H. unfold SongFileCache.scan_root. rewrite filter_none; [done |].
  intros [name x] Hx. apply elem_of_map_to_list in Hx. simpl.
  destruct x as [d |]; [by destruct (H name d) | done].
Qed.

(** C4, as the code has it.  When the root is present and holds no
    subdirectory, [sync_all] deletes every row of [songs] and [files];
    when the root is absent it returns at once and changes nothing. *)
Theorem sync_all_empty_or_absent (e : Env) (w : World) :
  (SONG_FILE_FOLDER_PATH e = None ->
   SongFileCache.sync_all e w = (Ret tt, w)) /\
  (forall root, SONG_FILE_FOLDER_PATH e = Some root ->
     (forall name d, root_entries root !! name <> Some (Directory d)) ->
     fst (SongFileCache.sync_all e w) = Ret tt /\
     tbl_songs (cache (snd (SongFileCache.sync_all e w))) = ∅ /\
     tbl_files (cache (snd (SongFileCache.sync_all e w))) = ∅).
Proof.
  split.
  - intros H. unfold SongFileCache.sync_all. by rewrite H.
  - intros root H Hn. unfold SongFileCache.sync_all. rewrite H.
    by rewrite (scan_root_no_directory root Hn).
Qed.

Lemma sync_all_empty_or_absent_sample :
  SongFileCache.sync_all (Sample.env None NoFile) Sample.scanned
  = (Ret tt, Sample.scanned) /\
  fst (SongFileCache.sync_all (Sample.env (Some (RootDir 8 ∅)) NoFile) Sample.scanned)
  = Ret tt /\
  tbl_songs (cache (snd (SongFileCache.sync_all
                           (Sample.env (Some (RootDir 8 ∅)) NoFile) Sample.scanned))) = ∅ /\
  tbl_files (cache (snd (SongFileCache.sync_all
                           (Sample.env (Some (RootDir 8 ∅)) NoFile) Sample.scanned))) = ∅.
Proof.
  split.
  - apply (proj1 (sync_all_empty_or_absent (Sample.env None NoFile) Sample.scanned)).
    reflexivity.
  - apply (proj2 (sync_all_empty_or_absent
                    (Sample.env (Some (RootDir 8 ∅)) NoFile) Sample.scanned)
             (RootDir 8 ∅)).
    + reflexivity.
    + intros name d. simpl. rewrite lookup_empty. discriminate.
Defined.

(** C4 as stated fails when the root is absent: the rows a previous scan
    left in the cache are still there after [sync_all]. *)
Lemma sync_all_absent_root_keeps_rows :
  SONG_FILE_FOLDER_PATH (Sample.env None NoFile) = None /\
  tbl_songs (cache Sample.scanned) !! "abc" = Some (SongRow 5 5000) /\
  tbl_songs (cache (snd (SongFileCache.sync_all (Sample.env None NoFile) Sample.scanned)))
    !! "abc" = Some (SongRow 5 5000) /\
  tbl_files (cache (snd (SongFileCache.sync_all (Sample.env None NoFile) Sample.scanned)))
    !! ("abc", "0.aff") = Some (FileRow 10 100 None 5000).
Proof. by vm_compute. Qed.

(** ** The bitmap of an entry without remote download *)

Lemma Ret_inj {A : Type} (a b : A) : Ret a = Ret b -> a = b.
Proof. by intros [= ->]. Qed.

Lemma obind_ret_inv {A B : Type} (m : outcome A) (k : A -> outcome B) b :
  obind m k = Ret b -> exists a, m = Ret a /\ k a = Ret b.
Proof. destruct m; simpl; [eauto | discriminate]. Qed.

Ltac lor_solve :=
  change (Z.shiftl 1 3) with 8; change (Z.shiftl 1 6) with 64;
  change (Z.shiftl 1 7) with 128; change (Z.shiftl 1 8) with 256;
  change (Z.shiftl 1 9) with 512; change (Z.shiftl 1 10) with 1024;
  apply Z.bits_inj'; intros ? _; rewrite ?Z.lor_spec, ?Z.bits_0; btauto.

Lemma bit_orb (n : Z) (a b : bool) : bit n (a || b) = Z.lor (bit n a) (bit n b).
Proof. destruct a, b; simpl; by rewrite ?Z.lor_diag, ?Z.lor_0_r. Qed.

Lemma difficulty_local_bits (r r' : Z) (d : json) :
  SonglistParser.difficulty_local r d = Ret r' ->
  r' = Z.lor r (Z.lor (bit 3 (is_rating3 d)) (bit 6 (is_rating3_override d))).
Proof.
  unfold SonglistParser.difficulty_local, is_rating3_override, is_rating3.
  destruct (subscript d "ratingClass") as [rc |]; simpl; [| discriminate].
  destruct (eq_int rc 3); simpl.
  - destruct (get d "audioOverride" (JBool false)) as [ao |]; simpl; [| discriminate].
    destruct (truthy ao); intros [= <-]; simpl; lor_solve.
  - intros [= <-]. simpl. lor_solve.
Qed.

Lemma ofold_difficulty_local_bits (ds : list json) (r r' : Z) :
  ofold SonglistParser.difficulty_local ds r = Ret r' ->
  r' = Z.lor r (local_bits ds).
Proof.
  revert r. induction ds as [| d ds IH]; intros r; simpl.
  - intros [= <-]. unfold local_bits. simpl. lor_solve.
  - intros H. apply obind_ret_inv in H as (r1 & H1 & H2).
    apply difficulty_local_bits in H1. apply IH in H2. subst.
    unfold local_bits. simpl. rewrite !bit_orb. lor_solve.
Qed.

Lemma names_file_exclusive (x : json) (a b : string) :
  a <> b -> names_file a x = true -> names_file b x = false.
Proof.
  unfold names_file. destruct (subscript x "file_name") as [v |]; [| done].
  destruct v; simpl; try done.
  intros Hab Ha. apply String.eqb_eq in Ha. subst. by apply String.eqb_neq.
Qed.

Lemma additional_file_bits (r r' : Z) (x : json) :
  SonglistParser.additional_file r x = Ret r' ->
  r' = Z.lor r
         (Z.lor (bit 7 (names_file "video.mp4" x))
            (Z.lor (bit 8 (names_file "video_audio.ogg" x))
               (Z.lor (bit 9 (names_file "video_720.mp4" x))
                  (bit 10 (names_file "video_1080.mp4" x))))).
Proof.
  unfold SonglistParser.additional_file.
  pose proof (names_file_exclusive x) as Hx.
  unfold names_file in *.
  destruct (subscript x "file_name") as [v |]; simpl; [| discriminate].
  change (SonglistParser.file_name_at 7) with "video.mp4".
  change (SonglistParser.file_name_at 8) with "video_audio.ogg".
  change (SonglistParser.file_name_at 9) with "video_720.mp4".
  change (SonglistParser.file_name_at 10) with "video_1080.mp4".
  destruct (eq_str v "video.mp4") eqn:E7.
  { rewrite (Hx "video.mp4" "video_audio.ogg"), (Hx "video.mp4" "video_720.mp4"),
      (Hx "video.mp4" "video_1080.mp4") by done.
    intros [= <-]. simpl. lor_solve. }
  destruct (eq_str v "video_audio.ogg") eqn:E8.
  { rewrite (Hx "video_audio.ogg" "video_720.mp4"),
      (Hx "video_audio.ogg" "video_1080.mp4") by done.
    intros [= <-]. simpl. lor_solve. }
  destruct (eq_str v "video_720.mp4") eqn:E9.
  { rewrite (Hx "video_720.mp4" "video_1080.mp4") by done.
    intros [= <-]. simpl. lor_solve. }
  destruct (eq_str v "video_1080.mp4"); intros [= <-]; simpl; lor_solve.
Qed.

Lemma ofold_additional_file_bits (fs : list json) (r r' : Z) :
  ofold SonglistParser.additional_file fs r = Ret r' ->
  r' = Z.lor r (video_bits fs).
Proof.
  revert r. induction fs as [| x fs IH]; intros r; simpl.
  - intros [= <-]. unfold video_bits. simpl. lor_solve.
  - intros H. apply obind_ret_inv in H as (r1 & H1 & H2).
    apply additional_file_bits in H1. apply IH in H2. subst.
    unfold video_bits. simpl. rewrite !bit_orb. lor_solve.
Qed.

Lemma testbit_bit (k n : Z) (b : bool) :
  0 <= k -> Z.testbit (bit k b) n = b && Z.eqb k n.
Proof.
  intros Hk. destruct b; simpl; [| apply Z.bits_0].
  rewrite Z.shiftl_1_l. by apply Z.pow2_bits_eqb.
Qed.

Lemma testbit_local_video (ds fs : list json) (n : Z) :
  Z.testbit (Z.lor (local_bits ds) (video_bits fs)) n
  = (existsb is_rating3 ds && Z.eqb 3 n)
    || (existsb is_rating3_override ds && Z.eqb 6 n)
    || (existsb (names_file "video.mp4") fs && Z.eqb 7 n)
    || (existsb (names_file "video_audio.ogg") fs && Z.eqb 8 n)
    || (existsb (names_file "video_720.mp4") fs && Z.eqb 9 n)
    || (existsb (names_file "video_1080.mp4") fs && Z.eqb 10 n).
Proof.
  unfold local_bits, video_bits.
  rewrite !Z.lor_spec, !testbit_bit by lia. btauto.
Qed.

(** C2, as the code has it.  For an entry whose [remote_dl] is false or
    absent, the bitmap [parse_one] produces is made of bit 3 (set exactly
    when a difficulty has [ratingClass == 3]), bit 6 (set exactly when such
    a difficulty has a truthy [audioOverride]) and the bits 7 to 10 of the
    video files listed under [additional_files]: among the chart and audio
    bits 0 to 6 only 3 and 6 can be set, and no bit above 10 is set. *)
Theorem parse_one_without_remote_dl (kv : list (string * json)) (k : pykey) (r : Z) :
  remote_dl_off kv ->
  SonglistParser.parse_one (JObj kv) = Ret (Some (k, r)) ->
  exists ds fs,
    iter (default (JArr []) (assoc "difficulties" kv)) = Ret ds /\
    iter (default (JArr []) (assoc "additional_files" kv)) = Ret fs /\
    r = Z.lor (local_bits ds) (video_bits fs) /\
    (forall n, Z.testbit r n = true ->
       n = 3 \/ n = 6 \/ n = 7 \/ n = 8 \/ n = 9 \/ n = 10) /\
    (forall n, 0 <= n <= 6 -> Z.testbit r n = true -> n = 3 \/ n = 6) /\
    Z.testbit r 3 = existsb is_rating3 ds /\
    Z.testbit r 6 = existsb is_rating3_override ds /\
    Z.testbit r 7 = existsb (names_file "video.mp4") fs /\
    Z.testbit r 8 = existsb (names_file "video_audio.ogg") fs /\
    Z.testbit r 9 = existsb (names_file "video_720.mp4") fs /\
    Z.testbit r 10 = existsb (names_file "video_1080.mp4") fs.
Proof.
  intros Hoff H. unfold SonglistParser.parse_one in H. simpl in H.
  destruct (bool_decide (is_Some (assoc "id" kv))); simpl in H; [| discriminate].
  assert (Hdl :
    (if bool_decide (is_Some (assoc "remote_dl" kv))
     then let? v := match assoc "remote_dl" kv with
                    | Some x => Ret x
                    | None => Raise KeyError
                    end in Ret (truthy v)
     else Ret false) = Ret false).
  { unfold remote_dl_off in Hoff.
    destruct (assoc "remote_dl" kv) as [v |]; case_bool_decide as Hd; simpl.
    - by rewrite Hoff.
    - reflexivity.
    - by destruct Hd.
    - reflexivity. }
  rewrite Hdl in H. simpl in H.
  apply obind_ret_inv in H as (r1 & H1 & H).
  apply obind_ret_inv in H1 as (ds & Hds & H1).
  apply obind_ret_inv in H as (fs & Hfs & H).
  apply obind_ret_inv in H as (r2 & H2 & H).
  apply obind_ret_inv in H as (id & _ & H).
  apply obind_ret_inv in H as (k' & _ & H).
  injection H as _ <-.
  apply ofold_difficulty_local_bits in H1.
  apply ofold_additional_file_bits in H2.
  assert (Hr : r2 = Z.lor (local_bits ds) (video_bits fs)).
  { subst. rewrite Z.lor_0_l. reflexivity. }
  exists ds, fs. split; [exact Hds |]. split; [exact Hfs |]. split; [exact Hr |].
  rewrite Hr.
  repeat split; try intros n; try intros Hn; try intros Hb;
    rewrite ?testbit_local_video in *; simpl;
    repeat
      match goal with
      | |- context [Z.eqb ?a ?b] => destruct (Z.eqb_spec a b); try lia
      | H : context [Z.eqb ?a ?b] |- _ => destruct (Z.eqb_spec a b); try lia
      end;
    rewrite ?andb_false_r, ?andb_true_r, ?orb_false_r in *; simpl in *;
    try done; try lia.
Qed.

(** The sample entry, whose [remote_dl] is false, gets the bits 3 and 7. *)
Lemma parse_one_without_remote_dl_sample :
  exists ds fs,
    iter (default (JArr []) (assoc "difficulties" Sample.local_song_with_video)) = Ret ds /\
    iter (default (JArr []) (assoc "additional_files" Sample.local_song_with_video))
    = Ret fs /\
    136 = Z.lor (local_bits ds) (video_bits fs) /\
    (forall n, Z.testbit 136 n = true ->
       n = 3 \/ n = 6 \/ n = 7 \/ n = 8 \/ n = 9 \/ n = 10) /\
    (forall n, 0 <= n <= 6 -> Z.testbit 136 n = true -> n = 3 \/ n = 6) /\
    Z.testbit 136 3 = existsb is_rating3 ds /\
    Z.testbit 136 6 = existsb is_rating3_override ds /\
    Z.testbit 136 7 = existsb (names_file "video.mp4") fs /\
    Z.testbit 136 8 = existsb (names_file "video_audio.ogg") fs /\
    Z.testbit 136 9 = existsb (names_file "video_720.mp4") fs /\
    Z.testbit 136 10 = existsb (names_file "video_1080.mp4") fs.
Proof.
  apply (parse_one_without_remote_dl Sample.local_song_with_video (KStr "abc") 136).
  - reflexivity.
  - reflexivity.
Defined.

(** C2 as stated fails: with [remote_dl] false and a video listed under
    [additional_files], bit 7 is set besides bit 3. *)
Lemma parse_one_sets_video_bits :
  remote_dl_off Sample.local_song_with_video /\
  SonglistParser.parse_one (JObj Sample.local_song_with_video)
  = Ret (Some (KStr "abc", 136)) /\
  Z.testbit 136 7 = true /\
  ~ (forall n, Z.testbit 136 n = true -> n = 3 \/ n = 6).
Proof.
  repeat split. intros H. specialize (H 7 eq_refl). lia.
Qed.

(** ** The songs a user has unlocked *)

Lemma foldl_pack_union (c : Catalogue) (l : list string) (acc : gset pykey) :
  foldl (fun r i =>
           match pack_info c !! KStr i with
           | Some s => r ∪ s
           | None => r
           end) acc l
  = acc ∪ ⋃ ((fun p => default ∅ (pack_info c !! KStr p)) <$> l).
Proof.
  revert acc. induction l as [| p l IH]; intros acc; simpl.
  - set_solver.
  - rewrite IH. destruct (pack_info c !! KStr p); simpl; set_solver.
Qed.

Lemma last_char_nonempty (s : string) : s <> "" -> is_Some (last_char s).
Proof.
  induction s as [| a s IH]; [done |]. intros _. simpl.
  destruct s; [eauto |]. by apply IH.
Qed.

Lemma strip3_strip_one (s : string) :
  s <> "" -> SonglistParser.strip3 (KStr s) = Ret (strip_one (KStr s)).
Proof.
  intros Hs. unfold SonglistParser.strip3, strip_one.
  destruct (last_char_nonempty s Hs) as [ch ->]. by destruct (Ascii.eqb ch "3").
Qed.

Lemma ofold_strip3 (l : list pykey) (acc : gset pykey) :
  (forall k, k ∈ l -> exists s, k = KStr s /\ s <> "") ->
  ofold (fun (acc : gset pykey) i =>
           let? j := SonglistParser.strip3 i in Ret (acc ∪ {[ j ]})) l acc
  = Ret (acc ∪ list_to_set (strip_one <$> l)).
Proof.
  revert acc. induction l as [| k l IH]; intros acc H; simpl.
  - f_equal. set_solver.
  - destruct (H k) as (s & -> & Hs); [apply list_elem_of_here |].
    rewrite (strip3_strip_one s Hs). simpl.
    rewrite IH by (intros k' Hk'; apply H; by apply list_elem_of_further).
    f_equal. set_solver.
Qed.

(** C3, as the code has it.  [get_user_unlocks(None)] is the empty set;
    for a user it is the union of [pack_info[p]] for the user's packs, of
    [pack_info[SINGLE_PACK_NAME]] intersected with the user's singles, of
    the world songs the user has with one trailing ['3'] removed from
    those that end in ['3'], and of [free_songs], as long as the empty
    string is not among those world songs. *)
Theorem get_user_unlocks_union (e : Env) (c : Catalogue) :
  SonglistParser.get_user_unlocks e c None = Ret ∅ /\
  forall u : User.t,
    KStr "" ∉ world_songs c ∩ list_to_set (KStr <$> User.world_songs u) ->
    SonglistParser.get_user_unlocks e c (Some u) = Ret (unlocks e c u).
Proof.
  split; [reflexivity |]. intros u Hne.
  unfold SonglistParser.get_user_unlocks, unlocks, unlocks_with.
  rewrite ofold_strip3.
  - simpl. f_equal. rewrite foldl_pack_union. unfold set_map.
    generalize (list_to_set (C := gset pykey)
                  (strip_one <$> elements
                     (world_songs c ∩ list_to_set (KStr <$> User.world_songs u)))).
    generalize (⋃ ((fun p => default ∅ (pack_info c !! KStr p)) <$> User.packs u)).
    generalize (list_to_set (C := gset pykey) (KStr <$> User.singles u)).
    intros S P W.
    destruct (pack_info c !! KStr (SINGLE_PACK_NAME e)); simpl; set_solver.
  - intros k Hk. apply elem_of_elements in Hk.
    assert (Hin : k ∈ (list_to_set (KStr <$> User.world_songs u) : gset pykey))
      by set_solver.
    apply elem_of_list_to_set, list_elem_of_fmap in Hin as (s & -> & _).
    exists s. split; [reflexivity |]. intros ->. by apply Hne.
Qed.

Lemma get_user_unlocks_union_sample :
  SonglistParser.get_user_unlocks (Sample.env None NoFile) Sample.beyond_catalogue None
  = Ret ∅ /\
  SonglistParser.get_user_unlocks (Sample.env None NoFile) Sample.beyond_catalogue
    (Some Sample.bob)
  = Ret (unlocks (Sample.env None NoFile) Sample.beyond_catalogue Sample.bob).
Proof.
  split.
  - apply (proj1 (get_user_unlocks_union (Sample.env None NoFile) Sample.beyond_catalogue)).
  - apply (proj2 (get_user_unlocks_union (Sample.env None NoFile) Sample.beyond_catalogue)).
    apply (bool_decide_unpack _). vm_compute. exact I.
Defined.

(** C3 as stated fails: of the world song a33 the code keeps a3, where
    [rstrip('3')] gives a. *)
Lemma get_user_unlocks_strips_one :
  world_songs Sample.beyond_catalogue = {[ KStr "a33" ]} /\
  (exists r, SonglistParser.get_user_unlocks (Sample.env None NoFile)
               Sample.beyond_catalogue (Some Sample.bob) = Ret r /\
             elements r = [KStr "a3"]) /\
  KStr "a" ∈ spec_unlocks (Sample.env None NoFile) Sample.beyond_catalogue Sample.bob /\
  SonglistParser.get_user_unlocks (Sample.env None NoFile)
    Sample.beyond_catalogue (Some Sample.bob)
  <> Ret (spec_unlocks (Sample.env None NoFile) Sample.beyond_catalogue Sample.bob).
Proof.
  assert (Hin : KStr "a" ∈ spec_unlocks (Sample.env None NoFile)
                  Sample.beyond_catalogue Sample.bob).
  { apply (bool_decide_unpack _). by vm_compute. }
  split; [by vm_compute |]. split; [| split; [exact Hin |]].
  - eexists. split; [reflexivity |]. by vm_compute.
  - intros H.
    assert (Hrun : exists r,
      SonglistParser.get_user_unlocks (Sample.env None NoFile)
        Sample.beyond_catalogue (Some Sample.bob) = Ret r /\ KStr "a" ∉ r).
    { eexists. split; [reflexivity |]. apply (bool_decide_unpack _). by vm_compute. }
    destruct Hrun as (r & Hr & Hno). rewrite Hr in H.
    apply Ret_inj in H. subst r. by apply Hno.
Qed.

(** ** What a computation leaves alone *)

Section Preserves.

Context {X : Type} (f : World -> X).

Lemma preserves_ret {A : Type} (a : A) : preserves f (ret a).
Proof. by intros w. Qed.

Lemma preserves_raise {A : Type} (x : exn) : preserves f (raise (A := A) x).
Proof. by intros w. Qed.

Lemma preserves_lift {A : Type} (o : outcome A) : preserves f (lift o).
Proof. by intros w. Qed.

Lemma preserves_gets {A : Type} (g : World -> A) : preserves f (gets g).
Proof. by intros w. Qed.

Lemma preserves_modify (g : World -> World) :
  (forall w, f (g w) = f w) -> preserves f (modify g).
Proof. intros H w. apply H. Qed.

Lemma preserves_bind {A B : Type} (m : M A) (k : A -> M B) :
  preserves f m -> (forall a, preserves f (k a)) -> preserves f (bind m k).
Proof.
  intros Hm Hk w. unfold bind. specialize (Hm w).
  destruct (m w) as [[a | x] w1]; simpl in *; [| done].
  by rewrite Hk.
Qed.

Lemma preserves_for_each {B : Type} (l : list B) (body : B -> M unit) :
  (forall x, preserves f (body x)) -> preserves f (for_each l body).
Proof.
  intros H. induction l as [| x l IH]; simpl.
  - apply preserves_ret.
  - apply preserves_bind; [apply H | by intros _].
Qed.

Lemma preserves_fold_each {A B : Type} (l : list B) (body : A -> B -> M A) (acc : A) :
  (forall a x, preserves f (body a x)) -> preserves f (fold_each l body acc).
Proof.
  intros H. revert acc. induction l as [| x l IH]; intros acc; simpl.
  - apply preserves_ret.
  - apply preserves_bind; [apply H | apply IH].
Qed.

End Preserves.

(** Invert a run that returned: one hypothesis per step. *)
Ltac minv :=
  repeat match goal with
  | H : bind _ _ _ = (Ret _, _) |- _ =>
      let a := fresh "a" in let w := fresh "w" in let H1 := fresh "H" in
      apply bind_ret_inv in H as (a & w & H1 & H)
  | H : ret _ _ = (Ret _, _) |- _ => unfold ret in H; injection H as ? ?; subst
  | H : raise _ _ = (Ret _, _) |- _ => discriminate H
  | H : (Raise _, _) = (Ret _, _) |- _ => discriminate H
  | H : (Ret _, _) = (Ret _, _) |- _ => injection H as ? ?; subst
  | H : (match ?x with _ => _ end) _ = (Ret _, _) |- _ => destruct x eqn:?
  end.

Lemma fold_each_invariant {A B : Type} (P : A -> Prop) (l : list B)
  (body : A -> B -> M A) (acc : A) w a w' :
  (forall acc x w a w', P acc -> body acc x w = (Ret a, w') -> P a) ->
  P acc -> fold_each l body acc w = (Ret a, w') -> P a.
Proof.
  intros Hstep. revert acc w. induction l as [| x l IH]; intros acc w Hacc H; simpl in H.
  - by minv.
  - minv. eapply IH; [| eassumption]. eauto.
Qed.

Lemma preserves_fold_each_inv {X A B : Type} (f : World -> X) (P : A -> Prop)
  (l : list B) (body : A -> B -> M A) (acc : A) :
  (forall a x, P a -> preserves f (body a x)) ->
  (forall acc x w a w', P acc -> body acc x w = (Ret a, w') -> P a) ->
  P acc -> preserves f (fold_each l body acc).
Proof.
  intros Hf Hstep. revert acc. induction l as [| x l IH]; intros acc Hacc; simpl.
  - apply preserves_ret.
  - intros w. unfold bind. pose proof (Hf acc x Hacc w) as Hw.
    destruct (body acc x w) as [[a | ex] w1] eqn:E; simpl in *; [| done].
    rewrite IH; [done |]. eauto.
Qed.

Lemma preserves_bind_post {X A B : Type} (f : World -> X) (Q : A -> Prop)
  (m : M A) (k : A -> M B) :
  preserves f m ->
  (forall w a w', m w = (Ret a, w') -> Q a) ->
  (forall a, Q a -> preserves f (k a)) ->
  preserves f (bind m k).
Proof.
  intros Hm HQ Hk w. unfold bind. specialize (Hm w). specialize (HQ w).
  destruct (m w) as [[a | x] w1]; simpl in *; [| done].
  rewrite Hk; eauto.
Qed.

Create HintDb frame.

#[local] Hint Resolve preserves_ret preserves_raise preserves_lift preserves_gets : frame.

(** One step of a frame proof: split a bind or a loop, or case on what
    the computation branches on. *)
Ltac frame_step :=
  first
    [ solve [auto with frame nocore]
    | apply preserves_bind; [| intros ?]
    | apply preserves_for_each; intros ?
    | apply preserves_fold_each; intros ? ?
    | match goal with
      | |- preserves _ (match ?x with _ => _ end) => destruct x
      | |- preserves _ (if ?b then _ else _) => destruct b
      end ].

Ltac frame := cbv zeta; repeat frame_step.

(** ** Building the manifest without URLs *)

Lemma add_file_downloads e u s acc i w acc' w' :
  DownloadList.add_file e u false s acc i w = (Ret acc', w') ->
  exists x, snd acc' = (snd acc ++ [x])%list /\
            UserDownload.token x = None /\ UserDownload.token_time x = None.
Proof.
  unfold DownloadList.add_file, DownloadList.checksum_and_url. intros H.
  repeat match type of H with
         | (if ?b then _ else _) _ = _ => destruct b
         end; minv; eexists; (split; [reflexivity | done]).
Qed.

Lemma add_one_song_no_token e self song_id w self' w' :
  DownloadList.url_flag_set self = false ->
  DownloadList.add_one_song e self song_id w = (Ret self', w') ->
  DownloadList.url_flag self' = DownloadList.url_flag self /\
  forall old, fresh_without_token old (DownloadList.downloads self) ->
              fresh_without_token old (DownloadList.downloads self').
Proof.
  intros Hflag H. unfold DownloadList.add_one_song in H. rewrite Hflag in H. minv.
  simpl. split; [reflexivity |]. intros old Hold.
  match goal with
  | H : fold_each _ _ _ _ = _ |- _ =>
      revert H; apply (fold_each_invariant (fun acc => fresh_without_token old (snd acc)))
  end; [| exact Hold].
  intros acc x w1 acc1 w2 Hacc Hrun.
  apply add_file_downloads in Hrun as (d & -> & Ht & Htt).
  intros y Hy. apply elem_of_app in Hy as [Hy | Hy]; [by apply Hacc |].
  apply list_elem_of_singleton in Hy as ->. by right.
Qed.

Lemma add_one_song_no_url_inv e old s song_id w s' w' :
  no_url_inv old s ->
  DownloadList.add_one_song e s song_id w = (Ret s', w') ->
  no_url_inv old s'.
Proof.
  intros [Hflag Hold] H.
  destruct (add_one_song_no_token e s song_id w s' w' Hflag H) as [Hf Hd].
  split; [| by apply Hd].
  unfold DownloadList.url_flag_set in *. by rewrite Hf.
Qed.

Lemma present_song_no_url_inv e old s i w s' w' :
  no_url_inv old s ->
  match song_dir_of e i with
  | Some _ => DownloadList.add_one_song e s i
  | None => ret s
  end w = (Ret s', w') ->
  no_url_inv old s'.
Proof.
  intros Hs H. destruct (song_dir_of e i).
  - by eapply add_one_song_no_url_inv.
  - by minv.
Qed.

(** The loops of [add_songs] keep [no_url_inv]. *)
Ltac add_songs_loops old self0 H0 :=
  match goal with
  | H : fold_each _ _ _ _ = _ |- _ =>
      revert H; apply (fold_each_invariant (no_url_inv old))
  end;
  [ intros ? ? ? ? ? ? ?;
    first [ by eapply add_one_song_no_url_inv | by eapply present_song_no_url_inv ]
  | by destruct H0 ].

Lemma add_songs_no_url_inv e self arg w self' w' :
  DownloadList.url_flag_set self = false ->
  DownloadList.add_songs e self arg w = (Ret self', w') ->
  no_url_inv (DownloadList.downloads self) self'.
Proof.
  intros Hflag H. unfold DownloadList.add_songs in H.
  set (self0 := match arg with
                | Some l => DownloadList.with_song_ids self (Some l)
                | None => self
                end) in H.
  assert (H0 : no_url_inv (DownloadList.downloads self) self0).
  { split; [by destruct arg | destruct arg; by left]. }
  clearbody self0.
  apply bind_ret_inv in H as (s & w1 & Hloop & H).
  assert (Hs : no_url_inv (DownloadList.downloads self) s).
  { destruct (DownloadList.song_ids self0) as [[| i ids] |]; minv;
      add_songs_loops (DownloadList.downloads self) self0 H0. }
  destruct Hs as [Hs Hd]. rewrite Hs in H. unfold ret in H.
  injection H as <- <-. by split.
Qed.

(** The song cache, the memoisation caches and the clock are the only
    parts of the state the cache layer writes: every other component, as
    seen through [f], is left alone. *)
Section CacheFrame.

Context {X : Type} (f : World -> X).
Hypothesis f_cache : forall g w, f (set_cache g w) = f w.
Hypothesis f_md5 : forall g w, f (set_memo (with_md5_cached g) w) = f w.
Hypothesis f_names : forall g w, f (set_memo (with_names_cached g) w) = f w.
Hypothesis f_ids : forall g w, f (set_memo (with_ids_cached g) w) = f w.
Hypothesis f_clock : forall e w, f (snd (now e w)) = f w.
Hypothesis f_entropy : forall e w, f (snd (os_urandom e w)) = f w.
Hypothesis f_tokens : forall g w, f (set_download_token g w) = f w.

Lemma set_cache_preserves g : preserves f (modify (set_cache g)).
Proof. apply preserves_modify, f_cache. Qed.

Lemma md5_cached_preserves g : preserves f (modify (set_memo (with_md5_cached g))).
Proof. apply preserves_modify, f_md5. Qed.

Lemma names_cached_preserves g : preserves f (modify (set_memo (with_names_cached g))).
Proof. apply preserves_modify, f_names. Qed.

Lemma ids_cached_preserves g : preserves f (modify (set_memo (with_ids_cached g))).
Proof. apply preserves_modify, f_ids. Qed.

Lemma os_urandom_preserves e : preserves f (os_urandom e).
Proof. intros w. apply f_entropy. Qed.

Lemma now_preserves e : preserves f (now e).
Proof. intros w. apply f_clock. Qed.

#[local] Hint Resolve set_cache_preserves md5_cached_preserves names_cached_preserves
  ids_cached_preserves now_preserves os_urandom_preserves : frame.

Lemma _delete_song_preserves song_id : preserves f (SongFileCache._delete_song song_id).
Proof. unfold SongFileCache._delete_song, SongFileCache.ensure_schema. frame. Qed.

Lemma _delete_file_preserves song_id file_name :
  preserves f (SongFileCache._delete_file song_id file_name).
Proof. unfold SongFileCache._delete_file, SongFileCache.ensure_schema. frame. Qed.

#[local] Hint Resolve _delete_song_preserves _delete_file_preserves : frame.

Lemma sync_file_preserves e song_id t file_name :
  preserves f (SongFileCache.sync_file e song_id t file_name).
Proof. unfold SongFileCache.sync_file. frame. Qed.

#[local] Hint Resolve sync_file_preserves : frame.

Lemma sync_song_preserves e song_id m : preserves f (SongFileCache.sync_song e song_id m).
Proof. unfold SongFileCache.sync_song, SongFileCache.ensure_schema. frame. Qed.

#[local] Hint Resolve sync_song_preserves : frame.

Lemma sync_all_preserves e : preserves f (SongFileCache.sync_all e).
Proof. unfold SongFileCache.sync_all, SongFileCache.ensure_schema. frame. Qed.

#[local] Hint Resolve sync_all_preserves : frame.

Lemma cache_get_all_song_ids_preserves e m :
  preserves f (SongFileCache.get_all_song_ids e m).
Proof. unfold SongFileCache.get_all_song_ids, SongFileCache.ensure_schema. frame. Qed.

Lemma cache_get_song_file_names_preserves e song_id m :
  preserves f (SongFileCache.get_song_file_names e song_id m).
Proof. unfold SongFileCache.get_song_file_names, SongFileCache.ensure_schema. frame. Qed.

Lemma cache_get_song_file_md5_preserves e song_id file_name m sz :
  preserves f (SongFileCache.get_song_file_md5 e song_id file_name m sz).
Proof. unfold SongFileCache.get_song_file_md5, SongFileCache.ensure_schema. frame. Qed.

#[local] Hint Resolve cache_get_all_song_ids_preserves
  cache_get_song_file_names_preserves cache_get_song_file_md5_preserves : frame.

Lemma get_song_file_md5_preserves e song_id file_name :
  preserves f (get_song_file_md5 e song_id file_name).
Proof. unfold get_song_file_md5, _get_song_file_md5_cached. frame. Qed.

Lemma get_one_song_file_names_preserves e song_id :
  preserves f (DownloadList.get_one_song_file_names e song_id).
Proof.
  unfold DownloadList.get_one_song_file_names, DownloadList._get_cached_song_file_names.
  frame.
Qed.

Lemma get_all_song_ids_preserves e : preserves f (DownloadList.get_all_song_ids e).
Proof.
  unfold DownloadList.get_all_song_ids, DownloadList._get_all_cached_song_ids. frame.
Qed.

#[local] Hint Resolve get_song_file_md5_preserves get_one_song_file_names_preserves
  get_all_song_ids_preserves : frame.

Lemma hash_preserves e x : preserves f (UserDownload.hash e x).
Proof. unfold UserDownload.hash. frame. Qed.

#[local] Hint Resolve hash_preserves : frame.

(** Without URLs, building the manifest stays within the cache layer. *)
Lemma add_file_preserves e u song_id acc i :
  preserves f (DownloadList.add_file e u false song_id acc i).
Proof. unfold DownloadList.add_file, DownloadList.checksum_and_url. frame. Qed.

#[local] Hint Resolve add_file_preserves : frame.

Lemma add_one_song_preserves e self song_id :
  DownloadList.url_flag_set self = false ->
  preserves f (DownloadList.add_one_song e self song_id).
Proof. intros H. unfold DownloadList.add_one_song. rewrite H. frame. Qed.

#[local] Hint Resolve add_one_song_preserves : frame.

Lemma add_songs_preserves e self arg :
  DownloadList.url_flag_set self = false ->
  preserves f (DownloadList.add_songs e self arg).
Proof.
  intros Hflag. unfold DownloadList.add_songs.
  set (self0 := match arg with
                | Some l => DownloadList.with_song_ids self (Some l)
                | None => self
                end).
  assert (H0 : no_url_inv (DownloadList.downloads self0) self0).
  { split; [by destruct arg | by left]. }
  generalize dependent self0. intros self0 H0.
  apply (preserves_bind_post f (no_url_inv (DownloadList.downloads self0))).
  - destruct (DownloadList.song_ids self0) as [[| i ids] |].
    all: repeat (apply preserves_bind; [frame | intros ?]).
    all: apply (preserves_fold_each_inv f (no_url_inv (DownloadList.downloads self0)));
      [ | | by destruct H0 ].
    all: try (intros s i' [Hs _]; try destruct (song_dir_of e i');
              first [ by apply add_one_song_preserves | apply preserves_ret ]).
    all: intros s i' w s' w' Hs Hrun;
      first [ by eapply add_one_song_no_url_inv | by eapply present_song_no_url_inv ].
  - intros w s w' H.
    destruct (DownloadList.song_ids self0) as [[| i ids] |]; minv;
      add_songs_loops (DownloadList.downloads self0) self0 H0.
  - intros s [Hs _]. rewrite Hs. apply preserves_ret.
Qed.

(** With URLs, tokens are generated from the clock and [os.urandom], and
    stored in [download_token] at the end. *)
Lemma url_preserves e x : preserves f (UserDownload.url e x).
Proof. unfold UserDownload.url, UserDownload.generate_token. frame. Qed.

#[local] Hint Resolve url_preserves : frame.

Lemma add_file_preserves_url e u with_url song_id acc i :
  preserves f (DownloadList.add_file e u with_url song_id acc i).
Proof. unfold DownloadList.add_file, DownloadList.checksum_and_url. frame. Qed.

#[local] Hint Resolve add_file_preserves_url : frame.

Lemma add_one_song_preserves_url e self song_id :
  preserves f (DownloadList.add_one_song e self song_id).
Proof. unfold DownloadList.add_one_song. frame. Qed.

Lemma token_table_preserves g : preserves f (modify (set_download_token g)).
Proof. apply preserves_modify, f_tokens. Qed.

#[local] Hint Resolve token_table_preserves : frame.

Lemma clear_download_token_preserves e : preserves f (DownloadList.clear_download_token e).
Proof. unfold DownloadList.clear_download_token. frame. Qed.

Lemma insert_download_tokens_preserves self :
  preserves f (DownloadList.insert_download_tokens self).
Proof. unfold DownloadList.insert_download_tokens. frame. Qed.

End CacheFrame.

(** C9.  A call to [add_songs] whose [url_flag] is falsy leaves the table
    [download_token] as it found it, whether it returns or raises: no
    expired row is pruned and no row is inserted or replaced.  It does not
    call [os.urandom], so it generates no token, and the downloads it adds
    to [self.downloads] have neither a token nor a token time. *)
Theorem add_songs_without_urls (e : Env) (self : DownloadList.t)
  (song_ids : option (list string)) (w : World) :
  DownloadList.url_flag_set self = false ->
  download_token (snd (DownloadList.add_songs e self song_ids w)) = download_token w /\
  entropy_reads (snd (DownloadList.add_songs e self song_ids w)) = entropy_reads w /\
  forall self',
    fst (DownloadList.add_songs e self song_ids w) = Ret self' ->
    fresh_without_token (DownloadList.downloads self) (DownloadList.downloads self').
Proof.
  intros Hflag. split; [| split].
  - by apply (add_songs_preserves download_token).
  - by apply (add_songs_preserves entropy_reads).
  - intros self' H.
    destruct (DownloadList.add_songs e self song_ids w) as [o w'] eqn:E.
    simpl in H. subst o.
    by destruct (add_songs_no_url_inv e self song_ids w self' w' Hflag E).
Qed.

(** The sample call without URLs: the token table stays empty. *)
Lemma add_songs_without_urls_sample :
  download_token
    (snd (DownloadList.add_songs (Sample.env (Some Sample.tree) NoFile)
            (DownloadList.init (Some Sample.alice)) None Sample.fresh))
  = download_token Sample.fresh /\
  entropy_reads
    (snd (DownloadList.add_songs (Sample.env (Some Sample.tree) NoFile)
            (DownloadList.init (Some Sample.alice)) None Sample.fresh))
  = entropy_reads Sample.fresh /\
  forall self',
    fst (DownloadList.add_songs (Sample.env (Some Sample.tree) NoFile)
           (DownloadList.init (Some Sample.alice)) None Sample.fresh) = Ret self' ->
    fresh_without_token (DownloadList.downloads (DownloadList.init (Some Sample.alice)))
      (DownloadList.downloads self').
Proof.
  apply (add_songs_without_urls (Sample.env (Some Sample.tree) NoFile)
           (DownloadList.init (Some Sample.alice)) None Sample.fresh).
  reflexivity.
Defined.

(** ** Computations that do not raise *)

Lemma returns_ret {A : Type} (a : A) : returns (ret a).
Proof. intros w. by exists a. Qed.

Lemma returns_gets {A : Type} (g : World -> A) : returns (gets g).
Proof. intros w. by eexists. Qed.

Lemma returns_modify (g : World -> World) : returns (modify g).
Proof. intros w. by eexists. Qed.

Lemma returns_now (e : Env) : returns (now e).
Proof. intros w. by eexists. Qed.

Lemma returns_os_urandom (e : Env) : returns (os_urandom e).
Proof. intros w. by eexists. Qed.

Lemma returns_bind {A B : Type} (m : M A) (k : A -> M B) :
  returns m -> (forall a, returns (k a)) -> returns (bind m k).
Proof.
  intros Hm Hk w. unfold bind. destruct (Hm w) as [a Ha].
  destruct (m w) as [o w1]. simpl in Ha. subst o. apply Hk.
Qed.

Lemma returns_run {A : Type} (m : M A) (w : World) :
  returns m -> exists a w', m w = (Ret a, w').
Proof.
  intros H. destruct (H w) as [a Ha]. destruct (m w) as [o w'].
  simpl in Ha. subst o. eauto.
Qed.

Create HintDb returns.

#[local] Hint Resolve returns_ret returns_gets returns_modify returns_now
  returns_os_urandom : returns.

Ltac returns_step :=
  first
    [ solve [auto with returns nocore]
    | apply returns_bind; [| intros ?]
    | match goal with
      | |- returns (match ?x with _ => _ end) => destruct x
      | |- returns (if ?b then _ else _) => destruct b
      end ].

Ltac returns_all := cbv zeta; repeat returns_step.

Lemma _delete_file_returns song_id file_name :
  returns (SongFileCache._delete_file song_id file_name).
Proof. unfold SongFileCache._delete_file, SongFileCache.ensure_schema. returns_all. Qed.

#[local] Hint Resolve _delete_file_returns : returns.

Lemma cache_get_song_file_md5_returns e song_id file_name m sz :
  returns (SongFileCache.get_song_file_md5 e song_id file_name m sz).
Proof.
  unfold SongFileCache.get_song_file_md5, SongFileCache.ensure_schema. returns_all.
Qed.

#[local] Hint Resolve cache_get_song_file_md5_returns : returns.

Lemma get_song_file_md5_returns e song_id file_name :
  returns (get_song_file_md5 e song_id file_name).
Proof. unfold get_song_file_md5, _get_song_file_md5_cached. returns_all. Qed.

#[local] Hint Resolve get_song_file_md5_returns : returns.

Lemma checksum_and_url_returns e with_url u song_id i :
  (with_url = true -> is_Some u) ->
  returns (DownloadList.checksum_and_url e with_url (new_download u song_id i)).
Proof.
  intros Hu. unfold DownloadList.checksum_and_url, UserDownload.hash,
    UserDownload.url, UserDownload.generate_token. simpl.
  destruct with_url; [destruct (Hu eq_refl) as [x ->] |]; returns_all.
Qed.

Lemma assoc_dict_set_eq {V : Type} (k : string) (v : V) (l : list (string * V)) :
  assoc k (dict_set k v l) = Some v.
Proof.
  induction l as [| [k' v'] l IH]; simpl.
  - by rewrite String.eqb_refl.
  - destruct (String.eqb k k') eqn:E; simpl; rewrite E; [done | exact IH].
Qed.

Lemma assoc_dict_set_ne {V : Type} (k k' : string) (v : V) (l : list (string * V)) :
  k <> k' -> assoc k' (dict_set k v l) = assoc k' l.
Proof.
  intros Hne. induction l as [| [k0 v0] l IH]; simpl.
  - by rewrite (proj2 (String.eqb_neq k' k)).
  - destruct (String.eqb k k0) eqn:E; simpl.
    + apply String.eqb_eq in E as <-. by rewrite (proj2 (String.eqb_neq k' k)).
    + by rewrite IH.
Qed.

Lemma assoc_ensure_key_ne (k k' : string) (v : json) (re : list (string * json)) :
  k <> k' -> assoc k' (DownloadList.ensure_key k v re) = assoc k' re.
Proof.
  intros Hne. unfold DownloadList.ensure_key.
  destruct (assoc k re); [done | by apply assoc_dict_set_ne].
Qed.

Lemma assoc_set_inner_ne (k k' inner : string) (v : json) (re : list (string * json)) :
  k <> k' -> assoc k' (DownloadList.set_inner k inner v re) = assoc k' re.
Proof.
  intros Hne. unfold DownloadList.set_inner.
  destruct (assoc k re) as [[] |]; try done. by apply assoc_dict_set_ne.
Qed.

Lemma assoc_append_inner_ne (k k' : string) (v : json) (re : list (string * json)) :
  k <> k' -> assoc k' (DownloadList.append_inner k v re) = assoc k' re.
Proof.
  intros Hne. unfold DownloadList.append_inner.
  destruct (assoc k re) as [[] |]; try done. by apply assoc_dict_set_ne.
Qed.

Lemma add_file_audio e u with_url song_id acc i w :
  i <> "base.ogg" -> i <> "" -> (with_url = true -> is_Some u) ->
  audio_without_checksum (fst acc) ->
  exists acc' w',
    DownloadList.add_file e u with_url song_id acc i w = (Ret acc', w') /\
    audio_without_checksum (fst acc') /\
    (audio_has_3 (fst acc) -> audio_has_3 (fst acc')) /\
    (i = "3.ogg" -> audio_has_3 (fst acc')).
Proof.
  intros Hbase Hne Hu Hok. unfold DownloadList.add_file.
  rewrite (proj2 (String.eqb_neq i "base.ogg") Hbase).
  fold (new_download u song_id i).
  destruct (returns_run _ w (checksum_and_url_returns e with_url u song_id i Hu))
    as ([d x] & w' & Hrun).
  destruct (String.eqb i "3.ogg") eqn:E3.
  { rewrite (bind_run _ _ _ _ _ Hrun). unfold ret. do 2 eexists. split; [reflexivity |].
    simpl. unfold audio_without_checksum, audio_has_3, DownloadList.set_inner,
      DownloadList.ensure_key in *.
    destruct (assoc "audio" acc.1) as [[] |] eqn:Ea; try done.
    - rewrite Ea, !assoc_dict_set_eq. rewrite assoc_dict_set_ne by done.
      split; [done |]. split; intros _; do 2 eexists;
        (split; [reflexivity | apply assoc_dict_set_eq]).
    - rewrite !assoc_dict_set_eq. simpl.
      split; [done |]. split; intros _; do 2 eexists; (split; [reflexivity | done]). }
  destruct (mem i ["video.mp4"; "video_audio.ogg"; "video_720.mp4"; "video_1080.mp4"]).
  { rewrite (bind_run _ _ _ _ _ Hrun). unfold ret. do 2 eexists. split; [reflexivity |].
    simpl. unfold audio_without_checksum, audio_has_3 in *.
    rewrite assoc_append_inner_ne, assoc_ensure_key_ne by done.
    split; [done |]. split; [done |]. intros ->. done. }
  rewrite (bind_run _ _ _ _ _ Hrun). destruct i as [| c i]; [done |].
  unfold ret. do 2 eexists. split; [reflexivity |].
  simpl. unfold audio_without_checksum, audio_has_3 in *.
  rewrite assoc_set_inner_ne, assoc_ensure_key_ne by done.
  split; [done |]. split; [done |]. intros Heq. rewrite Heq in E3. done.
Qed.

Lemma fold_add_file_audio e u with_url song_id names acc w :
  "base.ogg" ∉ names -> "" ∉ names -> (with_url = true -> is_Some u) ->
  audio_without_checksum (fst acc) ->
  exists acc' w',
    fold_each names (DownloadList.add_file e u with_url song_id) acc w = (Ret acc', w') /\
    audio_without_checksum (fst acc') /\
    (audio_has_3 (fst acc) \/ "3.ogg" ∈ names -> audio_has_3 (fst acc')).
Proof.
  intros Hbase Hne Hu. revert acc w.
  induction names as [| i names IH]; intros acc w Hok; simpl.
  - exists acc, w. split; [reflexivity |]. split; [done |].
    intros [H | H]; [done | by apply elem_of_nil in H].
  - apply not_elem_of_cons in Hbase as [Hb Hbase].
    apply not_elem_of_cons in Hne as [Hn Hne].
    destruct (add_file_audio e u with_url song_id acc i w) as (acc1 & w1 & Hrun & Hok1 & H3 & Hi);
      [done | done | done | done |].
    destruct (IH Hbase Hne acc1 w1 Hok1) as (acc' & w' & Hfold & Hok' & H3').
    exists acc', w'. rewrite (bind_run _ _ _ _ _ Hrun). split; [exact Hfold |].
    split; [exact Hok' |]. intros [H | H]; apply H3'.
    + left. by apply H3.
    + apply elem_of_cons in H as [<- | H]; [left; by apply Hi | by right].
Qed.

(** C10.  For a song whose legal file list holds 3.ogg and not base.ogg,
    [add_one_song] returns, and the entry it stores in the manifest has an
    ["audio"] object with the key ["3"] and without ["checksum"]. *)
Theorem add_one_song_audio_without_checksum (e : Env) (self : DownloadList.t)
  (song_id : string) (w w1 : World) (names : list string) :
  DownloadList.get_one_song_file_names e song_id w = (Ret names, w1) ->
  "3.ogg" ∈ names -> "base.ogg" ∉ names -> "" ∉ names ->
  (DownloadList.url_flag_set self = true -> is_Some (DownloadList.user self)) ->
  exists self' w' re audio entry,
    DownloadList.add_one_song e self song_id w = (Ret self', w') /\
    assoc song_id (DownloadList.urls self') = Some (JObj re) /\
    assoc "audio" re = Some (JObj audio) /\
    assoc "3" audio = Some entry /\
    assoc "checksum" audio = None.
Proof.
  intros Hnames H3 Hbase Hne Hu. unfold DownloadList.add_one_song.
  rewrite (bind_run _ _ _ _ _ Hnames).
  destruct (fold_add_file_audio e (DownloadList.user self) (DownloadList.url_flag_set self)
              song_id names ([], DownloadList.downloads self) w1)
    as ([re dl] & w' & Hfold & Hok & Hhas); [done | done | done | done |].
  rewrite (bind_run _ _ _ _ _ Hfold). unfold ret. simpl in *.
  destruct Hhas as (audio & entry & Ha & H3'); [by right |].
  unfold audio_without_checksum in Hok. rewrite Ha in Hok.
  do 5 eexists. split; [reflexivity |]. simpl.
  rewrite assoc_dict_set_eq. eauto.
Qed.

(** The song b of the sample tree has 3.aff and 3.ogg only. *)
Lemma add_one_song_audio_without_checksum_sample :
  exists self' w' re audio entry,
    DownloadList.add_one_song (Sample.env (Some Sample.tree) NoFile)
      (DownloadList.init (Some Sample.alice)) "b" Sample.fresh = (Ret self', w') /\
    assoc "b" (DownloadList.urls self') = Some (JObj re) /\
    assoc "audio" re = Some (JObj audio) /\
    assoc "3" audio = Some entry /\
    assoc "checksum" audio = None.
Proof.
  apply (add_one_song_audio_without_checksum (Sample.env (Some Sample.tree) NoFile)
           (DownloadList.init (Some Sample.alice)) "b" Sample.fresh
           (snd (DownloadList.get_one_song_file_names
                   (Sample.env (Some Sample.tree) NoFile) "b" Sample.fresh))
           ["3.aff"; "3.ogg"]).
  - vm_compute. reflexivity.
  - apply (bool_decide_unpack _). vm_compute. exact I.
  - apply (bool_decide_unpack _). vm_compute. exact I.
  - apply (bool_decide_unpack _). vm_compute. exact I.
  - intros H. vm_compute in H. discriminate H.
Defined.

(** ** Scanning the tree twice *)

Lemma returns_for_each {B : Type} (l : list B) (body : B -> M unit) :
  (forall x, returns (body x)) -> returns (for_each l body).
Proof.
  intros H. induction l as [| x l IH]; simpl.
  - apply returns_ret.
  - apply returns_bind; [apply H | by intros _].
Qed.

Lemma _delete_song_returns song_id : returns (SongFileCache._delete_song song_id).
Proof. unfold SongFileCache._delete_song, SongFileCache.ensure_schema. returns_all. Qed.

#[local] Hint Resolve _delete_song_returns _delete_file_returns : returns.

Lemma sync_file_returns e song_id t file_name :
  returns (SongFileCache.sync_file e song_id t file_name).
Proof. unfold SongFileCache.sync_file. returns_all. Qed.

#[local] Hint Resolve sync_file_returns : returns.

Lemma sync_song_returns e song_id m : returns (SongFileCache.sync_song e song_id m).
Proof.
  unfold SongFileCache.sync_song, SongFileCache.ensure_schema.
  repeat first [ returns_step | apply returns_for_each; intros ? ].
Qed.

(** Writing [files] leaves [songs] alone. *)
Lemma with_files_songs g : preserves songs_of (modify (set_cache (with_files g))).
Proof. by apply preserves_modify. Qed.

#[local] Hint Resolve with_files_songs : frame.

Lemma sync_file_songs e song_id t file_name :
  preserves songs_of (SongFileCache.sync_file e song_id t file_name).
Proof.
  unfold SongFileCache.sync_file, SongFileCache._delete_file, SongFileCache.ensure_schema.
  frame.
Qed.

#[local] Hint Resolve sync_file_songs : frame.

Lemma bind_now {B : Type} e (k : Z -> M B) w :
  bind (now e) k w = k (time e (clock_reads w)) (snd (now e w)).
Proof. reflexivity. Qed.

Lemma bind_modify {B : Type} g (k : unit -> M B) w : bind (modify g) k w = k tt (g w).
Proof. reflexivity. Qed.

Lemma bind_gets {A B : Type} (g : World -> A) (k : A -> M B) w :
  bind (gets g) k w = k (g w) w.
Proof. reflexivity. Qed.

Lemma bind_ret {A B : Type} (a : A) (k : A -> M B) w : bind (ret a) k w = k a w.
Proof. reflexivity. Qed.

(** What [sync_song] does to the table [songs] when the directory is
    there. *)
Lemma sync_song_songs e song_id m w d :
  song_dir_of e song_id = Some d ->
  songs_of (snd (SongFileCache.sync_song e song_id (Some m) w))
  = match songs_of w !! song_id with
    | Some r =>
        if Z.eqb (row_dir_mtime_ns r) m then songs_of w
        else <[ song_id := SongRow m (time e (clock_reads w)) ]> (songs_of w)
    | None => <[ song_id := SongRow m (time e (clock_reads w)) ]> (songs_of w)
    end.
Proof.
  intros Hd. unfold SongFileCache.sync_song, SongFileCache.ensure_schema.
  rewrite Hd, bind_ret, bind_gets.
  change (default (dir_mtime_ns d) (Some m)) with m. fold (songs_of w).
  assert (Hstale :
    songs_of (snd ((let* now := now e in
       modify (set_cache (with_songs (<[ song_id := SongRow m now ]>))) ;;
       let* c := gets cat in
       match SongFileCache.scan_song_dir c song_id d with
       | [] =>
           modify (set_cache (with_files
             (delete_files_where (fun s _ => String.eqb s song_id))))
       | _ :: _ =>
           modify (set_cache (with_files
             (delete_files_where
                (fun s f => String.eqb s song_id
                            && negb (mem f (SongFileCache.scan_song_dir c song_id d)))))) ;;
           for_each (SongFileCache.scan_song_dir c song_id d)
             (SongFileCache.sync_file e song_id now)
       end) w))
    = <[ song_id := SongRow m (time e (clock_reads w)) ]> (songs_of w)).
  { rewrite bind_now, bind_modify.
    match goal with
    | |- songs_of (snd (?t ?w0)) = _ =>
        assert (Hp : preserves songs_of t) by frame; rewrite (Hp w0)
    end.
    reflexivity. }
  destruct (songs_of w !! song_id) as [r |]; [| exact Hstale].
  destruct (Z.eqb (row_dir_mtime_ns r) m); [reflexivity | exact Hstale].
Qed.

Lemma sync_song_row_current e song_id w d :
  song_dir_of e song_id = Some d ->
  row_current e (snd (SongFileCache.sync_song e song_id (Some (dir_mtime_ns d)) w)) song_id.
Proof.
  intros Hd. exists d. unfold row_current.
  change (tbl_songs (cache ?w)) with (songs_of w).
  rewrite (sync_song_songs e song_id _ w d Hd).
  destruct (songs_of w !! song_id) as [r |] eqn:Hr.
  - destruct (Z.eqb_spec (row_dir_mtime_ns r) (dir_mtime_ns d)).
    + by exists r.
    + eexists. rewrite lookup_insert_eq. done.
  - eexists. rewrite lookup_insert_eq. done.
Qed.

Lemma sync_song_other_row e song_id other w d m :
  song_dir_of e song_id = Some d -> other <> song_id ->
  songs_of (snd (SongFileCache.sync_song e song_id (Some m) w)) !! other
  = songs_of w !! other.
Proof.
  intros Hd Hne. rewrite (sync_song_songs e song_id _ w d Hd).
  destruct (songs_of w !! song_id) as [r |];
    [destruct (Z.eqb (row_dir_mtime_ns r) m) |]; try done;
    by rewrite lookup_insert_ne.
Qed.

Lemma sync_each_returns e song_id : returns (sync_each e song_id).
Proof.
  unfold sync_each. destruct (song_dir_of e song_id);
    [apply sync_song_returns | apply returns_ret].
Qed.

Lemma sync_each_row_current e song_id other w :
  (other = song_id /\ is_Some (song_dir_of e song_id)) \/ row_current e w other ->
  row_current e (snd (sync_each e song_id w)) other.
Proof.
  unfold sync_each. intros [[-> [d Hd]] | Hcur].
  - rewrite Hd. by apply sync_song_row_current.
  - destruct (song_dir_of e song_id) as [d |] eqn:Hd; [| exact Hcur].
    destruct (decide (other = song_id)) as [-> | Hne];
      [by apply sync_song_row_current |].
    destruct Hcur as (d' & r & Hd' & Hr & Hm). exists d', r.
    split; [done |]. split; [| done].
    change (tbl_songs (cache ?w)) with (songs_of w).
    by rewrite (sync_song_other_row e song_id other w d _ Hd Hne).
Qed.

Lemma for_each_sync_row_current e ids other w :
  (other ∈ ids /\ is_Some (song_dir_of e other)) \/ row_current e w other ->
  fst (for_each ids (sync_each e) w) = Ret tt /\
  row_current e (snd (for_each ids (sync_each e) w)) other.
Proof.
  revert w. induction ids as [| id ids IH]; intros w H; simpl.
  - split; [done |]. destruct H as [[H _] | H]; [by apply elem_of_nil in H | done].
  - destruct (returns_run _ w (sync_each_returns e id)) as ([] & w1 & Hrun).
    rewrite (bind_run _ _ _ _ _ Hrun). apply IH.
    assert (Hw1 : w1 = snd (sync_each e id w)) by (by rewrite Hrun). subst w1.
    destruct H as [[Hin Hd] | H].
    + apply elem_of_cons in Hin as [-> | Hin]; [| by left].
      right. apply sync_each_row_current. by left.
    + right. apply sync_each_row_current. by right.
Qed.

Lemma scan_root_is_dir e root id :
  SONG_FILE_FOLDER_PATH e = Some root ->
  id ∈ SongFileCache.scan_root root -> is_Some (song_dir_of e id).
Proof.
  intros Hroot Hin. unfold SongFileCache.scan_root in Hin.
  apply list_elem_of_In, in_map_iff in Hin as ([name x] & <- & Hin).
  apply filter_In in Hin as [Hin Hdir]. apply list_elem_of_In, elem_of_map_to_list in Hin.
  simpl in *. unfold song_dir_of. rewrite Hroot, Hin.
  destruct x; [eauto | done].
Qed.

Lemma sync_each_noop e id w :
  row_current e w id -> sync_each e id w = (Ret tt, w).
Proof.
  intros (d & r & Hd & Hr & Hm). unfold sync_each. rewrite Hd.
  unfold SongFileCache.sync_song, SongFileCache.ensure_schema.
  rewrite Hd, bind_ret, bind_gets, Hr.
  change (default (dir_mtime_ns d) (Some (dir_mtime_ns d))) with (dir_mtime_ns d).
  by rewrite Hm, Z.eqb_refl.
Qed.

Lemma for_each_sync_noop e ids w :
  (forall id, id ∈ ids -> row_current e w id) ->
  for_each ids (sync_each e) w = (Ret tt, w).
Proof.
  induction ids as [| id ids IH]; intros H; simpl; [done |].
  rewrite (bind_run _ _ _ _ _ (sync_each_noop e id w (H id (list_elem_of_here _ _)))).
  apply IH. intros id' Hin. apply H. by apply list_elem_of_further.
Qed.

Lemma sync_all_unfold e root w :
  SONG_FILE_FOLDER_PATH e = Some root ->
  SongFileCache.sync_all e w
  = (for_each (SongFileCache.scan_root root) (sync_each e) ;;
     match SongFileCache.scan_root root with
     | _ :: _ =>
         modify (set_cache (with_songs
           (delete_songs_where (fun s => negb (mem s (SongFileCache.scan_root root)))))) ;;
         modify (set_cache (with_files
           (delete_files_where (fun s _ => negb (mem s (SongFileCache.scan_root root))))))
     | [] =>
         modify (set_cache (with_songs (fun _ => ∅))) ;;
         modify (set_cache (with_files (fun _ => ∅)))
     end) w.
Proof.
  intros Hroot. unfold SongFileCache.sync_all, SongFileCache.ensure_schema.
  by rewrite Hroot, bind_ret.
Qed.

Lemma sync_all_establishes e w :
  fst (SongFileCache.sync_all e w) = Ret tt /\
  scanned_inv e (snd (SongFileCache.sync_all e w)).
Proof.
  unfold scanned_inv.
  destruct (SONG_FILE_FOLDER_PATH e) as [root |] eqn:Hroot.
  2: { unfold SongFileCache.sync_all. by rewrite Hroot. }
  rewrite (sync_all_unfold e root w Hroot).
  pose proof (fun id => for_each_sync_row_current e (SongFileCache.scan_root root) id w)
    as Hloop.
  destruct (for_each (SongFileCache.scan_root root) (sync_each e) w) as [o w1] eqn:Hrun.
  assert (Ho : o = Ret tt).
  { destruct (SongFileCache.scan_root root) as [| id0 ids] eqn:Hids.
    - simpl in Hrun. by injection Hrun as <- _.
    - destruct (Hloop id0) as [Ho _]; [| exact Ho].
      left. split; [apply list_elem_of_here |].
      eapply scan_root_is_dir; [exact Hroot |]. rewrite Hids. apply list_elem_of_here. }
  subst o. rewrite (bind_run _ _ _ _ _ Hrun). simpl in Hloop.
  destruct (SongFileCache.scan_root root) as [| id0 ids] eqn:Hids.
  - rewrite bind_modify. unfold modify. simpl. split; [done |].
    split; [intros id Hin; by apply elem_of_nil in Hin |].
    split.
    + intros id [x Hx]. unfold songs_of in Hx. simpl in Hx. by rewrite lookup_empty in Hx.
    + intros s f [x Hx]. unfold files_of in Hx. simpl in Hx. by rewrite lookup_empty in Hx.
  - rewrite bind_modify. unfold modify. simpl. split; [done |].
    split; [| split].
    + intros id Hin. destruct (Hloop id) as [_ (d & r & Hd & Hr & Hm)].
      { left. split; [exact Hin |]. eapply scan_root_is_dir; [exact Hroot |].
        by rewrite Hids. }
      exists d, r. split; [exact Hd |]. split; [| exact Hm]. simpl.
      unfold delete_songs_where. apply map_lookup_filter_Some_2; [exact Hr |].
      simpl. unfold mem. rewrite bool_decide_true; done.
    + intros id [x Hx]. unfold songs_of in Hx. simpl in Hx.
      unfold delete_songs_where in Hx. apply map_lookup_filter_Some_1_2 in Hx.
      simpl in Hx. unfold mem in Hx. apply negb_false_iff in Hx.
      by apply bool_decide_eq_true_1 in Hx.
    + intros s f [x Hx]. unfold files_of in Hx. simpl in Hx.
      unfold delete_files_where in Hx. apply map_lookup_filter_Some_1_2 in Hx.
      simpl in Hx. unfold mem in Hx. apply negb_false_iff in Hx.
      by apply bool_decide_eq_true_1 in Hx.
Qed.

Lemma sync_all_noop e w :
  scanned_inv e w -> SongFileCache.sync_all e w = (Ret tt, w).
Proof.
  unfold scanned_inv. intros Hinv.
  destruct (SONG_FILE_FOLDER_PATH e) as [root |] eqn:Hroot.
  2: { unfold SongFileCache.sync_all. by rewrite Hroot. }
  destruct Hinv as (Hrows & Hsongs & Hfiles).
  rewrite (sync_all_unfold e root w Hroot).
  rewrite (bind_run _ _ _ _ _ (for_each_sync_noop e _ w Hrows)).
  unfold songs_of, files_of in *.
  destruct w as [cr er [meta songs files] mm ct tok]. simpl in *.
  destruct (SongFileCache.scan_root root) as [| id0 ids] eqn:Hids.
  - rewrite bind_modify. unfold modify, set_cache, with_songs, with_files. simpl.
    assert (songs = ∅) as ->.
    { apply map_empty. intros id. apply eq_None_not_Some. intros H.
      by apply Hsongs, elem_of_nil in H. }
    assert (files = ∅) as ->.
    { apply map_empty. intros [s f]. apply eq_None_not_Some. intros H.
      by apply Hfiles, elem_of_nil in H. }
    reflexivity.
  - rewrite bind_modify. unfold modify, set_cache, with_songs, with_files. simpl.
    unfold delete_songs_where, delete_files_where.
    rewrite !map_filter_id; [reflexivity | |].
    + intros [s f] x Hx. simpl. unfold mem. rewrite bool_decide_true; [done |].
      apply (Hfiles s f). eauto.
    + intros id x Hx. simpl. unfold mem. rewrite bool_decide_true; [done |].
      apply Hsongs. eauto.
Qed.

(** C6.  On a tree that does not change, a second [sync_all] changes
    nothing: it returns without writing, so the rows of [songs] and
    [files] after it are those after the first call (with or without
    [last_scan] and [last_seen]). *)
Theorem sync_all_idempotent (e : Env) (w : World) :
  let w1 := snd (SongFileCache.sync_all e w) in
  let w2 := snd (SongFileCache.sync_all e w1) in
  fst (SongFileCache.sync_all e w) = Ret tt /\
  fst (SongFileCache.sync_all e w1) = Ret tt /\
  songs_view w2 = songs_view w1 /\
  files_view w2 = files_view w1 /\
  w2 = w1.
Proof.
  intros w1 w2. destruct (sync_all_establishes e w) as [Hret Hinv].
  fold w1 in Hinv. pose proof (sync_all_noop e w1 Hinv) as Hnoop.
  subst w2. rewrite Hnoop. by repeat split.
Qed.


(** ** The names [get_song_file_names] returns *)

Lemma elem_of_order_by (x : string) (l : list string) : x ∈ order_by l <-> x ∈ l.
Proof. unfold order_by. by rewrite merge_sort_Permutation. Qed.

Lemma elem_of_select_file_names (song_id f : string) (db : CacheDb) :
  f ∈ SongFileCache.select_file_names song_id db
  <-> is_Some (tbl_files db !! (song_id, f)).
Proof.
  unfold SongFileCache.select_file_names. rewrite elem_of_order_by.
  rewrite list_elem_of_In, in_map_iff. split.
  - intros ([[s f'] r] & <- & Hin). apply filter_In in Hin as [Hin Hs].
    simpl in *. apply String.eqb_eq in Hs as ->.
    apply list_elem_of_In, elem_of_map_to_list in Hin. eauto.
  - intros [r Hr]. exists ((song_id, f), r). split; [done |].
    apply filter_In. split.
    + by apply list_elem_of_In, elem_of_map_to_list.
    + simpl. apply String.eqb_refl.
Qed.

Lemma for_each_invariant {B : Type} (P : World -> Prop) (l : list B)
  (body : B -> M unit) (w : World) :
  (forall x w, x ∈ l -> P w -> P (snd (body x w))) ->
  P w -> P (snd (for_each l body w)).
Proof.
  revert w. induction l as [| x l IH]; intros w Hstep Hw; simpl; [done |].
  unfold bind. pose proof (Hstep x w (list_elem_of_here _ _) Hw) as H1.
  destruct (body x w) as [[[] | ex] w1]; simpl in *; [| done].
  apply IH; [| done]. intros y w' Hy. apply Hstep. by apply list_elem_of_further.
Qed.

Lemma elem_of_scan_song_dir c song_id d f :
  f ∈ SongFileCache.scan_song_dir c song_id d ->
  SonglistParser.is_available_file c song_id f = true.
Proof.
  unfold SongFileCache.scan_song_dir. intros Hin.
  apply list_elem_of_In, in_map_iff in Hin as ([name x] & <- & Hin).
  apply filter_In in Hin as [_ Hin]. simpl in *.
  by apply andb_true_iff in Hin as [_ Hin].
Qed.

Lemma sync_file_rows_within e song_id t names f w :
  f ∈ names -> rows_within song_id names w ->
  rows_within song_id names (snd (SongFileCache.sync_file e song_id t f w)).
Proof.
  intros Hf Hw. unfold SongFileCache.sync_file.
  assert (Hins : forall row w0, rows_within song_id names w0 ->
    rows_within song_id names
      (snd (modify (set_cache (with_files (<[ (song_id, f) := row ]>))) w0))).
  { intros row w0 Hw0 f' H'. unfold files_of in H'. simpl in H'.
    destruct (decide (f' = f)) as [-> | Hne]; [done |].
    rewrite lookup_insert_ne in H' by congruence. by apply Hw0. }
  destruct (file_of e song_id f) as [st |].
  - rewrite bind_gets.
    destruct (tbl_files (cache w) !! (song_id, f)) as [row |]; [| by apply Hins].
    repeat match goal with |- context [if ?b then _ else _] => destruct b end;
      by apply Hins.
  - unfold SongFileCache._delete_file, SongFileCache.ensure_schema.
    rewrite bind_ret. intros f' H'. unfold files_of in H'. simpl in H'.
    apply Hw. destruct (decide (f' = f)) as [-> | Hne].
    + rewrite lookup_delete_eq in H'. by destruct H'.
    + by rewrite lookup_delete_ne in H' by congruence.
Qed.

Lemma sync_song_rows_legal e song_id m w :
  row_stale w song_id m ->
  rows_legal (cat w) song_id (snd (SongFileCache.sync_song e song_id (Some m) w)).
Proof.
  intros Hstale. unfold SongFileCache.sync_song, SongFileCache.ensure_schema.
  rewrite bind_ret. destruct (song_dir_of e song_id) as [d |].
  2: { unfold SongFileCache._delete_song, SongFileCache.ensure_schema.
       rewrite bind_ret, bind_modify. intros f [r Hr].
       unfold files_of, modify in Hr. simpl in Hr.
       unfold delete_files_where in Hr. apply map_lookup_filter_Some_1_2 in Hr.
       simpl in Hr. by rewrite String.eqb_refl in Hr. }
  rewrite bind_gets. change (default (dir_mtime_ns d) (Some m)) with m.
  unfold row_stale, songs_of in Hstale.
  assert (Hrow : match tbl_songs (cache w) !! song_id with
                 | Some r => Z.eqb (row_dir_mtime_ns r) m
                 | None => false
                 end = false).
  { destruct (tbl_songs (cache w) !! song_id); [by apply Z.eqb_neq | done]. }
  rewrite Hrow, bind_now, bind_modify, bind_gets.
  set (w0 := set_cache _ _).
  change (cat w0) with (cat w).
  assert (Hwithin : rows_within song_id (SongFileCache.scan_song_dir (cat w) song_id d)
    (snd (match SongFileCache.scan_song_dir (cat w) song_id d with
          | [] =>
              modify (set_cache (with_files
                (delete_files_where (fun s _ => String.eqb s song_id))))
          | _ :: _ =>
              modify (set_cache (with_files
                (delete_files_where
                   (fun s f => String.eqb s song_id
                       && negb (mem f (SongFileCache.scan_song_dir (cat w) song_id d)))))) ;;
              for_each (SongFileCache.scan_song_dir (cat w) song_id d)
                (SongFileCache.sync_file e song_id (time e (clock_reads w)))
          end w0))).
  { destruct (SongFileCache.scan_song_dir (cat w) song_id d) as [| f0 fs] eqn:Hscan.
    - intros f [r Hr]. unfold files_of, modify in Hr. simpl in Hr.
      unfold delete_files_where in Hr. apply map_lookup_filter_Some_1_2 in Hr.
      simpl in Hr. by rewrite String.eqb_refl in Hr.
    - rewrite bind_modify. apply for_each_invariant.
      + intros f w1 Hf Hw1. by apply sync_file_rows_within.
      + intros f [r Hr]. unfold files_of in Hr. simpl in Hr.
        unfold delete_files_where in Hr. apply map_lookup_filter_Some_1_2 in Hr.
        simpl in Hr. rewrite String.eqb_refl in Hr. simpl in Hr.
        apply negb_false_iff in Hr. unfold mem in Hr.
        by apply bool_decide_eq_true_1 in Hr. }
  intros f Hf. eapply elem_of_scan_song_dir. by apply Hwithin.
Qed.

(** Legality of the names under one catalogue.  The names
    [get_song_file_names] returns are allowed by the catalogue when the
    call scans the directory (there is no stored row for the song, or its
    modification time differs from the argument), and when the stored rows
    of the song are already allowed: on the fast path the stored rows are
    returned as they are. *)
Theorem get_song_file_names_legal (e : Env) (song_id : string) (m : Z) (w : World) :
  row_stale w song_id m \/ rows_legal (cat w) song_id w ->
  exists names,
    fst (SongFileCache.get_song_file_names e song_id m w) = Ret names /\
    forall f, f ∈ names -> SonglistParser.is_available_file (cat w) song_id f = true.
Proof.
  intros H. unfold SongFileCache.get_song_file_names, SongFileCache.ensure_schema.
  rewrite bind_ret, bind_gets. fold (songs_of w).
  assert (Hdec : row_stale w song_id m \/ ~ row_stale w song_id m).
  { unfold row_stale. destruct (songs_of w !! song_id) as [r |]; [| by left].
    destruct (decide (row_dir_mtime_ns r = m)); [right; by intros ? | by left]. }
  destruct Hdec as [Hstale | Hfresh].
  - assert (Hrow : match songs_of w !! song_id with
                   | Some r => negb (Z.eqb (row_dir_mtime_ns r) m)
                   | None => true
                   end = true).
    { unfold row_stale in Hstale.
      destruct (songs_of w !! song_id); [| done].
      by apply negb_true_iff, Z.eqb_neq. }
    rewrite Hrow.
    destruct (returns_run _ w (sync_song_returns e song_id (Some m))) as ([] & w1 & Hrun).
    rewrite (bind_run _ _ _ _ _ Hrun). eexists. split; [reflexivity |].
    intros f Hf. apply elem_of_select_file_names in Hf.
    pose proof (sync_song_rows_legal e song_id m w Hstale) as Hlegal.
    rewrite Hrun in Hlegal. by apply Hlegal.
  - destruct H as [H | Hlegal]; [done |].
    assert (Hrow : match songs_of w !! song_id with
                   | Some r => negb (Z.eqb (row_dir_mtime_ns r) m)
                   | None => true
                   end = false).
    { unfold row_stale in Hfresh.
      destruct (songs_of w !! song_id) as [r |]; [| done].
      apply negb_false_iff, Z.eqb_eq. by destruct (decide (row_dir_mtime_ns r = m)). }
    rewrite Hrow, bind_ret. eexists. split; [reflexivity |].
    intros f Hf. apply elem_of_select_file_names in Hf. by apply Hlegal.
Qed.

(** A scan right after start: no row is stored for abc yet. *)
Lemma get_song_file_names_legal_sample :
  exists names,
    fst (SongFileCache.get_song_file_names (Sample.env (Some Sample.tree) NoFile)
           "abc" 5 Sample.fresh) = Ret names /\
    forall f, f ∈ names ->
      SonglistParser.is_available_file (cat Sample.fresh) "abc" f = true.
Proof.
  apply (get_song_file_names_legal (Sample.env (Some Sample.tree) NoFile)
           "abc" 5 Sample.fresh).
  left. vm_compute. exact I.
Defined.

(** C7 at a failing input.  The song cache is filled while there is no
    catalogue; a catalogue that allows only 0.aff and base.ogg for abc is
    then loaded, either by refreshing the caches ([clear_all_cache], then
    [initialize_cache]) or by restarting the process.  The directory has
    not changed, so nothing is scanned again, and [get_song_file_names]
    returns 1.aff although [is_available_file] rejects it. *)
Lemma get_song_file_names_after_catalogue_change :
  (fst (SongFileCache.get_song_file_names
          (Sample.env (Some Sample.tree) (Decoded Sample.restricted_songlist))
          "abc" 5 Sample.refreshed)
   = Ret ["0.aff"; "1.aff"; "base.ogg"] /\
   SonglistParser.is_available_file (cat Sample.refreshed) "abc" "1.aff" = false) /\
  (fst (SongFileCache.get_song_file_names
          (Sample.env (Some Sample.tree) (Decoded Sample.restricted_songlist))
          "abc" 5 Sample.restarted)
   = Ret ["0.aff"; "1.aff"; "base.ogg"] /\
   SonglistParser.is_available_file (cat Sample.restarted) "abc" "1.aff" = false) /\
  fst (DownloadList.get_one_song_file_names
         (Sample.env (Some Sample.tree) (Decoded Sample.restricted_songlist))
         "abc" Sample.refreshed)
  = Ret ["0.aff"; "1.aff"; "base.ogg"].
Proof. by vm_compute. Qed.


(** ** The order in which songs are processed *)

#[global] Instance str_le_total : Total str_le.
Proof. intros a b. apply String.leb_total. Qed.

Lemma order_by_ascending (m : gmap string song_row) :
  ascending (order_by (map fst (map_to_list m))).
Proof.
  split; [apply Sorted_merge_sort, _ |].
  unfold order_by. rewrite merge_sort_Permutation. apply NoDup_fst_map_to_list.
Qed.

Lemma lru_find_elem_of {K V : Type} `{EqDecision K} (k : K) (v : V) (c : lru K V) :
  lru_find k c = Some v -> (k, v) ∈ c.
Proof.
  induction c as [| [k' v'] c IH]; simpl; [done |].
  destruct (decide (k = k')) as [-> | Hne].
  - intros [= ->]. apply list_elem_of_here.
  - intros H. apply list_elem_of_further. by apply IH.
Qed.

Lemma elem_of_lru_hit {K V : Type} `{EqDecision K} (k k' : K) (v v' : V) (c : lru K V) :
  (k', v') ∈ lru_hit k v c -> (k', v') = (k, v) \/ (k', v') ∈ c.
Proof.
  unfold lru_hit. intros H. apply elem_of_cons in H as [H | H]; [by left |].
  right. by apply list_elem_of_filter in H as [_ H].
Qed.

Lemma elem_of_lru_miss {K V : Type} (n : nat) (k k' : K) (v v' : V) (c : lru K V) :
  (k', v') ∈ lru_miss n k v c -> (k', v') = (k, v) \/ (k', v') ∈ c.
Proof.
  unfold lru_miss. intros H. apply subseteq_take in H. by apply elem_of_cons in H.
Qed.

(** [minv], also through reads and writes of the state. *)
Ltac minv_state :=
  repeat first
    [ progress minv
    | match goal with
      | H : gets _ _ = (Ret _, _) |- _ => unfold gets in H; injection H as ? ?; subst
      | H : modify _ _ = (Ret _, _) |- _ => unfold modify in H; injection H as ? ?; subst
      end ].

Lemma cache_get_all_song_ids_ascending e m w ids w' :
  SongFileCache.get_all_song_ids e m w = (Ret ids, w') -> ascending ids.
Proof.
  unfold SongFileCache.get_all_song_ids. intros H. minv_state; apply order_by_ascending.
Qed.

Lemma cache_get_all_song_ids_memo e m : preserves ids_memo (SongFileCache.get_all_song_ids e m).
Proof. by apply cache_get_all_song_ids_preserves. Qed.

Lemma get_all_song_ids_ascending e w ids w' :
  ids_cached_ascending w ->
  DownloadList.get_all_song_ids e w = (Ret ids, w') ->
  ascending ids /\ ids_cached_ascending w'.
Proof.
  intros Hinv. unfold DownloadList.get_all_song_ids.
  destruct (SONG_FILE_FOLDER_PATH e) as [root |].
  2: { intros H. minv. split; [| done]. split; constructor. }
  unfold DownloadList._get_all_cached_song_ids. rewrite bind_gets.
  destruct (lru_find (root_mtime_ns root) (ids_cached (memo w))) as [v |] eqn:Hfind.
  - rewrite bind_modify. intros H. minv.
    pose proof (Hinv _ _ (lru_find_elem_of _ _ _ Hfind)) as Hv.
    split; [exact Hv |]. intros k v' Hin. unfold ids_cached_ascending in Hinv. simpl in Hin.
    apply elem_of_lru_hit in Hin as [[= -> ->] | Hin]; eauto.
  - intros H. apply bind_ret_inv in H as (v & w1 & Hrun & H).
    rewrite bind_modify in H. minv.
    pose proof (cache_get_all_song_ids_ascending _ _ _ _ _ Hrun) as Hv.
    split; [exact Hv |]. intros k v' Hin. simpl in Hin.
    apply elem_of_lru_miss in Hin as [[= -> ->] | Hin]; [done |].
    pose proof (cache_get_all_song_ids_memo e (root_mtime_ns root) w) as Hm.
    rewrite Hrun in Hm. unfold ids_memo in Hm. simpl in Hm. rewrite Hm in Hin.
    eauto.
Qed.

Lemma add_one_song_memo e self i : preserves ids_memo (DownloadList.add_one_song e self i).
Proof. by apply add_one_song_preserves_url. Qed.

Lemma add_one_song_cat e self i : preserves cat (DownloadList.add_one_song e self i).
Proof. by apply add_one_song_preserves_url. Qed.

Lemma get_all_song_ids_cat e : preserves cat (DownloadList.get_all_song_ids e).
Proof. by apply get_all_song_ids_preserves. Qed.

Lemma clear_download_token_memo e : preserves ids_memo (DownloadList.clear_download_token e).
Proof. by apply clear_download_token_preserves. Qed.

Lemma insert_download_tokens_memo self :
  preserves ids_memo (DownloadList.insert_download_tokens self).
Proof. by apply insert_download_tokens_preserves. Qed.

Lemma map_fst_dict_set {V : Type} (k : string) (v : V) (l : list (string * V)) :
  map fst (dict_set k v l) = keys_after [k] (map fst l).
Proof.
  unfold keys_after, mem. simpl. induction l as [| [k' v'] l IH]; simpl; [done |].
  destruct (String.eqb_spec k k') as [-> | Hne]; simpl.
  - rewrite bool_decide_true; [done | apply list_elem_of_here].
  - rewrite IH. case_bool_decide as H1; case_bool_decide as H2; try done.
    + destruct H2. by apply list_elem_of_further.
    + apply elem_of_cons in H2 as [? | ?]; done.
Qed.

Lemma keys_after_cons i ids keys :
  keys_after (i :: ids) keys = keys_after ids (keys_after [i] keys).
Proof. reflexivity. Qed.

Lemma add_one_song_keys e s i w s' w' :
  DownloadList.add_one_song e s i w = (Ret s', w') ->
  DownloadList.song_ids s' = DownloadList.song_ids s /\
  DownloadList.url_flag s' = DownloadList.url_flag s /\
  map fst (DownloadList.urls s') = keys_after [i] (map fst (DownloadList.urls s)).
Proof.
  unfold DownloadList.add_one_song. intros H. minv. simpl.
  split; [done |]. split; [done |]. apply map_fst_dict_set.
Qed.

Lemma fold_add_one_song_keys e ids s w s' w' :
  fold_each ids (DownloadList.add_one_song e) s w = (Ret s', w') ->
  DownloadList.song_ids s' = DownloadList.song_ids s /\
  DownloadList.url_flag s' = DownloadList.url_flag s /\
  map fst (DownloadList.urls s') = keys_after ids (map fst (DownloadList.urls s)).
Proof.
  revert s w. induction ids as [| i ids IH]; intros s w H; simpl in H.
  - by minv.
  - apply bind_ret_inv in H as (s1 & w1 & H1 & H).
    apply add_one_song_keys in H1 as (Hs & Hf & Hk). apply IH in H as (Hs' & Hf' & Hk').
    rewrite keys_after_cons, <- Hk. by rewrite Hs', Hf', Hs, Hf.
Qed.

Lemma fold_present_song_keys e ids s w s' w' :
  fold_each ids (fun self i =>
    match song_dir_of e i with
    | Some _ => DownloadList.add_one_song e self i
    | None => ret self
    end) s w = (Ret s', w') ->
  DownloadList.song_ids s' = DownloadList.song_ids s /\
  DownloadList.url_flag s' = DownloadList.url_flag s /\
  map fst (DownloadList.urls s')
  = keys_after (List.filter (present e) ids) (map fst (DownloadList.urls s)).
Proof.
  revert s w. induction ids as [| i ids IH]; intros s w H; simpl in H.
  - by minv.
  - apply bind_ret_inv in H as (s1 & w1 & H1 & H). simpl. unfold present at 1.
    apply IH in H as (Hs' & Hf' & Hk'). destruct (song_dir_of e i).
    + apply add_one_song_keys in H1 as (Hs & Hf & Hk).
      rewrite keys_after_cons, <- Hk. by rewrite Hs', Hf', Hs, Hf.
    + by minv.
Qed.

Lemma keys_after_app ids keys :
  NoDup (keys ++ ids) -> keys_after ids keys = (keys ++ ids)%list.
Proof.
  revert keys. induction ids as [| i ids IH]; intros keys Hnd.
  - unfold keys_after. simpl. by rewrite app_nil_r.
  - rewrite keys_after_cons.
    change (keys_after [i] keys) with (if mem i keys then keys else (keys ++ [i])%list).
    unfold mem. rewrite bool_decide_false.
    2: { apply NoDup_app in Hnd as (_ & Hdisj & _). intros Hin.
         apply (Hdisj i Hin). apply list_elem_of_here. }
    rewrite IH; rewrite <- app_assoc; done.
Qed.

Lemma preserves_run {X A : Type} (f : World -> X) (m : M A) w o w' :
  preserves f m -> m w = (o, w') -> f w' = f w.
Proof. intros Hp Hrun. specialize (Hp w). by rewrite Hrun in Hp. Qed.

Lemma ids_cached_ascending_memo w w' :
  ids_memo w' = ids_memo w -> ids_cached_ascending w -> ids_cached_ascending w'.
Proof.
  unfold ids_cached_ascending, ids_memo. intros Heq H k v Hin. rewrite Heq in Hin. eauto.
Qed.

Lemma present_song_memo e (a : DownloadList.t) (x : string) :
  preserves ids_memo
    (match song_dir_of e x with
     | Some _ => DownloadList.add_one_song e a x
     | None => ret a
     end).
Proof.
  destruct (song_dir_of e x); [apply add_one_song_memo | apply preserves_ret].
Qed.

(** The last step of [add_songs]: the tokens are stored, [self] and the
    memoised ids stay. *)
Lemma add_songs_store_tokens e s w1 self' w' :
  (if DownloadList.url_flag_set s
   then DownloadList.clear_download_token e ;;
        DownloadList.insert_download_tokens s ;; ret s
   else ret s) w1 = (Ret self', w') ->
  self' = s /\ ids_memo w' = ids_memo w1.
Proof.
  intros H. split.
  - destruct (DownloadList.url_flag_set s); by minv.
  - eapply preserves_run; [| exact H].
    destruct (DownloadList.url_flag_set s); [| apply preserves_ret].
    apply preserves_bind; [apply clear_download_token_memo | intros _].
    apply preserves_bind; [apply insert_download_tokens_memo | intros _].
    apply preserves_ret.
Qed.

(** C8, as the code has it.  Without entitlement filtering
    ([DOWNLOAD_FORBID_WHEN_NO_ITEM] off, or no catalogue), [add_songs]
    with empty [song_ids] processes the ids of [get_all_song_ids], which
    are ascending, and adds their keys to the manifest in that order; with
    explicit [song_ids] it processes those that are directories in the
    order the caller gave, and adds their keys in that order. *)
Theorem add_songs_order (e : Env) (self : DownloadList.t) (arg : option (list string))
  (w : World) (self' : DownloadList.t) (w' : World) :
  DOWNLOAD_FORBID_WHEN_NO_ITEM e && has_songlist (cat w) = false ->
  ids_cached_ascending w ->
  DownloadList.add_songs e self arg w = (Ret self', w') ->
  ids_cached_ascending w' /\
  match requested self arg with
  | Some (i :: l) =>
      DownloadList.song_ids self' = Some (i :: l) /\
      map fst (DownloadList.urls self')
      = keys_after (List.filter (present e) (i :: l)) (map fst (DownloadList.urls self))
  | _ =>
      exists ids,
        DownloadList.song_ids self' = Some ids /\
        ascending ids /\
        map fst (DownloadList.urls self')
        = keys_after ids (map fst (DownloadList.urls self)) /\
        (DownloadList.urls self = [] -> map fst (DownloadList.urls self') = ids)
  end.
Proof.
  intros Hfilter Hinv H. unfold DownloadList.add_songs in H.
  set (self0 := match arg with
                | Some l => DownloadList.with_song_ids self (Some l)
                | None => self
                end) in H.
  assert (Hreq : requested self arg = DownloadList.song_ids self0)
    by (by destruct arg).
  assert (Hurls : DownloadList.urls self0 = DownloadList.urls self)
    by (by destruct arg).
  rewrite Hreq. clearbody self0. clear Hreq.
  apply bind_ret_inv in H as (s & w1 & Hblock & H).
  apply add_songs_store_tokens in H as [-> Hmemo].
  assert (Hempty : forall wa ids,
    DownloadList.get_all_song_ids e w = (Ret ids, wa) ->
    (let* c := gets cat in
     let* ids :=
       if DOWNLOAD_FORBID_WHEN_NO_ITEM e && has_songlist c
       then lift (DownloadList.unlocked_among e c (DownloadList.user self0) ids)
       else ret ids in
     fold_each ids (DownloadList.add_one_song e)
       (DownloadList.with_song_ids self0 (Some ids))) wa = (Ret s, w1) ->
    ids_cached_ascending w' /\
    exists ids,
      DownloadList.song_ids s = Some ids /\ ascending ids /\
      map fst (DownloadList.urls s) = keys_after ids (map fst (DownloadList.urls self)) /\
      (DownloadList.urls self = [] -> map fst (DownloadList.urls s) = ids)).
  { intros wa ids Hids Hrest.
    destruct (get_all_song_ids_ascending e w ids wa Hinv Hids) as [Hasc Hinva].
    rewrite bind_gets in Hrest.
    rewrite (preserves_run cat _ _ _ _ (get_all_song_ids_cat e) Hids) in Hrest.
    rewrite Hfilter, bind_ret in Hrest.
    pose proof (preserves_run ids_memo _ _ _ _
      (preserves_fold_each ids_memo ids (DownloadList.add_one_song e) _
         (fun a x => add_one_song_memo e a x)) Hrest) as Hm.
    apply fold_add_one_song_keys in Hrest as (Hs & _ & Hk). simpl in Hs, Hk.
    split.
    - apply (ids_cached_ascending_memo wa); [by rewrite Hmemo | exact Hinva].
    - exists ids. rewrite Hurls in Hk. repeat split; try done; try apply Hasc.
      intros Hnil. rewrite Hk, Hnil. simpl. rewrite keys_after_app; [done |].
      apply Hasc. }
  destruct (DownloadList.song_ids self0) as [[| i l] |] eqn:Hsong.
  - apply bind_ret_inv in Hblock as (ids & wa & Hids & Hrest). by eapply Hempty.
  - rewrite bind_gets, Hfilter, bind_ret in Hblock.
    pose proof (preserves_run ids_memo _ _ _ _
      (preserves_fold_each ids_memo (i :: l) _ _ (present_song_memo e)) Hblock) as Hm.
    apply fold_present_song_keys in Hblock as (Hs & _ & Hk). simpl in Hs.
    split.
    + apply (ids_cached_ascending_memo w); [by rewrite Hmemo | exact Hinv].
    + split; [exact Hs |]. by rewrite <- Hurls.
  - apply bind_ret_inv in Hblock as (ids & wa & Hids & Hrest). by eapply Hempty.
Qed.

(** All songs of the sample tree: abc, then b. *)
Lemma add_songs_order_sample :
  ids_cached_ascending (snd Sample.listing) /\
  match requested (DownloadList.init (Some Sample.alice)) None with
  | Some (i :: l) =>
      DownloadList.song_ids Sample.listed = Some (i :: l) /\
      map fst (DownloadList.urls Sample.listed)
      = keys_after
          (List.filter (present (Sample.env (Some Sample.tree) NoFile)) (i :: l))
          (map fst (DownloadList.urls (DownloadList.init (Some Sample.alice))))
  | _ =>
      exists ids,
        DownloadList.song_ids Sample.listed = Some ids /\
        ascending ids /\
        map fst (DownloadList.urls Sample.listed)
        = keys_after ids
            (map fst (DownloadList.urls (DownloadList.init (Some Sample.alice)))) /\
        (DownloadList.urls (DownloadList.init (Some Sample.alice)) = [] ->
         map fst (DownloadList.urls Sample.listed) = ids)
  end.
Proof.
  apply (add_songs_order (Sample.env (Some Sample.tree) NoFile)
           (DownloadList.init (Some Sample.alice)) None Sample.fresh
           Sample.listed (snd Sample.listing)).
  - reflexivity.
  - intros k v H. vm_compute in H. by apply elem_of_nil in H.
  - vm_compute. reflexivity.
Defined.

(** C8 as stated fails on the path with explicit [song_ids]: asked for b
    and then abc, [add_songs] adds the keys b, abc in that order, which is
    not ascending. *)
Lemma add_songs_explicit_order :
  (exists self' w',
     DownloadList.add_songs (Sample.env (Some Sample.tree) NoFile)
       (DownloadList.init (Some Sample.alice)) (Some ["b"; "abc"]) Sample.fresh
     = (Ret self', w') /\
     DownloadList.song_ids self' = Some ["b"; "abc"] /\
     map fst (DownloadList.urls self') = ["b"; "abc"]) /\
  ~ Sorted str_le ["b"; "abc"].
Proof.
  split.
  - do 2 eexists. split; [vm_compute; reflexivity |]. by split.
  - intros H. apply Sorted_inv in H as [_ H]. apply HdRel_inv in H.
    unfold str_le in H. by vm_compute in H.
Qed.


(** ** The file names a catalogue allows *)

Lemma land_bit_eqb (rule i : Z) :
  0 <= i -> Z.eqb (Z.land rule (Z.shiftl 1 i)) 0 = negb (Z.testbit rule i).
Proof.
  intros Hi. rewrite Z.shiftl_1_l.
  destruct (Z.testbit rule i) eqn:Hb; simpl.
  - apply Z.eqb_neq. intros H0.
    assert (Hbit : Z.testbit (Z.land rule (2 ^ i)) i = true).
    { by rewrite Z.land_spec, Hb, Z.pow2_bits_true. }
    rewrite H0, Z.bits_0 in Hbit. discriminate.
  - apply Z.eqb_eq. apply Z.bits_inj'. intros n Hn.
    rewrite Z.land_spec, Z.bits_0, Z.pow2_bits_eqb by done.
    destruct (Z.eqb_spec i n) as [<- | _]; [by rewrite Hb | apply andb_false_r].
Qed.

Lemma scan_rule_true (f : string) (rule i : Z) (names : list string) :
  0 <= i ->
  SonglistParser.scan_rule f rule i names = true <->
  exists j : nat, names !! j = Some f /\ Z.testbit rule (i + Z.of_nat j) = true.
Proof.
  revert i. induction names as [| v names IH]; intros i Hi; simpl.
  - split; [done | by intros (j & H & _)].
  - rewrite land_bit_eqb, negb_involutive by done.
    destruct (String.eqb_spec f v) as [-> | Hne]; simpl.
    + destruct (Z.testbit rule i) eqn:Hb.
      * split; [intros _ | done]. exists 0%nat. by rewrite Z.add_0_r.
      * rewrite IH by lia. split.
        -- intros (j & Hj & Hbit). exists (S j). split; [done |].
           by replace (i + Z.of_nat (S j)) with (i + 1 + Z.of_nat j) by lia.
        -- intros ([| j] & Hj & Hbit).
           ++ rewrite Z.add_0_r in Hbit. congruence.
           ++ exists j. split; [done |].
              by replace (i + 1 + Z.of_nat j) with (i + Z.of_nat (S j)) by lia.
    + rewrite IH by lia. split.
      * intros (j & Hj & Hbit). exists (S j). split; [done |].
        by replace (i + Z.of_nat (S j)) with (i + 1 + Z.of_nat j) by lia.
      * intros ([| j] & Hj & Hbit).
        -- simpl in Hj. congruence.
        -- exists j. split; [done |].
           by replace (i + 1 + Z.of_nat j) with (i + Z.of_nat (S j)) by lia.
Qed.

(** X1.  For a song the catalogue lists, [is_available_file] allows a
    file name exactly when it is the [j]-th of [FILE_NAMES] for some [j]
    whose bit is set in the song's bitmap. *)
Theorem is_available_file_bitmap (c : Catalogue) (song_id file_name : string) (rule : Z) :
  songs c !! KStr song_id = Some rule ->
  SonglistParser.is_available_file c song_id file_name = true <->
  exists j : nat, FILE_NAMES !! j = Some file_name /\ Z.testbit rule (Z.of_nat j) = true.
Proof.
  intros H. unfold SonglistParser.is_available_file. rewrite H.
  by rewrite scan_rule_true.
Qed.

(** X2.  Whatever the catalogue holds, [is_available_file] never allows a
    name outside the eleven of [FILE_NAMES]. *)
Theorem is_available_file_well_known (c : Catalogue) (song_id file_name : string) :
  SonglistParser.is_available_file c song_id file_name = true ->
  file_name ∈ FILE_NAMES.
Proof.
  unfold SonglistParser.is_available_file.
  destruct (songs c !! KStr song_id) as [rule |].
  - rewrite scan_rule_true by done. intros (j & Hj & _).
    by apply list_elem_of_lookup_2 in Hj.
  - apply bool_decide_eq_true_1.
Qed.

(** ** The bitmap of an entry with remote download *)

Lemma difficulty_remote_bits (r r' : Z) (d : json) :
  SonglistParser.difficulty_remote r d = Ret r' ->
  r' = Z.lor r (remote_bits [d]).
Proof.
  unfold SonglistParser.difficulty_remote, shl1. cbn [remote_bits].
  unfold is_rating3_override, is_rating3.
  destruct (subscript d "ratingClass") as [rc |]; simpl; [| discriminate].
  destruct (as_int rc) as [k |] eqn:Hk.
  2: { destruct (eq_int rc 3); simpl;
         [destruct (get d "audioOverride" (JBool false)); simpl |]; discriminate. }
  destruct (Z.ltb k 0) eqn:Hneg.
  { destruct (eq_int rc 3); simpl;
      [destruct (get d "audioOverride" (JBool false)); simpl |]; discriminate. }
  destruct (eq_int rc 3); simpl.
  - destruct (get d "audioOverride" (JBool false)) as [ao |]; simpl; [| discriminate].
    destruct (truthy ao); intros [= <-]; simpl; lor_solve.
  - intros [= <-]. simpl. lor_solve.
Qed.

Lemma ofold_difficulty_remote_bits (ds : list json) (r r' : Z) :
  ofold SonglistParser.difficulty_remote ds r = Ret r' ->
  r' = Z.lor r (remote_bits ds).
Proof.
  revert r. induction ds as [| d ds IH]; intros r; simpl.
  - intros [= <-]. by rewrite Z.lor_0_r.
  - intros H. apply obind_ret_inv in H as (r1 & H1 & H2).
    apply difficulty_remote_bits in H1. apply IH in H2. subst. simpl.
    apply Z.bits_inj'; intros ? _; rewrite ?Z.lor_spec, ?Z.bits_0; btauto.
Qed.

Lemma testbit_remote_bits (ds : list json) (n : Z) :
  Z.testbit (remote_bits ds) n
  = existsb (has_rating n) ds || (existsb is_rating3_override ds && Z.eqb 6 n).
Proof.
  induction ds as [| d ds IH]; simpl; [by rewrite Z.bits_0 |].
  rewrite !Z.lor_spec, IH, testbit_bit by lia. unfold has_rating.
  destruct (subscript d "ratingClass") as [rc |]; simpl.
  - destruct (as_int rc) as [k |]; simpl.
    + destruct (Z.ltb_spec k 0) as [Hneg | Hpos].
      * rewrite Z.bits_0. rewrite (proj2 (Z.leb_gt 0 k)) by lia. simpl. btauto.
      * rewrite Z.shiftl_1_l, Z.pow2_bits_eqb by done.
        rewrite (proj2 (Z.leb_le 0 k)) by lia. simpl. btauto.
    + rewrite Z.bits_0. btauto.
  - rewrite Z.bits_0. btauto.
Qed.

Lemma testbit_video_bits (fs : list json) (n : Z) :
  Z.testbit (video_bits fs) n
  = (existsb (names_file "video.mp4") fs && Z.eqb 7 n)
    || (existsb (names_file "video_audio.ogg") fs && Z.eqb 8 n)
    || (existsb (names_file "video_720.mp4") fs && Z.eqb 9 n)
    || (existsb (names_file "video_1080.mp4") fs && Z.eqb 10 n).
Proof.
  unfold video_bits. rewrite !Z.lor_spec, !testbit_bit by lia. btauto.
Qed.

(** What a run of [parse_one] on an object that returned a bitmap went
    through. *)
Lemma parse_one_object_inv (kv : list (string * json)) (k : pykey) (r : Z) :
  SonglistParser.parse_one (JObj kv) = Ret (Some (k, r)) ->
  exists ds fs r1,
    iter (default (JArr []) (assoc "difficulties" kv)) = Ret ds /\
    iter (default (JArr []) (assoc "additional_files" kv)) = Ret fs /\
    (if remote_dl_on kv
     then ofold SonglistParser.difficulty_remote ds 32
     else ofold SonglistParser.difficulty_local ds 0) = Ret r1 /\
    ofold SonglistParser.additional_file fs r1 = Ret r /\
    (exists id, assoc "id" kv = Some id /\ to_key id = Ret k).
Proof.
  intros H. unfold SonglistParser.parse_one in H. simpl in H.
  destruct (bool_decide (is_Some (assoc "id" kv))); simpl in H; [| discriminate].
  assert (Hdl :
    (if bool_decide (is_Some (assoc "remote_dl" kv))
     then let? v := match assoc "remote_dl" kv with
                    | Some x => Ret x
                    | None => Raise KeyError
                    end in Ret (truthy v)
     else Ret false) = Ret (remote_dl_on kv)).
  { unfold remote_dl_on.
    destruct (assoc "remote_dl" kv) as [v |]; case_bool_decide as Hd; simpl;
      first [ reflexivity | by destruct Hd | by (destruct Hd; eauto) ]. }
  rewrite Hdl in H. simpl in H.
  apply obind_ret_inv in H as (r1 & H1 & H).
  apply obind_ret_inv in H as (fs & Hfs & H).
  apply obind_ret_inv in H as (r2 & H2 & H).
  apply obind_ret_inv in H as (id & Hid & H).
  apply obind_ret_inv in H as (k' & Hk & H).
  injection H as -> ->.
  assert (Hds : exists ds,
    iter (default (JArr []) (assoc "difficulties" kv)) = Ret ds /\
    (if remote_dl_on kv
     then ofold SonglistParser.difficulty_remote ds 32
     else ofold SonglistParser.difficulty_local ds 0) = Ret r1).
  { destruct (remote_dl_on kv); simpl in H1;
      apply obind_ret_inv in H1 as (ds & Hds & H1); eauto. }
  destruct Hds as (ds & Hds & Hfold).
  exists ds, fs, r1. repeat split; try done.
  exists id. split; [| done]. by destruct (assoc "id" kv); [injection Hid as -> |].
Qed.

(** X3.  For an entry whose [remote_dl] is truthy, the bitmap [parse_one]
    produces has bit 5 (base.ogg), bit [n] for every rating class [n] of
    its difficulties, bit 6 when a difficulty of rating class 3 has a
    truthy [audioOverride], and the bits 7 to 10 of the video files listed
    under [additional_files]; no other bit is set. *)
Theorem parse_one_with_remote_dl (kv : list (string * json)) (k : pykey) (r : Z) :
  remote_dl_on kv = true ->
  SonglistParser.parse_one (JObj kv) = Ret (Some (k, r)) ->
  exists ds fs,
    iter (default (JArr []) (assoc "difficulties" kv)) = Ret ds /\
    iter (default (JArr []) (assoc "additional_files" kv)) = Ret fs /\
    forall n,
      Z.testbit r n
      = Z.eqb 5 n
        || existsb (has_rating n) ds
        || (existsb is_rating3_override ds && Z.eqb 6 n)
        || (existsb (names_file "video.mp4") fs && Z.eqb 7 n)
        || (existsb (names_file "video_audio.ogg") fs && Z.eqb 8 n)
        || (existsb (names_file "video_720.mp4") fs && Z.eqb 9 n)
        || (existsb (names_file "video_1080.mp4") fs && Z.eqb 10 n).
Proof.
  intros Hon H.
  apply parse_one_object_inv in H as (ds & fs & r1 & Hds & Hfs & Hfold & Hvideo & _).
  rewrite Hon in Hfold. exists ds, fs. split; [done |]. split; [done |]. intros n.
  apply ofold_difficulty_remote_bits in Hfold.
  apply ofold_additional_file_bits in Hvideo. subst.
  rewrite !Z.lor_spec, testbit_remote_bits, testbit_video_bits.
  change 32 with (bit 5 true). rewrite testbit_bit by lia. simpl. btauto.
Qed.

(** X4.  In the bitmap [parse_one] produces for an entry, bit 5
    (base.ogg) is set exactly when [remote_dl] is present and truthy. *)
Theorem parse_one_base_ogg_bit (kv : list (string * json)) (k : pykey) (r : Z) :
  SonglistParser.parse_one (JObj kv) = Ret (Some (k, r)) ->
  Z.testbit r 5 = remote_dl_on kv.
Proof.
  intros H.
  apply parse_one_object_inv in H as (ds & fs & r1 & Hds & Hfs & Hfold & Hvideo & _).
  apply ofold_additional_file_bits in Hvideo. subst r.
  destruct (remote_dl_on kv).
  - apply ofold_difficulty_remote_bits in Hfold. subst.
    rewrite !Z.lor_spec. change (Z.testbit 32 5) with true. reflexivity.
  - apply ofold_difficulty_local_bits in Hfold. subst.
    rewrite !Z.lor_spec, testbit_video_bits. unfold local_bits.
    rewrite Z.lor_spec, !testbit_bit by lia.
    change (Z.testbit 0 5) with false.
    change (Z.eqb 3 5) with false. change (Z.eqb 6 5) with false.
    change (Z.eqb 7 5) with false. change (Z.eqb 8 5) with false.
    change (Z.eqb 9 5) with false. change (Z.eqb 10 5) with false.
    by rewrite !andb_false_r.
Qed.

Lemma is_available_file_bitmap_sample :
  SonglistParser.is_available_file (cat Sample.restarted) "abc" "base.ogg" = true <->
  exists j : nat, FILE_NAMES !! j = Some "base.ogg" /\ Z.testbit 33 (Z.of_nat j) = true.
Proof.
  apply (is_available_file_bitmap (cat Sample.restarted) "abc" "base.ogg" 33).
  vm_compute. reflexivity.
Defined.

Lemma is_available_file_well_known_sample : "3.ogg" ∈ FILE_NAMES.
Proof.
  apply (is_available_file_well_known Sample.empty_catalogue "b" "3.ogg").
  vm_compute. reflexivity.
Defined.

Lemma parse_one_with_remote_dl_sample :
  exists ds fs,
    iter (default (JArr []) (assoc "difficulties" Sample.remote_song)) = Ret ds /\
    iter (default (JArr []) (assoc "additional_files" Sample.remote_song)) = Ret fs /\
    forall n,
      Z.testbit 165 n
      = Z.eqb 5 n
        || existsb (has_rating n) ds
        || (existsb is_rating3_override ds && Z.eqb 6 n)
        || (existsb (names_file "video.mp4") fs && Z.eqb 7 n)
        || (existsb (names_file "video_audio.ogg") fs && Z.eqb 8 n)
        || (existsb (names_file "video_720.mp4") fs && Z.eqb 9 n)
        || (existsb (names_file "video_1080.mp4") fs && Z.eqb 10 n).
Proof.
  apply (parse_one_with_remote_dl Sample.remote_song (KStr "abc") 165);
    vm_compute; reflexivity.
Defined.

Lemma parse_one_base_ogg_bit_sample :
  Z.testbit 136 5 = remote_dl_on Sample.local_song_with_video.
Proof.
  apply (parse_one_base_ogg_bit Sample.local_song_with_video (KStr "abc") 136).
  vm_compute. reflexivity.
Defined.


(** ** Relating the state before and after *)

Section Steps.

Context (R : relation World) `{!PreOrder R}.

Lemma steps_ret {A : Type} (a : A) : steps R (ret a).
Proof. intros w. simpl. reflexivity. Qed.

Lemma steps_raise {A : Type} (x : exn) : steps R (raise (A := A) x).
Proof. intros w. simpl. reflexivity. Qed.

Lemma steps_lift {A : Type} (o : outcome A) : steps R (lift o).
Proof. intros w. simpl. reflexivity. Qed.

Lemma steps_gets {A : Type} (g : World -> A) : steps R (gets g).
Proof. intros w. simpl. reflexivity. Qed.

Lemma steps_modify (g : World -> World) : (forall w, R w (g w)) -> steps R (modify g).
Proof. intros H w. apply H. Qed.

Lemma steps_bind {A B : Type} (m : M A) (k : A -> M B) :
  steps R m -> (forall a, steps R (k a)) -> steps R (bind m k).
Proof.
  intros Hm Hk w. unfold bind. specialize (Hm w).
  destruct (m w) as [[a | x] w1]; simpl in *; [| done].
  etrans; [exact Hm | apply Hk].
Qed.

Lemma steps_for_each {B : Type} (l : list B) (body : B -> M unit) :
  (forall x, steps R (body x)) -> steps R (for_each l body).
Proof.
  intros H. induction l as [| x l IH]; simpl.
  - apply steps_ret.
  - apply steps_bind; [apply H | by intros _].
Qed.

Lemma steps_fold_each {A B : Type} (l : list B) (body : A -> B -> M A) (acc : A) :
  (forall a x, steps R (body a x)) -> steps R (fold_each l body acc).
Proof.
  intros H. revert acc. induction l as [| x l IH]; intros acc; simpl.
  - apply steps_ret.
  - apply steps_bind; [apply H | apply IH].
Qed.

End Steps.

Lemma steps_preserves {X A : Type} (f : World -> X) (R : relation World) (m : M A) :
  (forall w w', f w' = f w -> R w w') -> preserves f m -> steps R m.
Proof. intros H Hp w. apply H, Hp. Qed.

Create HintDb steps.

Ltac steps_step :=
  first
    [ solve [apply steps_ret; apply _]
    | solve [apply steps_raise; apply _]
    | solve [apply steps_lift; apply _]
    | solve [apply steps_gets; apply _]
    | solve [auto with steps nocore]
    | apply steps_bind; [apply _ | | intros ?]
    | apply steps_for_each; [apply _ | intros ?]
    | apply steps_fold_each; [apply _ | intros ? ?]
    | match goal with
      | |- steps _ (match ?x with _ => _ end) => destruct x
      | |- steps _ (if ?b then _ else _) => destruct b
      end ].

Ltac steps_all := cbv zeta; repeat steps_step.

(** ** What loading a catalogue changes *)

#[global] Instance catalogue_grows_preorder : PreOrder catalogue_grows.
Proof.
  split.
  - intros c. repeat split; try done. intros p s H. eauto.
  - intros c1 c2 c3 (H1 & S1 & F1 & W1 & P1) (H2 & S2 & F2 & W2 & P2).
    split; [congruence |]. split; [by etrans |].
    split; [by etrans |]. split; [by etrans |].
    intros p s H. destruct (P1 p s H) as (s1 & Hs1 & Hsub1).
    destruct (P2 p s1 Hs1) as (s2 & Hs2 & Hsub2). exists s2. split; [done | by etrans].
Qed.

#[global] Instance only_catalogue_grows_preorder : PreOrder only_catalogue_grows.
Proof.
  split.
  - intros w. split; [reflexivity | done].
  - intros w1 w2 w3 (C1 & A1 & B1 & D1 & E1 & F1) (C2 & A2 & B2 & D2 & E2 & F2).
    split; [by etrans | repeat split; congruence].
Qed.

#[global] Instance catalogue_extends_preorder : PreOrder catalogue_extends.
Proof.
  split.
  - intros c. repeat split; try done. intros p s H. eauto.
  - intros c1 c2 c3 (H1 & S1 & F1 & W1 & P1) (H2 & S2 & F2 & W2 & P2).
    split; [congruence |]. split; [by etrans |].
    split; [by etrans |]. split; [by etrans |].
    intros p s H. destruct (P1 p s H) as (s1 & Hs1 & Hsub1).
    destruct (P2 p s1 Hs1) as (s2 & Hs2 & Hsub2). exists s2. split; [done | by etrans].
Qed.

#[global] Instance only_catalogue_extends_preorder : PreOrder only_catalogue_extends.
Proof.
  split.
  - intros w. split; [reflexivity | done].
  - intros w1 w2 w3 (C1 & A1 & B1 & D1 & E1 & F1) (C2 & A2 & B2 & D2 & E2 & F2).
    split; [by etrans | repeat split; congruence].
Qed.

Lemma catalogue_grows_extends (c c' : Catalogue) :
  catalogue_grows c c' -> catalogue_extends c c'.
Proof. intros (H & S & F & W & P). repeat split; try done. by rewrite S. Qed.

Lemma add_world_song_grows k :
  steps only_catalogue_grows (modify (set_cat (SonglistParser.add_world_song k))).
Proof.
  apply steps_modify. intros w. repeat split; simpl; try done; try set_solver.
Qed.

Lemma add_free_song_grows k :
  steps only_catalogue_grows (modify (set_cat (SonglistParser.add_free_song k))).
Proof.
  apply steps_modify. intros w. repeat split; simpl; try done; try set_solver.
Qed.

#[local] Hint Resolve add_world_song_grows add_free_song_grows : steps.

Lemma add_to_pack_grows {X : Type} p (o : outcome X) (f : X -> outcome pykey) :
  steps only_catalogue_grows
    (let* members := gets (fun w => default ∅ (pack_info (cat w) !! p)) in
     modify (set_cat (SonglistParser.set_pack p members)) ;;
     let* id := lift o in
     let* k := lift (f id) in
     modify (set_cat (SonglistParser.set_pack p (members ∪ {[ k ]})))).
Proof.
  intros w. unfold bind, gets, modify, lift. simpl.
  assert (Hkeep : forall extra q s, pack_info (cat w) !! q = Some s ->
            exists s', <[ p := default ∅ (pack_info (cat w) !! p) ∪ extra ]>
                         (pack_info (cat w)) !! q = Some s' /\ s ⊆ s').
  { intros extra q s Hq. destruct (decide (q = p)) as [-> | Hne].
    - rewrite lookup_insert_eq, Hq. simpl. eexists. split; [done | set_solver].
    - rewrite lookup_insert_ne by done. eauto. }
  destruct o as [id | x]; simpl; [destruct (f id) as [k | x]; simpl |].
  - repeat split; simpl; try done. intros q s Hq.
    rewrite insert_insert_eq. by apply Hkeep.
  - repeat split; simpl; try done. intros q s Hq.
    destruct (Hkeep ∅ q s Hq) as (s' & Hs' & Hsub).
    rewrite union_empty_r_L in Hs'. eauto.
  - repeat split; simpl; try done. intros q s Hq.
    destruct (Hkeep ∅ q s Hq) as (s' & Hs' & Hsub).
    rewrite union_empty_r_L in Hs'. eauto.
Qed.

#[local] Hint Resolve add_to_pack_grows : steps.

(** X5.  [parse_one_unlock] changes nothing but the entitlement indexes
    of the catalogue, and only by adding to them: [free_songs],
    [world_songs] and every pack of [pack_info] keep what they held, and
    the bitmaps and [has_songlist] stay as they were, whether the entry
    is well formed or makes it raise. *)
Theorem parse_one_unlock_grows (e : Env) (song : json) (w : World) :
  only_catalogue_grows w (snd (SonglistParser.parse_one_unlock e song w)).
Proof.
  revert w. change (steps only_catalogue_grows (SonglistParser.parse_one_unlock e song)).
  unfold SonglistParser.parse_one_unlock.
  steps_all.
Qed.

Lemma steps_weaken {A : Type} (R R' : relation World) (m : M A) :
  (forall w w', R w w' -> R' w w') -> steps R m -> steps R' m.
Proof. intros H Hm w. apply H, Hm. Qed.

Lemma only_catalogue_grows_extends (w w' : World) :
  only_catalogue_grows w w' -> only_catalogue_extends w w'.
Proof. intros (C & H). split; [by apply catalogue_grows_extends | done]. Qed.

Lemma update_songs_extends one :
  steps only_catalogue_extends (modify (set_cat (SonglistParser.update_songs one))).
Proof.
  apply steps_modify. intros w. repeat split; simpl; try done.
  - destruct one as [[k r] |]; [| done]. rewrite dom_insert_L. set_solver.
  - intros p s H. eauto.
Qed.

Lemma parse_one_unlock_extends e x :
  steps only_catalogue_extends (SonglistParser.parse_one_unlock e x).
Proof.
  apply (steps_weaken only_catalogue_grows); [apply only_catalogue_grows_extends |].
  unfold SonglistParser.parse_one_unlock. steps_all.
Qed.

#[local] Hint Resolve update_songs_extends parse_one_unlock_extends : steps.

(** X6.  However the catalogue file reads, [parse] changes nothing but
    the catalogue, every song, pack member, free song and world song the
    catalogue held is still there afterwards, and the class attribute
    [has_songlist] is left as it was: the assignment in [parse] binds an
    attribute of the parser object. *)
Theorem parse_extends (e : Env) (self : SonglistParser.t) (w : World) :
  only_catalogue_extends w (snd (SonglistParser.parse e self w)).
Proof.
  revert w. change (steps only_catalogue_extends (SonglistParser.parse e self)).
  unfold SonglistParser.parse. steps_all.
Qed.

Lemma ofold_strip3_empty (l : list pykey) (acc : gset pykey) :
  (forall k, k ∈ l -> exists s, k = KStr s) ->
  KStr "" ∈ l ->
  ofold (fun (acc : gset pykey) i =>
           let? j := SonglistParser.strip3 i in Ret (acc ∪ {[ j ]})) l acc
  = Raise IndexError.
Proof.
  revert acc. induction l as [| k l IH]; intros acc Hstr Hin; simpl.
  - by apply elem_of_nil in Hin.
  - destruct (Hstr k) as [s ->]; [apply list_elem_of_here |].
    destruct (decide (s = "")) as [-> | Hs].
    + reflexivity.
    + rewrite (strip3_strip_one s Hs). simpl. apply IH.
      * intros k' Hk'. apply Hstr. by apply list_elem_of_further.
      * apply elem_of_cons in Hin as [Heq | Hin]; [congruence | done].
Qed.

(** X7.  When the empty string is a world song of the catalogue and one
    of the user's, [get_user_unlocks] raises [IndexError]: [i[-1]] is
    evaluated on it. *)
Theorem get_user_unlocks_empty_world_song (e : Env) (c : Catalogue) (u : User.t) :
  KStr "" ∈ world_songs c ∩ list_to_set (KStr <$> User.world_songs u) ->
  SonglistParser.get_user_unlocks e c (Some u) = Raise IndexError.
Proof.
  intros Hin. unfold SonglistParser.get_user_unlocks.
  rewrite ofold_strip3_empty; [done | |].
  - intros k Hk. apply elem_of_elements, elem_of_intersection in Hk as [_ Hk].
    apply elem_of_list_to_set, list_elem_of_fmap in Hk as (s & -> & _). eauto.
  - by apply elem_of_elements.
Qed.

Lemma get_user_unlocks_empty_world_song_sample :
  SonglistParser.get_user_unlocks (Sample.env None NoFile) Sample.nameless_catalogue
    (Some Sample.carol) = Raise IndexError.
Proof.
  apply (get_user_unlocks_empty_world_song (Sample.env None NoFile)
           Sample.nameless_catalogue Sample.carol).
  apply (bool_decide_unpack _). vm_compute. exact I.
Defined.


(** ** What a scan of a song directory stores *)

Lemma elem_of_scan_song_dir_iff e c song_id d f :
  song_dir_of e song_id = Some d ->
  f ∈ SongFileCache.scan_song_dir c song_id d
  <-> is_Some (file_of e song_id f)
      /\ SonglistParser.is_available_file c song_id f = true.
Proof.
  intros Hd. unfold SongFileCache.scan_song_dir, file_of. rewrite Hd.
  rewrite list_elem_of_In, in_map_iff. split.
  - intros ([name x] & <- & Hin). apply filter_In in Hin as [Hin Hok].
    apply list_elem_of_In, elem_of_map_to_list in Hin. simpl in *.
    apply andb_true_iff in Hok as [Hreg Hok]. rewrite Hin.
    destruct x; [eauto | done].
  - intros [[st Hst] Hok].
    destruct (dir_entries d !! f) as [[st' |] |] eqn:Hf; try done.
    exists (f, RegularFile st'). split; [done |]. apply filter_In. split.
    + by apply list_elem_of_In, elem_of_map_to_list.
    + simpl. by rewrite Hok.
Qed.

Lemma lookup_delete_files_where_false (cond : string -> string -> bool)
  (files : gmap (string * string) file_row) (k : string * string) :
  cond (fst k) (snd k) = false -> delete_files_where cond files !! k = files !! k.
Proof.
  intros Hk. unfold delete_files_where. destruct (files !! k) as [r |] eqn:Hr.
  - by apply map_lookup_filter_Some_2.
  - apply map_lookup_filter_None_2. by left.
Qed.

Lemma sync_file_other e song_id t f w k :
  k <> (song_id, f) ->
  files_of (snd (SongFileCache.sync_file e song_id t f w)) !! k = files_of w !! k.
Proof.
  intros Hk. unfold SongFileCache.sync_file.
  destruct (file_of e song_id f) as [st |].
  - rewrite bind_gets.
    destruct (tbl_files (cache w) !! (song_id, f)) as [row |];
      repeat match goal with |- context [if ?b then _ else _] => destruct b end;
      unfold files_of; simpl; by rewrite lookup_insert_ne.
  - unfold SongFileCache._delete_file, SongFileCache.ensure_schema.
    rewrite bind_ret. unfold files_of. simpl. by rewrite lookup_delete_ne.
Qed.

Lemma sync_file_row e song_id t f w st :
  file_of e song_id f = Some st ->
  row_of_file song_id f st (snd (SongFileCache.sync_file e song_id t f w)).
Proof.
  intros Hst. unfold SongFileCache.sync_file, row_of_file. rewrite Hst, bind_gets.
  destruct (tbl_files (cache w) !! (song_id, f)) as [row |].
  - destruct (Z.eqb_spec (row_size row) (st_size st)) as [Hsize |]; simpl.
    + destruct (Z.eqb_spec (row_mtime_ns row) (st_mtime_ns st)) as [Hmtime |]; simpl.
      * destruct (SONG_FILE_HASH_PRE_CALCULATE e && negb (text_truthy (row_md5 row)));
          unfold files_of; simpl; rewrite lookup_insert_eq; eauto.
      * unfold files_of; simpl; rewrite lookup_insert_eq; eauto.
    + unfold files_of; simpl; rewrite lookup_insert_eq; eauto.
  - unfold files_of; simpl; rewrite lookup_insert_eq; eauto.
Qed.

Lemma for_each_sync_file_row e song_id t names f st w :
  file_of e song_id f = Some st ->
  f ∈ names \/ row_of_file song_id f st w ->
  row_of_file song_id f st (snd (for_each names (SongFileCache.sync_file e song_id t) w)).
Proof.
  intros Hst. revert w. induction names as [| x names IH]; intros w H; simpl.
  - destruct H as [H | H]; [by apply elem_of_nil in H | done].
  - destruct (returns_run _ w (sync_file_returns e song_id t x)) as ([] & w1 & Hrun).
    rewrite (bind_run _ _ _ _ _ Hrun). apply IH.
    assert (Hw1 : w1 = snd (SongFileCache.sync_file e song_id t x w)) by (by rewrite Hrun).
    subst w1. destruct (decide (f = x)) as [-> | Hne].
    + right. by apply sync_file_row.
    + destruct H as [H | (r & Hr & Hrow)].
      * apply elem_of_cons in H as [H | H]; [done | by left].
      * right. exists r. split; [| done].
        rewrite sync_file_other by congruence. done.
Qed.

Lemma for_each_sync_file_other e song_id t names w k :
  fst k <> song_id ->
  files_of (snd (for_each names (SongFileCache.sync_file e song_id t) w)) !! k
  = files_of w !! k.
Proof.
  intros Hk.
  apply (for_each_invariant (fun w1 => files_of w1 !! k = files_of w !! k)); [| done].
  intros f w1 _ Hw1. rewrite sync_file_other; [done |]. intros ->. by apply Hk.
Qed.

Lemma for_each_sync_file_returns e song_id t names w :
  fst (for_each names (SongFileCache.sync_file e song_id t) w) = Ret tt.
Proof.
  destruct (returns_run _ w
    (returns_for_each names _ (sync_file_returns e song_id t))) as ([] & w1 & ->).
  done.
Qed.

Lemma sync_song_scans (e : Env) (song_id : string) (arg : option Z) (w : World)
  (d : song_dir) :
  song_dir_of e song_id = Some d ->
  row_stale w song_id (default (dir_mtime_ns d) arg) ->
  let w' := snd (SongFileCache.sync_song e song_id arg w) in
  fst (SongFileCache.sync_song e song_id arg w) = Ret tt /\
  (forall f, is_Some (files_of w' !! (song_id, f))
             <-> is_Some (file_of e song_id f)
                 /\ SonglistParser.is_available_file (cat w) song_id f = true) /\
  (forall f r st, files_of w' !! (song_id, f) = Some r ->
                  file_of e song_id f = Some st ->
                  row_size r = st_size st /\ row_mtime_ns r = st_mtime_ns st) /\
  (forall s f, s <> song_id -> files_of w' !! (s, f) = files_of w !! (s, f)).
Proof.
  intros Hd Hstale. unfold SongFileCache.sync_song, SongFileCache.ensure_schema.
  rewrite bind_ret, Hd, bind_gets.
  set (m := default (dir_mtime_ns d) arg) in *.
  unfold row_stale, songs_of in Hstale.
  assert (Hrow : match tbl_songs (cache w) !! song_id with
                 | Some r => Z.eqb (row_dir_mtime_ns r) m
                 | None => false
                 end = false).
  { destruct (tbl_songs (cache w) !! song_id); [by apply Z.eqb_neq | done]. }
  rewrite Hrow, bind_now, bind_modify, bind_gets.
  set (t := time e (clock_reads w)).
  set (w0 := set_cache _ _).
  change (cat w0) with (cat w).
  assert (Hfiles0 : files_of w0 = files_of w) by done.
  pose proof (elem_of_scan_song_dir_iff e (cat w) song_id d) as Hscan.
  destruct (SongFileCache.scan_song_dir (cat w) song_id d) as [| f0 fs] eqn:Hnames.
  - simpl. split; [done |]. unfold files_of in *. simpl.
    split; [| split].
    + intros f. rewrite <- (Hscan f Hd). split; [| by intros H%elem_of_nil].
      intros [r Hr]. unfold delete_files_where in Hr.
      apply map_lookup_filter_Some_1_2 in Hr. simpl in Hr.
      by rewrite String.eqb_refl in Hr.
    + intros f r st Hr. unfold delete_files_where in Hr.
      apply map_lookup_filter_Some_1_2 in Hr. simpl in Hr.
      by rewrite String.eqb_refl in Hr.
    + intros s f Hs. apply lookup_delete_files_where_false. simpl.
      by apply String.eqb_neq.
  - rewrite bind_modify. set (w1 := set_cache _ w0).
    rewrite for_each_sync_file_returns. split; [done |].
    assert (Hw1 : forall f, is_Some (files_of w1 !! (song_id, f)) -> f ∈ f0 :: fs).
    { intros f [r Hr]. unfold files_of in Hr. simpl in Hr.
      unfold delete_files_where in Hr. apply map_lookup_filter_Some_1_2 in Hr.
      simpl in Hr. rewrite String.eqb_refl in Hr. simpl in Hr.
      apply negb_false_iff in Hr. unfold mem in Hr.
      by apply bool_decide_eq_true_1 in Hr. }
    assert (Hwithin : rows_within song_id (f0 :: fs)
              (snd (for_each (f0 :: fs) (SongFileCache.sync_file e song_id t) w1))).
    { apply for_each_invariant; [| exact Hw1].
      intros f w2 Hf Hw2. by apply sync_file_rows_within. }
    assert (Hrows : forall f st, file_of e song_id f = Some st -> f ∈ f0 :: fs ->
              row_of_file song_id f st
                (snd (for_each (f0 :: fs) (SongFileCache.sync_file e song_id t) w1))).
    { intros f st Hst Hf. apply for_each_sync_file_row; [done | by left]. }
    split; [| split].
    + intros f. rewrite <- (Hscan f Hd). split; [apply Hwithin |].
      intros Hf. pose proof Hf as Hf'. apply (Hscan f Hd) in Hf' as [[st Hst] _].
      destruct (Hrows f st Hst Hf) as (r & Hr & _). eauto.
    + intros f r st Hr Hst.
      assert (Hf : f ∈ f0 :: fs) by (apply Hwithin; eauto).
      destruct (Hrows f st Hst Hf) as (r' & Hr' & Hsize & Hmtime).
      rewrite Hr in Hr'. by injection Hr' as <-.
    + intros s f Hs. rewrite for_each_sync_file_other by done.
      unfold files_of. simpl. apply lookup_delete_files_where_false. simpl.
      apply andb_false_iff. left. by apply String.eqb_neq.
Qed.

(** X8.  When [sync_song] scans a directory (the song has no row in
    [songs], or one with another modification time), it returns, and the
    rows of [files] for the song are then exactly the regular files of
    the directory that the catalogue allows, each with the size and the
    modification time of its file; the rows of other songs are as they
    were. *)
Theorem sync_song_rescan (e : Env) (song_id : string) (arg : option Z) (w : World)
  (d : song_dir) :
  song_dir_of e song_id = Some d ->
  row_stale w song_id (default (dir_mtime_ns d) arg) ->
  let w' := snd (SongFileCache.sync_song e song_id arg w) in
  fst (SongFileCache.sync_song e song_id arg w) = Ret tt /\
  (forall f, is_Some (files_of w' !! (song_id, f))
             <-> is_Some (file_of e song_id f)
                 /\ SonglistParser.is_available_file (cat w) song_id f = true) /\
  (forall f r st, files_of w' !! (song_id, f) = Some r ->
                  file_of e song_id f = Some st ->
                  row_size r = st_size st /\ row_mtime_ns r = st_mtime_ns st) /\
  (forall s f, s <> song_id -> files_of w' !! (s, f) = files_of w !! (s, f)).
Proof. exact (sync_song_scans e song_id arg w d). Qed.

Lemma sync_song_rescan_sample :
  fst (SongFileCache.sync_song (Sample.env (Some Sample.tree) NoFile) "abc" None Sample.fresh)
  = Ret tt /\
  (forall f,
     is_Some (files_of
                (snd (SongFileCache.sync_song (Sample.env (Some Sample.tree) NoFile)
                        "abc" None Sample.fresh)) !! ("abc", f))
     <-> is_Some (file_of (Sample.env (Some Sample.tree) NoFile) "abc" f)
         /\ SonglistParser.is_available_file (cat Sample.fresh) "abc" f = true) /\
  (forall f r st,
     files_of (snd (SongFileCache.sync_song (Sample.env (Some Sample.tree) NoFile)
                      "abc" None Sample.fresh)) !! ("abc", f) = Some r ->
     file_of (Sample.env (Some Sample.tree) NoFile) "abc" f = Some st ->
     row_size r = st_size st /\ row_mtime_ns r = st_mtime_ns st) /\
  (forall s f, s <> "abc" ->
     files_of (snd (SongFileCache.sync_song (Sample.env (Some Sample.tree) NoFile)
                      "abc" None Sample.fresh)) !! (s, f)
     = files_of Sample.fresh !! (s, f)).
Proof.
  eapply (sync_song_rescan (Sample.env (Some Sample.tree) NoFile) "abc" None Sample.fresh).
  - vm_compute. reflexivity.
  - vm_compute. exact I.
Defined.

(** ** A song whose directory is gone *)

Lemma _delete_song_rows song_id w :
  SongFileCache._delete_song song_id w
  = (Ret tt,
     set_cache (with_songs (delete song_id))
       (set_cache (with_files (delete_files_where (fun s _ => String.eqb s song_id))) w)).
Proof. reflexivity. Qed.

(** X9.  For a song whose directory is not there, [add_one_song] stores
    the empty object under the song's key and adds no download; the
    song's row in [songs] and all its rows in [files] are removed, and
    the rows of other songs stay. *)
Theorem add_one_song_missing_directory (e : Env) (self : DownloadList.t)
  (song_id : string) (w : World) :
  song_dir_of e song_id = None ->
  let w' := snd (DownloadList.add_one_song e self song_id w) in
  fst (DownloadList.add_one_song e self song_id w)
  = Ret (DownloadList.Build (DownloadList.super self) (DownloadList.song_ids self)
           (DownloadList.url_flag self) (DownloadList.downloads self)
           (dict_set song_id (JObj []) (DownloadList.urls self))) /\
  songs_of w' !! song_id = None /\
  (forall f, files_of w' !! (song_id, f) = None) /\
  (forall s, s <> song_id -> songs_of w' !! s = songs_of w !! s) /\
  (forall s f, s <> song_id -> files_of w' !! (s, f) = files_of w !! (s, f)).
Proof.
  intros Hd. unfold DownloadList.add_one_song, DownloadList.get_one_song_file_names.
  rewrite Hd. unfold bind at 1 2. rewrite _delete_song_rows. simpl.
  split; [done |]. unfold songs_of, files_of. simpl.
  split; [by rewrite lookup_delete_eq |].
  split; [| split].
  - intros f. unfold delete_files_where. apply map_lookup_filter_None_2.
    right. intros r _. simpl. by rewrite String.eqb_refl.
  - intros s Hs. by rewrite lookup_delete_ne.
  - intros s f Hs. apply lookup_delete_files_where_false. simpl.
    by apply String.eqb_neq.
Qed.

Lemma add_one_song_missing_directory_sample :
  fst (DownloadList.add_one_song (Sample.env (Some Sample.tree) NoFile)
         (DownloadList.init (Some Sample.alice)) "gone" Sample.scanned)
  = Ret (DownloadList.Build (UserDownload.init (Some Sample.alice)) None None []
           [("gone", JObj [])]) /\
  songs_of (snd (DownloadList.add_one_song (Sample.env (Some Sample.tree) NoFile)
                   (DownloadList.init (Some Sample.alice)) "gone" Sample.scanned))
    !! "abc"
  = songs_of Sample.scanned !! "abc".
Proof.
  destruct (add_one_song_missing_directory (Sample.env (Some Sample.tree) NoFile)
              (DownloadList.init (Some Sample.alice)) "gone" Sample.scanned)
    as (Hret & _ & _ & Hsongs & _).
  - vm_compute. reflexivity.
  - split; [exact Hret |]. apply Hsongs. discriminate.
Defined.

(** ** What a full scan stores *)

Lemma elem_of_scan_root e root id :
  SONG_FILE_FOLDER_PATH e = Some root ->
  id ∈ SongFileCache.scan_root root
  <-> is_Some (song_dir_of e id) /\ id <> "." /\ id <> "..".
Proof.
  intros Hroot. unfold SongFileCache.scan_root, song_dir_of. rewrite Hroot.
  rewrite list_elem_of_In, in_map_iff. split.
  - intros ([name x] & <- & Hin). apply filter_In in Hin as [Hin Hok].
    apply list_elem_of_In, elem_of_map_to_list in Hin. simpl in *.
    apply andb_true_iff in Hok as [Hok Hdotdot].
    apply andb_true_iff in Hok as [Hdir Hdot].
    apply negb_true_iff, String.eqb_neq in Hdot, Hdotdot.
    rewrite Hin. destruct x; [eauto | done].
  - intros ([d Hd] & Hdot & Hdotdot).
    destruct (root_entries root !! id) as [[d' |] |] eqn:Hid; try done.
    exists (id, Directory d'). split; [done |]. apply filter_In. split.
    + by apply list_elem_of_In, elem_of_map_to_list.
    + simpl. apply String.eqb_neq in Hdot, Hdotdot. by rewrite Hdot, Hdotdot.
Qed.

Lemma NoDup_scan_root root : NoDup (SongFileCache.scan_root root).
Proof.
  unfold SongFileCache.scan_root.
  assert (H : forall (f : string * root_entry -> bool) (l : list (string * root_entry)),
            NoDup (map fst l) -> NoDup (map fst (List.filter f l))).
  { intros f l. induction l as [| x l IH]; simpl; [done |].
    intros Hnd. apply NoDup_cons in Hnd as [Hx Hnd].
    destruct (f x); simpl; [| by apply IH].
    apply NoDup_cons. split; [| by apply IH].
    intros Hin. apply Hx. apply list_elem_of_In, in_map_iff in Hin as (y & Hy & Hin).
    apply filter_In in Hin as [Hin _].
    apply list_elem_of_In, in_map_iff. eauto. }
  apply H, NoDup_fst_map_to_list.
Qed.

(** X10.  When the root directory is there, [sync_all] returns, and
    afterwards [songs] has a row exactly for the directories of the root
    other than [.] and [..], each with the directory's modification time,
    and every row of [files] belongs to a song that has a row in [songs]. *)
Theorem sync_all_lists_directories (e : Env) (root : root_dir) (w : World) :
  SONG_FILE_FOLDER_PATH e = Some root ->
  let w' := snd (SongFileCache.sync_all e w) in
  fst (SongFileCache.sync_all e w) = Ret tt /\
  (forall id, is_Some (songs_of w' !! id)
              <-> is_Some (song_dir_of e id) /\ id <> "." /\ id <> "..") /\
  (forall id r d, songs_of w' !! id = Some r -> song_dir_of e id = Some d ->
                  row_dir_mtime_ns r = dir_mtime_ns d) /\
  (forall s f, is_Some (files_of w' !! (s, f)) -> is_Some (songs_of w' !! s)).
Proof.
  intros Hroot w'. destruct (sync_all_establishes e w) as [Hret Hinv].
  fold w' in Hinv. unfold scanned_inv in Hinv. rewrite Hroot in Hinv.
  destruct Hinv as (Hcur & Hsongs & Hfiles).
  split; [done |]. split; [| split].
  - intros id. rewrite <- (elem_of_scan_root e root id Hroot). split; [apply Hsongs |].
    intros Hin. destruct (Hcur id Hin) as (d & r & _ & Hr & _). unfold songs_of. eauto.
  - intros id r d Hr Hd.
    assert (Hin : id ∈ SongFileCache.scan_root root) by (apply Hsongs; eauto).
    destruct (Hcur id Hin) as (d' & r' & Hd' & Hr' & Hm).
    unfold songs_of in Hr. congruence.
  - intros s f Hrow. destruct (Hcur s (Hfiles s f Hrow)) as (d & r & _ & Hr & _).
    unfold songs_of. eauto.
Qed.

Lemma sync_all_lists_directories_sample :
  fst (SongFileCache.sync_all (Sample.env (Some Sample.tree) NoFile) Sample.fresh) = Ret tt /\
  (forall id,
     is_Some (songs_of (snd (SongFileCache.sync_all (Sample.env (Some Sample.tree) NoFile)
                               Sample.fresh)) !! id)
     <-> is_Some (song_dir_of (Sample.env (Some Sample.tree) NoFile) id)
         /\ id <> "." /\ id <> "..") /\
  (forall id r d,
     songs_of (snd (SongFileCache.sync_all (Sample.env (Some Sample.tree) NoFile)
                      Sample.fresh)) !! id = Some r ->
     song_dir_of (Sample.env (Some Sample.tree) NoFile) id = Some d ->
     row_dir_mtime_ns r = dir_mtime_ns d) /\
  (forall s f,
     is_Some (files_of (snd (SongFileCache.sync_all (Sample.env (Some Sample.tree) NoFile)
                               Sample.fresh)) !! (s, f)) ->
     is_Some (songs_of (snd (SongFileCache.sync_all (Sample.env (Some Sample.tree) NoFile)
                               Sample.fresh)) !! s)).
Proof.
  apply (sync_all_lists_directories (Sample.env (Some Sample.tree) NoFile) Sample.tree
           Sample.fresh).
  reflexivity.
Defined.

Lemma files_scanned_ext e c song_id w w' :
  (forall f, files_of w' !! (song_id, f) = files_of w !! (song_id, f)) ->
  files_scanned e c song_id w -> files_scanned e c song_id w'.
Proof.
  intros Heq [Hrows Hstat]. split.
  - intros f. rewrite Heq. apply Hrows.
  - intros f r st. rewrite Heq. apply Hstat.
Qed.

Lemma for_each_sync_each_scans e ids w :
  NoDup ids ->
  (forall id, id ∈ ids ->
     exists d, song_dir_of e id = Some d /\ row_stale w id (dir_mtime_ns d)) ->
  let w' := snd (for_each ids (sync_each e) w) in
  cat w' = cat w /\
  (forall s, s ∈ ids -> files_scanned e (cat w) s w') /\
  (forall s f, s ∉ ids -> files_of w' !! (s, f) = files_of w !! (s, f)).
Proof.
  revert w. induction ids as [| id ids IH]; intros w Hnd Hstale; simpl.
  - split; [done |]. split; [| done]. intros s Hs. by apply elem_of_nil in Hs.
  - apply NoDup_cons in Hnd as [Hid Hnd].
    destruct (Hstale id) as (d & Hd & Hrow); [apply list_elem_of_here |].
    destruct (returns_run _ w (sync_each_returns e id)) as ([] & w1 & Hrun).
    rewrite (bind_run _ _ _ _ _ Hrun).
    assert (Hw1 : w1 = snd (SongFileCache.sync_song e id (Some (dir_mtime_ns d)) w)).
    { unfold sync_each in Hrun. rewrite Hd in Hrun. by rewrite Hrun. }
    destruct (sync_song_scans e id (Some (dir_mtime_ns d)) w d Hd Hrow)
      as (_ & Hrows & Hstat & Hother).
    rewrite <- Hw1 in Hrows, Hstat, Hother.
    assert (Hcat : cat w1 = cat w).
    { rewrite Hw1. by apply (sync_song_preserves cat). }
    destruct (IH w1 Hnd) as (Hcat' & Hscanned & Hrest).
    { intros id' Hin. destruct (Hstale id') as (d' & Hd' & Hrow');
        [by apply list_elem_of_further |].
      exists d'. split; [done |]. unfold row_stale in *. rewrite Hw1.
      rewrite (sync_song_other_row e id id' w d _ Hd); [done |].
      intros ->. by apply Hid. }
    split; [congruence |]. split.
    + intros s Hs. apply elem_of_cons in Hs as [-> | Hs].
      * apply (files_scanned_ext e (cat w) id w1); [intros f; by apply Hrest |].
        by split.
      * rewrite <- Hcat. by apply Hscanned.
    + intros s f Hs. apply not_elem_of_cons in Hs as [Hne Hs].
      rewrite Hrest by done. by apply Hother.
Qed.

(** X11.  When the root directory is there and no directory of it has a
    current row in [songs] (the cache database is new, or every song
    directory has been modified), [sync_all] leaves in [files] exactly
    one row for each regular file, allowed by the catalogue, of each
    directory of the root other than [.] and [..], with the size and the
    modification time of the file. *)
Theorem sync_all_rescans (e : Env) (root : root_dir) (w : World) :
  SONG_FILE_FOLDER_PATH e = Some root ->
  (forall id d, song_dir_of e id = Some d -> row_stale w id (dir_mtime_ns d)) ->
  let w' := snd (SongFileCache.sync_all e w) in
  (forall s f, is_Some (files_of w' !! (s, f))
               <-> s <> "." /\ s <> ".."
                   /\ is_Some (file_of e s f)
                   /\ SonglistParser.is_available_file (cat w) s f = true) /\
  (forall s f r st, files_of w' !! (s, f) = Some r -> file_of e s f = Some st ->
                    row_size r = st_size st /\ row_mtime_ns r = st_mtime_ns st).
Proof.
  intros Hroot Hstale. rewrite (sync_all_unfold e root w Hroot).
  destruct (for_each_sync_each_scans e (SongFileCache.scan_root root) w)
    as (_ & Hscanned & _); [apply NoDup_scan_root | |].
  { intros id Hin. apply (elem_of_scan_root e root id Hroot) in Hin as [[d Hd] _]. eauto. }
  destruct (returns_run _ w
    (returns_for_each (SongFileCache.scan_root root) _ (sync_each_returns e)))
    as ([] & w1 & Hrun).
  rewrite Hrun in Hscanned. simpl in Hscanned. rewrite (bind_run _ _ _ _ _ Hrun).
  assert (Hdir : forall s f, is_Some (file_of e s f) -> is_Some (song_dir_of e s)).
  { intros s f. unfold file_of. destruct (song_dir_of e s); [eauto | by intros []]. }
  pose proof (elem_of_scan_root e root) as Hin.
  destruct (SongFileCache.scan_root root) as [| id0 ids] eqn:Hids.
  - simpl. unfold files_of. simpl. split.
    + intros s f. rewrite lookup_empty. split; [by intros [] |].
      intros (Hdot & Hdotdot & Hfile & _). exfalso.
      eapply elem_of_nil, (Hin s Hroot). eauto.
    + intros s f r st. by rewrite lookup_empty.
  - rewrite bind_modify. unfold modify. cbn [snd].
    assert (Hkeep : forall s f,
      files_of (set_cache (with_files
                  (delete_files_where (fun s _ => negb (mem s (id0 :: ids)))))
                  (set_cache (with_songs
                     (delete_songs_where (fun s => negb (mem s (id0 :: ids))))) w1))
        !! (s, f)
      = if mem s (id0 :: ids) then files_of w1 !! (s, f) else None).
    { intros s f. unfold files_of. simpl. destruct (mem s (id0 :: ids)) eqn:Hmem.
      - apply lookup_delete_files_where_false. simpl. by rewrite Hmem.
      - unfold delete_files_where. apply map_lookup_filter_None_2. right.
        intros r _. simpl. by rewrite Hmem. }
    split.
    + intros s f. rewrite Hkeep. unfold mem.
      destruct (decide (s ∈ id0 :: ids)) as [Hs | Hs].
      * rewrite bool_decide_true by done.
        destruct (Hscanned s Hs) as [Hrows _]. rewrite Hrows.
        apply (Hin s Hroot) in Hs as (_ & Hdot & Hdotdot). tauto.
      * rewrite bool_decide_false by done. split; [by intros [] |].
        intros (Hdot & Hdotdot & Hfile & _). exfalso. apply Hs, (Hin s Hroot). eauto.
    + intros s f r st. rewrite Hkeep. unfold mem.
      destruct (decide (s ∈ id0 :: ids)) as [Hs | Hs].
      * rewrite bool_decide_true by done. destruct (Hscanned s Hs) as [_ Hstat].
        apply Hstat.
      * by rewrite bool_decide_false.
Qed.

Lemma sync_all_rescans_sample :
  (forall s f,
     is_Some (files_of (snd (SongFileCache.sync_all (Sample.env (Some Sample.tree) NoFile)
                               Sample.fresh)) !! (s, f))
     <-> s <> "." /\ s <> ".."
         /\ is_Some (file_of (Sample.env (Some Sample.tree) NoFile) s f)
         /\ SonglistParser.is_available_file (cat Sample.fresh) s f = true) /\
  (forall s f r st,
     files_of (snd (SongFileCache.sync_all (Sample.env (Some Sample.tree) NoFile)
                      Sample.fresh)) !! (s, f) = Some r ->
     file_of (Sample.env (Some Sample.tree) NoFile) s f = Some st ->
     row_size r = st_size st /\ row_mtime_ns r = st_mtime_ns st).
Proof.
  apply (sync_all_rescans (Sample.env (Some Sample.tree) NoFile) Sample.tree Sample.fresh).
  - reflexivity.
  - intros id d _. exact I.
Defined.


(** ** Checksums *)

#[global] Instance digests_kept_preorder e : PreOrder (digests_kept e).
Proof.
  split.
  - by intros w H.
  - intros w1 w2 w3 H12 H23 H. by apply H23, H12.
Qed.

Lemma digests_kept_view e w w' : digest_view w' = digest_view w -> digests_kept e w w'.
Proof.
  unfold digest_view, digests_kept, digests_sound. intros Hview.
  injection Hview as -> ->. done.
Qed.

Lemma rows_digest_sound_insert (e : Env) files s f r :
  rows_digest_sound e files ->
  (forall st h, file_of e s f = Some st ->
     row_size r = st_size st -> row_mtime_ns r = st_mtime_ns st ->
     row_md5 r = Some h -> h <> "" -> h = file_md5 st) ->
  rows_digest_sound e (<[ (s, f) := r ]> files).
Proof.
  intros Hfiles Hr s' f' r' st h Hrow. destruct (decide ((s', f') = (s, f))) as [Heq | Hne].
  - injection Heq as -> ->. rewrite lookup_insert_eq in Hrow. injection Hrow as <-.
    apply Hr.
  - rewrite lookup_insert_ne in Hrow by done. by apply Hfiles.
Qed.

Lemma rows_digest_sound_subseteq (e : Env) (files files' : gmap (string * string) file_row) :
  files' ⊆ files -> rows_digest_sound e files -> rows_digest_sound e files'.
Proof.
  intros Hsub Hfiles s f r st h Hrow. apply Hfiles.
  by apply (lookup_weaken files' files).
Qed.

Lemma with_files_subseteq_digests e g :
  (forall files, g files ⊆ files) ->
  steps (digests_kept e) (modify (set_cache (with_files g))).
Proof.
  intros Hg. apply steps_modify. intros w [Hrows Hmemo]. split; [| done].
  apply (rows_digest_sound_subseteq e (files_of w)); [apply Hg | done].
Qed.

Lemma delete_files_where_digests e cond :
  steps (digests_kept e) (modify (set_cache (with_files (delete_files_where cond)))).
Proof. apply with_files_subseteq_digests. intros files. apply map_filter_subseteq. Qed.

Lemma delete_file_digests e k :
  steps (digests_kept e) (modify (set_cache (with_files (delete k)))).
Proof. apply with_files_subseteq_digests. intros files. apply delete_subseteq. Qed.

Lemma clear_files_digests e :
  steps (digests_kept e) (modify (set_cache (with_files (fun _ => ∅)))).
Proof. apply with_files_subseteq_digests. intros files. apply map_empty_subseteq. Qed.

Lemma with_songs_digests e g :
  steps (digests_kept e) (modify (set_cache (with_songs g))).
Proof. apply steps_modify. intros w. by apply digests_kept_view. Qed.

Lemma with_meta_digests e g :
  steps (digests_kept e) (modify (set_cache (with_meta g))).
Proof. apply steps_modify. intros w. by apply digests_kept_view. Qed.

Lemma now_digests e e' : steps (digests_kept e) (now e').
Proof. intros w. by apply digests_kept_view. Qed.

Lemma names_cached_digests e g :
  steps (digests_kept e) (modify (set_memo (with_names_cached g))).
Proof. apply steps_modify. intros w. by apply digests_kept_view. Qed.

Lemma ids_cached_digests e g :
  steps (digests_kept e) (modify (set_memo (with_ids_cached g))).
Proof. apply steps_modify. intros w. by apply digests_kept_view. Qed.

Lemma set_cat_digests e g : steps (digests_kept e) (modify (set_cat g)).
Proof. apply steps_modify. intros w. by apply digests_kept_view. Qed.

Lemma set_download_token_digests e g :
  steps (digests_kept e) (modify (set_download_token g)).
Proof. apply steps_modify. intros w. by apply digests_kept_view. Qed.

#[local] Hint Resolve delete_files_where_digests delete_file_digests clear_files_digests
  with_songs_digests with_meta_digests now_digests names_cached_digests
  ids_cached_digests set_cat_digests set_download_token_digests : steps.

Lemma sync_file_digests e song_id t f :
  steps (digests_kept e) (SongFileCache.sync_file e song_id t f).
Proof.
  unfold SongFileCache.sync_file.
  destruct (file_of e song_id f) as [st |] eqn:Hst.
  2: { unfold SongFileCache._delete_file, SongFileCache.ensure_schema. steps_all. }
  intros w [Hrows Hmemo]. rewrite bind_gets.
  assert (Hins : forall r,
    (forall h, row_size r = st_size st -> row_mtime_ns r = st_mtime_ns st ->
               row_md5 r = Some h -> h <> "" -> h = file_md5 st) ->
    digests_sound e
      (snd (modify (set_cache (with_files (<[ (song_id, f) := r ]>))) w))).
  { intros r Hr. split; [| done]. apply rows_digest_sound_insert; [done |].
    intros st' h Hst'. rewrite Hst in Hst'. injection Hst' as <-. apply Hr. }
  destruct (tbl_files (cache w) !! (song_id, f)) as [row |] eqn:Hrow.
  - destruct (Z.eqb_spec (row_size row) (st_size st)) as [Hsize |]; simpl.
    + destruct (Z.eqb_spec (row_mtime_ns row) (st_mtime_ns st)) as [Hmtime |]; simpl.
      * destruct (SONG_FILE_HASH_PRE_CALCULATE e && negb (text_truthy (row_md5 row)));
          apply Hins; simpl.
        -- intros h _ _ Hh _. congruence.
        -- intros h _ _. by apply (Hrows song_id f row st h).
      * apply Hins. simpl. intros h _ _ Hh _.
        destruct (SONG_FILE_HASH_PRE_CALCULATE e); congruence.
    + apply Hins. simpl. intros h _ _ Hh _.
      destruct (SONG_FILE_HASH_PRE_CALCULATE e); congruence.
  - apply Hins. simpl. intros h _ _ Hh _.
    destruct (SONG_FILE_HASH_PRE_CALCULATE e); congruence.
Qed.

#[local] Hint Resolve sync_file_digests : steps.

Lemma sync_song_digests e song_id m :
  steps (digests_kept e) (SongFileCache.sync_song e song_id m).
Proof.
  unfold SongFileCache.sync_song, SongFileCache._delete_song, SongFileCache.ensure_schema.
  steps_all.
Qed.

#[local] Hint Resolve sync_song_digests : steps.

Lemma sync_all_digests e : steps (digests_kept e) (SongFileCache.sync_all e).
Proof. unfold SongFileCache.sync_all, SongFileCache.ensure_schema. steps_all. Qed.

#[local] Hint Resolve sync_all_digests : steps.

Lemma text_truthy_Some (x : option string) :
  text_truthy x = true -> exists h, x = Some h /\ h <> "".
Proof.
  destruct x as [h |]; [| done]. simpl. intros H. exists h. split; [done |].
  intros ->. done.
Qed.

Lemma cache_get_song_file_md5_digest e song_id f mt sz w :
  digests_sound e w ->
  digests_sound e (snd (SongFileCache.get_song_file_md5 e song_id f mt sz w)) /\
  match file_of e song_id f with
  | None => fst (SongFileCache.get_song_file_md5 e song_id f mt sz w) = Ret None
  | Some st =>
      mt = st_mtime_ns st -> sz = st_size st ->
      fst (SongFileCache.get_song_file_md5 e song_id f mt sz w) = Ret (Some (file_md5 st))
  end.
Proof.
  intros [Hrows Hmemo].
  unfold SongFileCache.get_song_file_md5, SongFileCache.ensure_schema.
  rewrite bind_ret. destruct (file_of e song_id f) as [st |] eqn:Hst.
  2: { unfold SongFileCache._delete_file, SongFileCache.ensure_schema. simpl.
       split; [| done]. split; [| done].
       apply (rows_digest_sound_subseteq e (files_of w)); [apply delete_subseteq | done]. }
  rewrite bind_gets, bind_now.
  assert (Hcompute :
    let r :=
      (modify (set_cache (with_files
         (<[ (song_id, f) := FileRow sz mt (Some (file_md5 st)) (time e (clock_reads w)) ]>))) ;;
       match song_dir_of e song_id with
       | Some d =>
           modify (set_cache (with_songs (fun rows =>
             match rows !! song_id with
             | Some _ => rows
             | None => <[ song_id := SongRow (dir_mtime_ns d) (time e (clock_reads w)) ]> rows
             end)))
       | None => ret tt
       end ;;
       ret (Some (file_md5 st))) (snd (now e w)) in
    digests_sound e (snd r) /\ fst r = Ret (Some (file_md5 st))).
  { rewrite bind_modify. destruct (song_dir_of e song_id) as [d |]; simpl.
    - split; [| done]. split; [| done]. unfold files_of. simpl.
      apply rows_digest_sound_insert; [done |]. simpl. intros; congruence.
    - split; [| done]. split; [| done]. unfold files_of. simpl.
      apply rows_digest_sound_insert; [done |]. simpl. intros; congruence. }
  destruct Hcompute as [Hsound Hvalue].
  destruct (tbl_files (cache w) !! (song_id, f)) as [r |] eqn:Hrow; [| by split].
  destruct (Z.eqb (row_size r) sz && Z.eqb (row_mtime_ns r) mt && text_truthy (row_md5 r))
    eqn:Hsame; [| by split].
  apply andb_true_iff in Hsame as [Hsame Htruthy].
  apply andb_true_iff in Hsame as [Hsize Hmtime].
  apply Z.eqb_eq in Hsize, Hmtime.
  apply text_truthy_Some in Htruthy as (h & Hh & Hne).
  rewrite bind_modify. simpl. split.
  - split; [| done]. unfold files_of. simpl.
    apply rows_digest_sound_insert; [done |]. simpl.
    intros st' h' Hst'. by apply (Hrows song_id f r st' h').
  - intros -> ->. rewrite Hh. do 2 f_equal. by apply (Hrows song_id f r st h).
Qed.

Lemma cache_get_song_file_md5_digests e song_id f mt sz :
  steps (digests_kept e) (SongFileCache.get_song_file_md5 e song_id f mt sz).
Proof. intros w H. by apply cache_get_song_file_md5_digest. Qed.

Lemma memo_digest_sound_hit e key v c :
  memo_digest_sound e c -> (key, v) ∈ c -> memo_digest_sound e (lru_hit key v c).
Proof.
  intros Hc Hin s f st v' Hin'. apply elem_of_lru_hit in Hin' as [Heq | Hin'].
  - injection Heq as <- ->. by apply Hc.
  - by apply Hc.
Qed.

Lemma memo_digest_sound_miss e n s f st c :
  memo_digest_sound e c -> file_of e s f = Some st ->
  memo_digest_sound e
    (lru_miss n (s, f, st_mtime_ns st, st_size st) (Some (file_md5 st)) c).
Proof.
  intros Hc Hst s' f' st' v' Hin' Hst'. apply elem_of_lru_miss in Hin' as [Heq | Hin'].
  - injection Heq as -> -> _ _ ->. congruence.
  - by apply (Hc s' f' st').
Qed.

Lemma get_song_file_md5_sound e song_id f w :
  digests_sound e w ->
  fst (get_song_file_md5 e song_id f w) = Ret (file_md5 <$> file_of e song_id f) /\
  digests_sound e (snd (get_song_file_md5 e song_id f w)).
Proof.
  intros Hw. unfold get_song_file_md5.
  destruct (file_of e song_id f) as [st |] eqn:Hst.
  2: { unfold SongFileCache._delete_file, SongFileCache.ensure_schema. simpl.
       split; [done |]. destruct Hw as [Hrows Hmemo]. split; [| done].
       apply (rows_digest_sound_subseteq e (files_of w)); [apply delete_subseteq | done]. }
  unfold _get_song_file_md5_cached. rewrite bind_gets.
  destruct (lru_find _ _) as [v |] eqn:Hfind.
  - apply lru_find_elem_of in Hfind. destruct Hw as [Hrows Hmemo].
    rewrite bind_modify. simpl. split.
    + f_equal. by apply (Hmemo song_id f st v).
    + split; [done |]. simpl. by apply memo_digest_sound_hit.
  - destruct (cache_get_song_file_md5_digest e song_id f (st_mtime_ns st) (st_size st) w Hw)
      as [[Hrows Hmemo] Hvalue].
    rewrite Hst in Hvalue. specialize (Hvalue eq_refl eq_refl).
    destruct (SongFileCache.get_song_file_md5 e song_id f (st_mtime_ns st) (st_size st) w)
      as [o w1] eqn:Hrun. simpl in *. subst o.
    rewrite (bind_run _ _ _ _ _ Hrun), bind_modify. simpl.
    split; [done |]. split; [exact Hrows |]. simpl.
    by apply memo_digest_sound_miss.
Qed.

(** X12.  As long as every digest stored for a file's size and
    modification time is the digest of that file, [get_song_file_md5]
    returns the digest of the file, [None] when there is no such file,
    and the stored digests are still sound afterwards. *)
Theorem get_song_file_md5_is_digest (e : Env) (song_id file_name : string) (w : World) :
  digests_sound e w ->
  fst (get_song_file_md5 e song_id file_name w)
  = Ret (file_md5 <$> file_of e song_id file_name) /\
  digests_sound e (snd (get_song_file_md5 e song_id file_name w)).
Proof. apply get_song_file_md5_sound. Qed.

Lemma get_song_file_md5_digests e song_id f :
  steps (digests_kept e) (get_song_file_md5 e song_id f).
Proof. intros w H. by apply get_song_file_md5_sound. Qed.

Lemma os_urandom_digests e e' : steps (digests_kept e) (os_urandom e').
Proof. intros w. by apply digests_kept_view. Qed.

#[local] Hint Resolve cache_get_song_file_md5_digests get_song_file_md5_digests
  os_urandom_digests : steps.

Lemma parse_digests e e' self : steps (digests_kept e) (SonglistParser.parse e' self).
Proof.
  unfold SonglistParser.parse, SonglistParser.parse_one_unlock. steps_all.
Qed.

Lemma initialize_cache_digests e :
  steps (digests_kept e) (DownloadList.initialize_cache e).
Proof.
  unfold DownloadList.initialize_cache, SonglistParser.init, SongFileCache.ensure_schema.
  apply steps_bind; [apply _ | apply parse_digests | intros _].
  steps_all.
Qed.

Lemma clear_all_cache_digests e : steps (digests_kept e) DownloadList.clear_all_cache.
Proof.
  intros w [Hrows Hmemo]. split; [done |]. simpl.
  intros s f st v Hin. by apply elem_of_nil in Hin.
Qed.

Lemma add_songs_digests e self arg :
  steps (digests_kept e) (DownloadList.add_songs e self arg).
Proof.
  unfold DownloadList.add_songs, DownloadList.add_one_song,
    DownloadList.get_all_song_ids, DownloadList._get_all_cached_song_ids,
    DownloadList.get_one_song_file_names, DownloadList._get_cached_song_file_names,
    DownloadList.clear_download_token, DownloadList.insert_download_tokens,
    DownloadList.add_file, DownloadList.checksum_and_url,
    UserDownload.hash, UserDownload.url, UserDownload.generate_token,
    SongFileCache.get_all_song_ids, SongFileCache.get_song_file_names,
    SongFileCache._delete_song, SongFileCache.ensure_schema.
  steps_all.
Qed.

(** A cache database without rows, under an empty memo, is sound. *)
Lemma digests_sound_empty e w :
  files_of w = ∅ -> md5_cached (memo w) = [] -> digests_sound e w.
Proof.
  intros Hfiles Hmemo. split.
  - intros s f r st h. by rewrite Hfiles, lookup_empty.
  - intros s f st v. rewrite Hmemo. by intros H%elem_of_nil.
Qed.

(** X13.  Soundness of the stored digests is kept by the entry points of
    the module that write the caches: [initialize_cache],
    [clear_all_cache] and [add_songs] leave sound digests sound, however
    they end. *)
Theorem digests_stay_sound (e : Env) (w : World) :
  digests_sound e w ->
  digests_sound e (snd (DownloadList.initialize_cache e w)) /\
  digests_sound e (snd (DownloadList.clear_all_cache w)) /\
  forall self arg, digests_sound e (snd (DownloadList.add_songs e self arg w)).
Proof.
  intros Hw. split; [by apply initialize_cache_digests |].
  split; [by apply clear_all_cache_digests |].
  intros self arg. by apply add_songs_digests.
Qed.

Lemma digests_stay_sound_sample :
  digests_sound (Sample.env (Some Sample.tree) NoFile)
    (snd (DownloadList.initialize_cache (Sample.env (Some Sample.tree) NoFile) Sample.fresh)) /\
  digests_sound (Sample.env (Some Sample.tree) NoFile)
    (snd (DownloadList.clear_all_cache Sample.fresh)) /\
  forall self arg,
    digests_sound (Sample.env (Some Sample.tree) NoFile)
      (snd (DownloadList.add_songs (Sample.env (Some Sample.tree) NoFile) self arg
              Sample.fresh)).
Proof.
  apply (digests_stay_sound (Sample.env (Some Sample.tree) NoFile) Sample.fresh).
  apply digests_sound_empty; reflexivity.
Defined.

Lemma get_song_file_md5_is_digest_sample :
  fst (get_song_file_md5 (Sample.env (Some Sample.tree) NoFile) "abc" "0.aff" Sample.fresh)
  = Ret (file_md5 <$> file_of (Sample.env (Some Sample.tree) NoFile) "abc" "0.aff") /\
  digests_sound (Sample.env (Some Sample.tree) NoFile)
    (snd (get_song_file_md5 (Sample.env (Some Sample.tree) NoFile) "abc" "0.aff"
            Sample.fresh)).
Proof.
  apply (get_song_file_md5_is_digest (Sample.env (Some Sample.tree) NoFile) "abc" "0.aff"
           Sample.fresh).
  apply digests_sound_empty; reflexivity.
Defined.


(** ** Download tokens *)

(** X14.  [clear_download_token] and [is_valid] draw the same line: of
    the rows that carry a time, the ones [clear_download_token] keeps are
    those whose token [is_valid] accepts at the same reading of the
    clock. *)
Theorem clear_download_token_agrees_with_is_valid (e : Env) (w : World)
  (k : Z * string * string) (tok : option string) (t0 : Z) (x : UserDownload.t) :
  download_token w !! k = Some (tok, Some t0) ->
  UserDownload.token_time x = Some t0 ->
  exists valid : bool,
    fst (UserDownload.is_valid e x w) = Ret (valid, x) /\
    (download_token (snd (DownloadList.clear_download_token e w)) !! k
     = if valid then Some (tok, Some t0) else None).
Proof.
  intros Hrow Htime. exists (Z.leb (time e (clock_reads w) - t0) (DOWNLOAD_TIME_GAP_LIMIT e)).
  split.
  - unfold UserDownload.is_valid. rewrite Htime, bind_ret, bind_now. by rewrite Htime.
  - unfold DownloadList.clear_download_token. rewrite bind_now. simpl.
    destruct (Z.leb_spec (time e (clock_reads w) - t0) (DOWNLOAD_TIME_GAP_LIMIT e)).
    + apply map_lookup_filter_Some_2; [done |].
      unfold DownloadList.time_before. simpl. apply Z.ltb_ge. lia.
    + apply map_lookup_filter_None_2. right. intros v Hv.
      rewrite Hrow in Hv. injection Hv as <-.
      unfold DownloadList.time_before. simpl.
      assert (Hlt : Z.ltb t0 (time e (clock_reads w) - DOWNLOAD_TIME_GAP_LIMIT e) = true)
        by (apply Z.ltb_lt; lia).
      by rewrite Hlt.
Qed.

Lemma select_token_None (self : UserDownload.t) (rows : token_table) :
  UserDownload.select_token self rows = None <->
  forall k v, rows !! k = Some v -> ~ token_row_matches self (k, v).
Proof.
  unfold UserDownload.select_token.
  destruct (List.filter _ _) as [| row l] eqn:Hf; split; try done.
  - intros _ k v Hrow Hmatch.
    assert (Hin : In (k, v) []); [| done].
    rewrite <- Hf. apply filter_In. split.
    + by apply list_elem_of_In, elem_of_map_to_list.
    + by apply bool_decide_eq_true_2.
  - intros Hnone. exfalso.
    assert (Hin : In row (row :: l)) by apply in_eq.
    rewrite <- Hf in Hin. apply filter_In in Hin as [Hin Hmatch].
    apply bool_decide_eq_true_1 in Hmatch.
    destruct row as [k v]. apply list_elem_of_In, elem_of_map_to_list in Hin.
    by apply (Hnone k v).
Qed.

Lemma select_token_Some (self : UserDownload.t) (rows : token_table) uid tm :
  UserDownload.select_token self rows = Some (uid, tm) ->
  exists k v, rows !! k = Some v /\ token_row_matches self (k, v)
              /\ uid = fst (fst k) /\ tm = snd v.
Proof.
  unfold UserDownload.select_token.
  destruct (List.filter _ _) as [| row l] eqn:Hf; [done |].
  intros Heq. injection Heq as <- <-.
  assert (Hin : In row (row :: l)) by apply in_eq.
  rewrite <- Hf in Hin. apply filter_In in Hin as [Hin Hmatch].
  apply bool_decide_eq_true_1 in Hmatch.
  destruct row as [k v]. apply list_elem_of_In, elem_of_map_to_list in Hin.
  exists k, v. done.
Qed.

Lemma select_for_check_spec (self : UserDownload.t) (w : World) :
  snd (UserDownload.select_for_check self w) = w /\
  match fst (UserDownload.select_for_check self w) with
  | Ret x =>
      exists uid s f tok,
        UserDownload.song_id self = Some s /\
        UserDownload.file_name self = Some f /\
        UserDownload.token self = Some tok /\
        download_token w !! (uid, s, f) = Some (Some tok, UserDownload.token_time x) /\
        x = UserDownload.Build (Some (User.with_user_id User.new uid))
              (Some s) (Some f) (Some tok) (UserDownload.token_time x)
  | Raise ex =>
      ex = NoAccess /\
      forall uid s f tok tm,
        UserDownload.song_id self = Some s ->
        UserDownload.file_name self = Some f ->
        UserDownload.token self = Some tok ->
        download_token w !! (uid, s, f) <> Some (Some tok, tm)
  end.
Proof.
  unfold UserDownload.select_for_check. rewrite bind_gets.
  destruct (UserDownload.select_token self (download_token w)) as [[uid tm] |] eqn:Hsel.
  - split; [done |]. simpl.
    apply select_token_Some in Hsel as ([[uid' s] f] & [tok tm'] & Hrow & Hmatch & -> & ->).
    destruct Hmatch as (Hs & Hf & [tok' Htok] & Htok'). simpl in *.
    exists uid', s, f, tok'. rewrite <- Hs, <- Hf, Htok. repeat split; try done.
    rewrite Hrow. do 2 f_equal. congruence.
  - split; [done |]. simpl. split; [done |].
    intros uid s f tok tm Hs Hf Htok Hrow.
    eapply (proj1 (select_token_None self (download_token w)) Hsel); [exact Hrow |].
    unfold token_row_matches. simpl. rewrite Hs, Hf, Htok. eauto.
Qed.

(** X15.  [select_for_check] leaves the table as it is.  When it returns,
    the user id and the time it has set are those of a row of
    [download_token] with the song, the file name and the token of
    [self]; it raises [NoAccess], and nothing else, exactly when there is
    no such row.  A [self] without song, file name or token is always
    refused. *)
Theorem select_for_check_row (self : UserDownload.t) (w : World) :
  snd (UserDownload.select_for_check self w) = w /\
  match fst (UserDownload.select_for_check self w) with
  | Ret x =>
      exists uid s f tok,
        UserDownload.song_id self = Some s /\
        UserDownload.file_name self = Some f /\
        UserDownload.token self = Some tok /\
        download_token w !! (uid, s, f) = Some (Some tok, UserDownload.token_time x) /\
        x = UserDownload.Build (Some (User.with_user_id User.new uid))
              (Some s) (Some f) (Some tok) (UserDownload.token_time x)
  | Raise ex =>
      ex = NoAccess /\
      forall uid s f tok tm,
        UserDownload.song_id self = Some s ->
        UserDownload.file_name self = Some f ->
        UserDownload.token self = Some tok ->
        download_token w !! (uid, s, f) <> Some (Some tok, tm)
  end.
Proof. exact (select_for_check_spec self w). Qed.

(** ** Storing the tokens of a download list *)

Lemma foldl_insert_other (rows : list ((Z * string * string) * (option string * option Z)))
  (tbl : token_table) (k : Z * string * string) :
  (forall r, r ∈ rows -> fst r <> k) ->
  foldl (fun tbl row => <[ fst row := snd row ]> tbl) tbl rows !! k = tbl !! k.
Proof.
  revert tbl. induction rows as [| r rows IH]; intros tbl H; simpl; [done |].
  rewrite IH by (intros r' Hr'; apply H; by apply list_elem_of_further).
  apply lookup_insert_ne, H, list_elem_of_here.
Qed.

Lemma foldl_insert_last (r1 r2 : list ((Z * string * string) * (option string * option Z)))
  (tbl : token_table) (k : Z * string * string) (v : option string * option Z) :
  (forall r, r ∈ r2 -> fst r <> k) ->
  foldl (fun tbl row => <[ fst row := snd row ]> tbl) tbl (r1 ++ (k, v) :: r2) !! k
  = Some v.
Proof.
  intros H. rewrite foldl_app. simpl. rewrite foldl_insert_other by done.
  apply lookup_insert_eq.
Qed.

Lemma token_rows_keys uid l rows :
  DownloadList.token_rows uid l = Ret rows ->
  forall r, r ∈ rows ->
    exists y, y ∈ l /\ fst (fst (fst r)) = uid
              /\ UserDownload.song_id y = Some (snd (fst (fst r)))
              /\ UserDownload.file_name y = Some (snd (fst r)).
Proof.
  revert rows. induction l as [| x l IH]; intros rows H r Hr; simpl in H.
  - apply Ret_inj in H. subst. by apply elem_of_nil in Hr.
  - destruct (UserDownload.song_id x) as [s |] eqn:Hs; [| done].
    destruct (UserDownload.file_name x) as [f |] eqn:Hf; [| done].
    apply obind_ret_inv in H as (rows' & Hrows' & H). apply Ret_inj in H. subst rows.
    apply elem_of_cons in Hr as [-> | Hr].
    + exists x. split; [apply list_elem_of_here | done].
    + destruct (IH rows' Hrows' r Hr) as (y & Hy & Hrest).
      exists y. split; [by apply list_elem_of_further | done].
Qed.

Lemma token_rows_app uid l1 x l2 rows :
  DownloadList.token_rows uid (l1 ++ x :: l2) = Ret rows ->
  exists r1 s f r2,
    UserDownload.song_id x = Some s /\ UserDownload.file_name x = Some f /\
    rows = (r1 ++ ((uid, s, f), (UserDownload.token x, UserDownload.token_time x)) :: r2)%list /\
    DownloadList.token_rows uid l2 = Ret r2.
Proof.
  revert rows. induction l1 as [| y l1 IH]; intros rows H; simpl in H.
  - destruct (UserDownload.song_id x) as [s |] eqn:Hs; [| done].
    destruct (UserDownload.file_name x) as [f |] eqn:Hf; [| done].
    apply obind_ret_inv in H as (rows' & Hrows' & H). apply Ret_inj in H. subst rows.
    exists [], s, f, rows'. done.
  - destruct (UserDownload.song_id y) as [s' |]; [| done].
    destruct (UserDownload.file_name y) as [f' |]; [| done].
    apply obind_ret_inv in H as (rows' & Hrows' & H). apply Ret_inj in H. subst rows.
    destruct (IH rows' Hrows') as (r1 & s & f & r2 & Hs & Hf & -> & Hr2).
    exists (((uid, s', f'), (UserDownload.token y, UserDownload.token_time y)) :: r1),
      s, f, r2. done.
Qed.

Lemma insert_download_tokens_last (self : DownloadList.t) (w w' : World)
  (l1 l2 : list UserDownload.t) (x : UserDownload.t) :
  DownloadList.insert_download_tokens self w = (Ret tt, w') ->
  DownloadList.downloads self = (l1 ++ x :: l2)%list ->
  (forall y, y ∈ l2 ->
     UserDownload.song_id y <> UserDownload.song_id x
     \/ UserDownload.file_name y <> UserDownload.file_name x) ->
  exists u s f,
    DownloadList.user self = Some u /\
    UserDownload.song_id x = Some s /\ UserDownload.file_name x = Some f /\
    download_token w' !! (User.user_id u, s, f)
    = Some (UserDownload.token x, UserDownload.token_time x).
Proof.
  intros H Hl Hlast. unfold DownloadList.insert_download_tokens in H.
  destruct (DownloadList.downloads self) as [| z l] eqn:Hz; [by destruct l1 |].
  rewrite Hl in H. clear Hz Hl z l.
  destruct (DownloadList.user self) as [u |]; [| done].
  unfold bind, lift, modify in H.
  destruct (DownloadList.token_rows (User.user_id u) (l1 ++ x :: l2)) as [rows |] eqn:Hrows;
    [| done].
  injection H as <-.
  apply token_rows_app in Hrows as (r1 & s & f & r2 & Hs & Hf & -> & Hr2).
  exists u, s, f. repeat split; try done. simpl.
  apply foldl_insert_last. intros r Hr Hk.
  destruct (token_rows_keys _ _ _ Hr2 r Hr) as (y & Hy & _ & Hys & Hyf).
  rewrite Hk in Hys, Hyf. simpl in *.
  destruct (Hlast y Hy) as [Hne | Hne]; congruence.
Qed.

(** X16.  When [insert_download_tokens] returns, the last download of
    the list for each song and file name has its token and its time in
    the row of [download_token] under the user, the song and the file
    name: an earlier download for the same file has been replaced, a
    later one for another file has not disturbed it. *)
Theorem insert_download_tokens_stores (self : DownloadList.t) (w w' : World)
  (l1 l2 : list UserDownload.t) (x : UserDownload.t) :
  DownloadList.insert_download_tokens self w = (Ret tt, w') ->
  DownloadList.downloads self = (l1 ++ x :: l2)%list ->
  (forall y, y ∈ l2 ->
     UserDownload.song_id y <> UserDownload.song_id x
     \/ UserDownload.file_name y <> UserDownload.file_name x) ->
  exists u s f,
    DownloadList.user self = Some u /\
    UserDownload.song_id x = Some s /\ UserDownload.file_name x = Some f /\
    download_token w' !! (User.user_id u, s, f)
    = Some (UserDownload.token x, UserDownload.token_time x).
Proof. exact (insert_download_tokens_last self w w' l1 l2 x). Qed.

(** X17.  A token stored by [insert_download_tokens] is accepted: for the
    last download of the list for its song and file name, a request with
    that song, file name and token passes [select_for_check]; and when no
    other user holds the same token for the file, the check finds the
    user of the list and the time of the download. *)
Theorem stored_token_is_accepted (self : DownloadList.t) (w w' : World)
  (l1 l2 : list UserDownload.t) (x request : UserDownload.t) (tok : string) :
  DownloadList.insert_download_tokens self w = (Ret tt, w') ->
  DownloadList.downloads self = (l1 ++ x :: l2)%list ->
  (forall y, y ∈ l2 ->
     UserDownload.song_id y <> UserDownload.song_id x
     \/ UserDownload.file_name y <> UserDownload.file_name x) ->
  UserDownload.token x = Some tok ->
  UserDownload.song_id request = UserDownload.song_id x ->
  UserDownload.file_name request = UserDownload.file_name x ->
  UserDownload.token request = Some tok ->
  exists u,
    DownloadList.user self = Some u /\
    (exists r, UserDownload.select_for_check request w' = (Ret r, w')) /\
    ((forall uid s f tm,
        UserDownload.song_id x = Some s -> UserDownload.file_name x = Some f ->
        download_token w' !! (uid, s, f) = Some (Some tok, tm) ->
        uid = User.user_id u) ->
     UserDownload.select_for_check request w'
     = (Ret (UserDownload.Build (Some (User.with_user_id User.new (User.user_id u)))
               (UserDownload.song_id x) (UserDownload.file_name x) (Some tok)
               (UserDownload.token_time x)), w')).
Proof.
  intros Hins Hl Hlast Htok Hs Hf Hreq.
  destruct (insert_download_tokens_last self w w' l1 l2 x Hins Hl Hlast)
    as (u & s & f & Hu & Hxs & Hxf & Hrow).
  rewrite Htok in Hrow. rewrite Hxs in Hs. rewrite Hxf in Hf.
  exists u. split; [done |].
  destruct (select_for_check_spec request w') as [Hw Hres].
  destruct (UserDownload.select_for_check request w') as [[r | ex] w2] eqn:Hrun;
    simpl in Hw, Hres; subst w2.
  - split; [eauto |]. intros Huniq.
    destruct Hres as (uid & s' & f' & tok' & Hs' & Hf' & Htok' & Hrow' & Hr).
    assert (s' = s) as -> by congruence. assert (f' = f) as -> by congruence.
    assert (tok' = tok) as -> by congruence.
    assert (uid = User.user_id u) as -> by (by eapply Huniq).
    rewrite Hrow in Hrow'. injection Hrow' as Htime.
    rewrite Hr, <- Htime, Hxs, Hxf. done.
  - exfalso. destruct Hres as [_ Hnone]. by eapply (Hnone _ s f tok).
Qed.

(** ** The link of a download *)

(** X18.  [url] is stable: once it has returned a link for a download, it
    returns the same link again without generating another token, reading
    the clock or drawing random bytes. *)
Theorem url_stable (e : Env) (x x' : UserDownload.t) (w w' : World) (u : string) :
  UserDownload.url e x w = (Ret (u, x'), w') ->
  UserDownload.url e x' w' = (Ret (u, x'), w').
Proof.
  unfold UserDownload.url. intros H.
  apply bind_ret_inv in H as (x1 & w1 & Hgen & H).
  assert (Htok : is_Some (UserDownload.token x1)).
  { destruct (UserDownload.token x) as [tok |] eqn:Hx.
    - unfold ret in Hgen. injection Hgen as <- <-. by rewrite Hx.
    - unfold UserDownload.generate_token in Hgen. rewrite bind_now in Hgen.
      destruct (UserDownload.user x); [| done].
      destruct (UserDownload.song_id x); [| done].
      destruct (UserDownload.file_name x); [| done].
      unfold bind, os_urandom, ret in Hgen. simpl in Hgen.
      injection Hgen as <- _. simpl. eauto. }
  assert (Hx' : x' = x1 /\ w' = w1).
  { destruct (DOWNLOAD_LINK_PREFIX e); unfold ret in H; by injection H as _ <- <-. }
  destruct Hx' as [-> ->]. clear Hgen.
  destruct (UserDownload.token x1) as [tok |] eqn:Ht; [| by destruct Htok].
  rewrite bind_ret. cbv beta. rewrite Ht. exact H.
Qed.

Lemma clear_download_token_agrees_with_is_valid_sample :
  exists valid : bool,
    fst (UserDownload.is_valid (Sample.env None NoFile) Sample.download1
           Sample.one_link_stored) = Ret (valid, Sample.download1) /\
    (download_token
       (snd (DownloadList.clear_download_token (Sample.env None NoFile)
               Sample.one_link_stored)) !! (42, "abc", "0.aff")
     = if valid then Some (Some "f00", Some 5000) else None).
Proof.
  apply (clear_download_token_agrees_with_is_valid (Sample.env None NoFile)
           Sample.one_link_stored (42, "abc", "0.aff") (Some "f00") 5000
           Sample.download1).
  - vm_compute. reflexivity.
  - reflexivity.
Defined.

Lemma insert_download_tokens_stores_sample :
  exists u s f,
    DownloadList.user Sample.one_link = Some u /\
    UserDownload.song_id Sample.download1 = Some s /\
    UserDownload.file_name Sample.download1 = Some f /\
    download_token Sample.one_link_stored !! (User.user_id u, s, f)
    = Some (UserDownload.token Sample.download1,
            UserDownload.token_time Sample.download1).
Proof.
  apply (insert_download_tokens_stores Sample.one_link Sample.fresh
           Sample.one_link_stored [] [] Sample.download1).
  - reflexivity.
  - reflexivity.
  - intros y Hy. by apply elem_of_nil in Hy.
Defined.

Lemma stored_token_is_accepted_sample :
  exists u,
    DownloadList.user Sample.one_link = Some u /\
    (exists r, UserDownload.select_for_check Sample.request1 Sample.one_link_stored
               = (Ret r, Sample.one_link_stored)) /\
    ((forall uid s f tm,
        UserDownload.song_id Sample.download1 = Some s ->
        UserDownload.file_name Sample.download1 = Some f ->
        download_token Sample.one_link_stored !! (uid, s, f) = Some (Some "f00", tm) ->
        uid = User.user_id u) ->
     UserDownload.select_for_check Sample.request1 Sample.one_link_stored
     = (Ret (UserDownload.Build (Some (User.with_user_id User.new (User.user_id u)))
               (UserDownload.song_id Sample.download1)
               (UserDownload.file_name Sample.download1) (Some "f00")
               (UserDownload.token_time Sample.download1)),
        Sample.one_link_stored)).
Proof.
  apply (stored_token_is_accepted Sample.one_link Sample.fresh Sample.one_link_stored
           [] [] Sample.download1 Sample.request1 "f00").
  - reflexivity.
  - reflexivity.
  - intros y Hy. by apply elem_of_nil in Hy.
  - reflexivity.
  - reflexivity.
  - reflexivity.
  - reflexivity.
Defined.

Lemma url_stable_sample :
  UserDownload.url (Sample.env (Some Sample.tree) NoFile)
    (UserDownload.Build (Some Sample.alice) (Some "abc") (Some "0.aff")
       (Some "42abc0.aff5000b'\x00'") (Some 5000))
    (snd (UserDownload.url (Sample.env (Some Sample.tree) NoFile) Sample.download0
            Sample.fresh))
  = (Ret ("/download/abc/0.aff?t=42abc0.aff5000b'\x00'",
          UserDownload.Build (Some Sample.alice) (Some "abc") (Some "0.aff")
            (Some "42abc0.aff5000b'\x00'") (Some 5000)),
     snd (UserDownload.url (Sample.env (Some Sample.tree) NoFile) Sample.download0
            Sample.fresh)).
Proof.
  apply (url_stable (Sample.env (Some Sample.tree) NoFile) Sample.download0 _ Sample.fresh).
  vm_compute. reflexivity.
Defined.


(** ** What the song cache answers after a scan *)

Lemma NoDup_select_file_names (song_id : string) (db : CacheDb) :
  NoDup (SongFileCache.select_file_names song_id db).
Proof.
  unfold SongFileCache.select_file_names, order_by. rewrite merge_sort_Permutation.
  assert (H : forall l : list ((string * string) * file_row),
            NoDup (map fst l) ->
            NoDup (map (fun row => snd (fst row))
                     (List.filter (fun row => String.eqb (fst (fst row)) song_id) l))).
  { induction l as [| [[s f] r] l IH]; simpl; [constructor |].
    intros Hnd. apply NoDup_cons in Hnd as [Hx Hnd].
    destruct (String.eqb_spec s song_id) as [-> | Hne]; simpl; [| by apply IH].
    apply NoDup_cons. split; [| by apply IH].
    intros Hin. apply Hx.
    apply list_elem_of_In, in_map_iff in Hin as ([[s' f'] r'] & Hf & Hin).
    apply filter_In in Hin as [Hin Hs]. simpl in *. apply String.eqb_eq in Hs.
    subst. apply list_elem_of_In, in_map_iff. exists (song_id, f, r'). done. }
  apply H, NoDup_fst_map_to_list.
Qed.

Lemma Sorted_select_file_names (song_id : string) (db : CacheDb) :
  Sorted str_le (SongFileCache.select_file_names song_id db).
Proof. unfold SongFileCache.select_file_names, order_by. apply Sorted_merge_sort, _. Qed.

(** X19.  When [get_song_file_names] is asked about a directory it has
    no current row for, it scans: the names it returns are exactly the
    regular files of the directory that the catalogue allows, in
    ascending order and each once. *)
Theorem get_song_file_names_scans (e : Env) (song_id : string) (m : Z) (w : World)
  (d : song_dir) :
  song_dir_of e song_id = Some d ->
  row_stale w song_id m ->
  exists names,
    fst (SongFileCache.get_song_file_names e song_id m w) = Ret names /\
    (forall f, f ∈ names
               <-> is_Some (file_of e song_id f)
                   /\ SonglistParser.is_available_file (cat w) song_id f = true) /\
    ascending names.
Proof.
  intros Hd Hstale.
  unfold SongFileCache.get_song_file_names, SongFileCache.ensure_schema.
  rewrite bind_ret, bind_gets. fold (songs_of w).
  assert (Hrow : match songs_of w !! song_id with
                 | Some r => negb (Z.eqb (row_dir_mtime_ns r) m)
                 | None => true
                 end = true).
  { unfold row_stale in Hstale. destruct (songs_of w !! song_id); [| done].
    by apply negb_true_iff, Z.eqb_neq. }
  rewrite Hrow.
  destruct (sync_song_scans e song_id (Some m) w d Hd Hstale) as (Hret & Hrows & _).
  destruct (SongFileCache.sync_song e song_id (Some m) w) as [o w1] eqn:Hrun.
  simpl in Hret, Hrows. subst o. rewrite (bind_run _ _ _ _ _ Hrun).
  eexists. split; [reflexivity |]. split.
  - intros f. rewrite elem_of_select_file_names. apply Hrows.
  - split; [apply Sorted_select_file_names | apply NoDup_select_file_names].
Qed.

Lemma get_song_file_names_scans_sample :
  exists names,
    fst (SongFileCache.get_song_file_names (Sample.env (Some Sample.tree) NoFile)
           "abc" 5 Sample.fresh) = Ret names /\
    (forall f, f ∈ names
               <-> is_Some (file_of (Sample.env (Some Sample.tree) NoFile) "abc" f)
                   /\ SonglistParser.is_available_file (cat Sample.fresh) "abc" f = true) /\
    ascending names.
Proof.
  eapply (get_song_file_names_scans (Sample.env (Some Sample.tree) NoFile) "abc" 5
            Sample.fresh).
  - vm_compute. reflexivity.
  - vm_compute. exact I.
Defined.

(** X20.  When the root directory is there and the stored
    [root_mtime_ns] is missing or differs from the argument,
    [SongFileCache.get_all_song_ids] scans the root: it returns every
    directory of the root other than [.] and [..], and nothing else, and
    stores the argument as the new [root_mtime_ns]. *)
Theorem cache_get_all_song_ids_scans (e : Env) (root : root_dir) (m : Z) (w : World) :
  SONG_FILE_FOLDER_PATH e = Some root ->
  tbl_meta (cache w) !! "root_mtime_ns" <> Some m ->
  exists ids,
    fst (SongFileCache.get_all_song_ids e m w) = Ret ids /\
    (forall id, id ∈ ids <-> is_Some (song_dir_of e id) /\ id <> "." /\ id <> "..") /\
    tbl_meta (cache (snd (SongFileCache.get_all_song_ids e m w))) !! "root_mtime_ns"
    = Some m.
Proof.
  intros Hroot Hmeta.
  assert (Hstale : match tbl_meta (cache w) !! "root_mtime_ns" with
                   | Some v => negb (Z.eqb v m)
                   | None => true
                   end = true).
  { destruct (tbl_meta (cache w) !! "root_mtime_ns") as [v |]; [| done].
    apply negb_true_iff, Z.eqb_neq. congruence. }
  destruct (sync_all_establishes e w) as [Hret Hinv].
  destruct (SongFileCache.sync_all e w) as [o w1] eqn:Hrun. simpl in Hret, Hinv. subst o.
  assert (Hcall : SongFileCache.get_all_song_ids e m w
    = (Ret (order_by (map fst (map_to_list (tbl_songs (cache w1))))),
       set_cache (with_meta (<[ "root_mtime_ns" := m ]>)) w1)).
  { unfold SongFileCache.get_all_song_ids, SongFileCache.ensure_schema.
    rewrite bind_ret, bind_gets, Hstale.
    assert (Hinner : (SongFileCache.sync_all e ;;
                      modify (set_cache (with_meta (<[ "root_mtime_ns" := m ]>)))) w
                     = (Ret tt, set_cache (with_meta (<[ "root_mtime_ns" := m ]>)) w1)).
    { by rewrite (bind_run _ _ _ _ _ Hrun). }
    by rewrite (bind_run _ _ _ _ _ Hinner). }
  rewrite Hcall. simpl.
  eexists. split; [reflexivity |]. split; [| by rewrite lookup_insert_eq].
  unfold scanned_inv in Hinv. rewrite Hroot in Hinv. destruct Hinv as (Hcur & Hsongs & _).
  intros id. rewrite elem_of_order_by, <- (elem_of_scan_root e root id Hroot).
  rewrite list_elem_of_In, in_map_iff. split.
  - intros ([id' r] & <- & Hin). apply list_elem_of_In, elem_of_map_to_list in Hin.
    apply Hsongs. unfold songs_of. simpl. eauto.
  - intros Hin. destruct (Hcur id Hin) as (d & r & _ & Hr & _).
    exists (id, r). split; [done |]. by apply list_elem_of_In, elem_of_map_to_list.
Qed.

Lemma cache_get_all_song_ids_scans_sample :
  exists ids,
    fst (SongFileCache.get_all_song_ids (Sample.env (Some Sample.tree) NoFile) 7
           Sample.fresh) = Ret ids /\
    (forall id,
       id ∈ ids <-> is_Some (song_dir_of (Sample.env (Some Sample.tree) NoFile) id)
                    /\ id <> "." /\ id <> "..") /\
    tbl_meta (cache (snd (SongFileCache.get_all_song_ids
                            (Sample.env (Some Sample.tree) NoFile) 7 Sample.fresh)))
      !! "root_mtime_ns" = Some 7.
Proof.
  apply (cache_get_all_song_ids_scans (Sample.env (Some Sample.tree) NoFile) Sample.tree 7
           Sample.fresh).
  - reflexivity.
  - vm_compute. discriminate.
Defined.

(** ** Memoised reads *)

Lemma lru_find_None_filter {K V : Type} `{EqDecision K} (k : K) (c : lru K V) :
  lru_find k c = None -> filter (fun p => fst p ≠ k) c = c.
Proof.
  unfold lru in *.
  induction c as [| [k' v] c IH]; [done |]. intros H. simpl in H.
  destruct (decide (k = k')) as [-> | Hne]; [done |].
  rewrite filter_cons_True by (simpl; congruence). by rewrite IH.
Qed.

Lemma lru_find_take_None {K V : Type} `{EqDecision K} (k : K) (n : nat) (c : lru K V) :
  lru_find k c = None -> lru_find k (take n c) = None.
Proof.
  revert n. induction c as [| [k' v] c IH]; intros [| n]; simpl; try done.
  destruct (decide (k = k')); [done | apply IH].
Qed.

Lemma lru_find_hit {K V : Type} `{EqDecision K} (k : K) (v : V) (c : lru K V) :
  lru_find k (lru_hit k v c) = Some v.
Proof. unfold lru_hit. simpl. by rewrite decide_True. Qed.

Lemma lru_hit_hit {K V : Type} `{EqDecision K} (k : K) (v : V) (c : lru K V) :
  lru_hit k v (lru_hit k v c) = lru_hit k v c.
Proof.
  unfold lru_hit, lru in *. f_equal. rewrite filter_cons_False by (simpl; tauto).
  by rewrite list_filter_filter_l.
Qed.

Lemma lru_find_miss {K V : Type} `{EqDecision K} (k : K) (v : V) (n : nat) (c : lru K V) :
  lru_find k (lru_miss (S n) k v c) = Some v.
Proof. unfold lru_miss. simpl. by rewrite decide_True. Qed.

Lemma lru_hit_miss {K V : Type} `{EqDecision K} (k : K) (v : V) (n : nat) (c : lru K V) :
  lru_find k c = None ->
  lru_hit k v (lru_miss (S n) k v c) = lru_miss (S n) k v c.
Proof.
  intros Hc. unfold lru_hit, lru_miss. rewrite firstn_cons. f_equal.
  unfold lru in *. rewrite filter_cons_False by (simpl; tauto).
  by apply (lru_find_None_filter (V := V)), lru_find_take_None.
Qed.

Lemma with_ids_cached_id g w :
  g (ids_cached (memo w)) = ids_cached (memo w) -> set_memo (with_ids_cached g) w = w.
Proof.
  intros H. destruct w as [cr er db [md5s names ids] ct tok]. simpl in *.
  unfold set_memo, with_ids_cached. simpl. by rewrite H.
Qed.

Lemma with_names_cached_id g w :
  g (names_cached (memo w)) = names_cached (memo w) -> set_memo (with_names_cached g) w = w.
Proof.
  intros H. destruct w as [cr er db [md5s names ids] ct tok]. simpl in *.
  unfold set_memo, with_names_cached. simpl. by rewrite H.
Qed.

Lemma ids_cached_set g w :
  ids_cached (memo (set_memo (with_ids_cached g) w)) = g (ids_cached (memo w)).
Proof. reflexivity. Qed.

Lemma names_cached_set g w :
  names_cached (memo (set_memo (with_names_cached g) w)) = g (names_cached (memo w)).
Proof. reflexivity. Qed.

(** X21.  [DownloadList.get_all_song_ids] is repeatable: right after a
    call that returned, another call returns the same list and changes
    nothing, so the song cache is not consulted and the root is not
    scanned again. *)
Theorem get_all_song_ids_repeat (e : Env) (w w1 : World) (ids : list string) :
  DownloadList.get_all_song_ids e w = (Ret ids, w1) ->
  DownloadList.get_all_song_ids e w1 = (Ret ids, w1).
Proof.
  unfold DownloadList.get_all_song_ids.
  destruct (SONG_FILE_FOLDER_PATH e) as [root |]; [| by intros H; minv].
  unfold DownloadList._get_all_cached_song_ids. rewrite !bind_gets.
  destruct (lru_find (root_mtime_ns root) (ids_cached (memo w))) as [v |] eqn:Hfind.
  - rewrite bind_modify. intros H. minv.
    rewrite ids_cached_set, lru_find_hit, bind_modify.
    unfold ret. f_equal. apply with_ids_cached_id.
    rewrite ids_cached_set. apply lru_hit_hit.
  - intros H. apply bind_ret_inv in H as (v & w' & Hrun & H).
    rewrite bind_modify in H. minv.
    pose proof (preserves_run ids_memo _ _ _ _
      (cache_get_all_song_ids_memo e (root_mtime_ns root)) Hrun) as Hmemo.
    unfold ids_memo in Hmemo. rewrite ids_cached_set, Hmemo.
    change 128%nat with (S 127). rewrite lru_find_miss, bind_modify.
    unfold ret. f_equal. apply with_ids_cached_id.
    rewrite ids_cached_set, Hmemo. by apply lru_hit_miss.
Qed.

Lemma get_all_song_ids_repeat_sample :
  DownloadList.get_all_song_ids (Sample.env (Some Sample.tree) NoFile)
    (snd (DownloadList.get_all_song_ids (Sample.env (Some Sample.tree) NoFile) Sample.fresh))
  = (Ret ["abc"; "b"],
     snd (DownloadList.get_all_song_ids (Sample.env (Some Sample.tree) NoFile) Sample.fresh)).
Proof.
  apply (get_all_song_ids_repeat (Sample.env (Some Sample.tree) NoFile) Sample.fresh).
  vm_compute. reflexivity.
Defined.

(** X22.  [get_one_song_file_names] is repeatable: right after a call
    that returned, another call for the same song returns the same names
    and changes nothing, whether the directory is there (the names come
    from the memo, the song cache is not consulted) or not (there is
    nothing left to delete). *)
Theorem get_one_song_file_names_repeat (e : Env) (song_id : string) (w w1 : World)
  (names : list string) :
  DownloadList.get_one_song_file_names e song_id w = (Ret names, w1) ->
  DownloadList.get_one_song_file_names e song_id w1 = (Ret names, w1).
Proof.
  unfold DownloadList.get_one_song_file_names.
  destruct (song_dir_of e song_id) as [d |].
  - unfold DownloadList._get_cached_song_file_names. rewrite !bind_gets.
    destruct (lru_find (song_id, dir_mtime_ns d) (names_cached (memo w))) as [v |] eqn:Hfind.
    + rewrite bind_modify. intros H. minv.
      rewrite names_cached_set, lru_find_hit, bind_modify.
      unfold ret. f_equal. apply with_names_cached_id.
      rewrite names_cached_set. apply lru_hit_hit.
    + intros H. apply bind_ret_inv in H as (v & w' & Hrun & H).
      rewrite bind_modify in H. minv.
      assert (Hmemo : names_cached (memo w') = names_cached (memo w)).
      { eapply (preserves_run (fun w => names_cached (memo w))); [| exact Hrun].
        by apply cache_get_song_file_names_preserves. }
      rewrite names_cached_set, Hmemo.
      change (Z.to_nat 2048) with (S 2047). rewrite lru_find_miss, bind_modify.
      unfold ret. f_equal. apply with_names_cached_id.
      rewrite names_cached_set, Hmemo. by apply lru_hit_miss.
  - intros H. rewrite (bind_run _ _ _ _ _ (_delete_song_rows song_id w)) in H.
    rewrite (bind_run _ _ _ _ _ (_delete_song_rows song_id w1)).
    unfold ret in *. injection H as <- <-. f_equal.
    destruct w as [cr er [meta songs files] mm ct tok].
    unfold set_cache, with_songs, with_files, delete_files_where. simpl.
    rewrite delete_delete_eq. do 2 f_equal.
    apply map_filter_id. intros k r Hr. by apply map_lookup_filter_Some_1_2 in Hr.
Qed.

Lemma get_one_song_file_names_repeat_sample :
  DownloadList.get_one_song_file_names (Sample.env (Some Sample.tree) NoFile) "abc"
    (snd (DownloadList.get_one_song_file_names (Sample.env (Some Sample.tree) NoFile)
            "abc" Sample.fresh))
  = (Ret ["0.aff"; "1.aff"; "base.ogg"],
     snd (DownloadList.get_one_song_file_names (Sample.env (Some Sample.tree) NoFile)
            "abc" Sample.fresh)).
Proof.
  apply (get_one_song_file_names_repeat (Sample.env (Some Sample.tree) NoFile) "abc"
           Sample.fresh).
  vm_compute. reflexivity.
Defined.


(** ** Building the manifest with URLs *)

Lemma url_fresh_token e x w u x' w' :
  UserDownload.token x = None ->
  UserDownload.url e x w = (Ret (u, x'), w') ->
  is_Some (UserDownload.token x') /\ is_Some (UserDownload.token_time x').
Proof.
  intros Hx H. unfold UserDownload.url in H. rewrite Hx in H.
  apply bind_ret_inv in H as (x1 & w1 & Hgen & H).
  assert (Hx1 : is_Some (UserDownload.token x1) /\ is_Some (UserDownload.token_time x1)).
  { unfold UserDownload.generate_token in Hgen. rewrite bind_now in Hgen.
    destruct (UserDownload.user x); [| done].
    destruct (UserDownload.song_id x); [| done].
    destruct (UserDownload.file_name x); [| done].
    unfold bind, os_urandom, ret in Hgen. simpl in Hgen.
    injection Hgen as <- _. simpl. eauto. }
  destruct (DOWNLOAD_LINK_PREFIX e); unfold ret in H; by injection H as _ <- _.
Qed.

Lemma add_file_linked e u s acc i w acc' w' :
  DownloadList.add_file e u true s acc i w = (Ret acc', w') ->
  exists x, snd acc' = (snd acc ++ [x])%list /\
            is_Some (UserDownload.token x) /\ is_Some (UserDownload.token_time x).
Proof.
  unfold DownloadList.add_file, DownloadList.checksum_and_url. intros H.
  repeat match type of H with
         | (if ?b then _ else _) _ = _ => destruct b
         end; minv;
    match goal with
    | Hurl : UserDownload.url _ _ _ = (Ret ?ux, _) |- _ =>
        destruct ux as [link x']; apply url_fresh_token in Hurl; [| done];
        exists x'; split; [reflexivity | exact Hurl]
    end.
Qed.

Lemma add_one_song_url_inv e s song_id w s' w' :
  url_inv s ->
  DownloadList.add_one_song e s song_id w = (Ret s', w') ->
  url_inv s' /\ DownloadList.user s' = DownloadList.user s.
Proof.
  intros [Hflag Hold] H. unfold DownloadList.add_one_song in H. rewrite Hflag in H. minv.
  split; [| done]. split; [exact Hflag |]. simpl.
  match goal with
  | H : fold_each _ _ _ _ = _ |- _ =>
      revert H; apply (fold_each_invariant (fun acc => all_linked (snd acc)))
  end; [| exact Hold].
  intros acc x w1 acc1 w2 Hacc Hrun.
  apply add_file_linked in Hrun as (d & -> & Hd).
  intros y Hy. apply elem_of_app in Hy as [Hy | Hy]; [by apply Hacc |].
  by apply list_elem_of_singleton in Hy as ->.
Qed.

Lemma add_songs_url_inv e self arg w s w1 :
  url_inv self ->
  (let self :=
     match arg with
     | Some l => DownloadList.with_song_ids self (Some l)
     | None => self
     end in
   match DownloadList.song_ids self with
   | None | Some [] =>
       let* ids := DownloadList.get_all_song_ids e in
       let* c := gets cat in
       let* ids :=
         if DOWNLOAD_FORBID_WHEN_NO_ITEM e && has_songlist c
         then lift (DownloadList.unlocked_among e c (DownloadList.user self) ids)
         else ret ids in
       let self := DownloadList.with_song_ids self (Some ids) in
       fold_each ids (DownloadList.add_one_song e) self
   | Some ids =>
       let* c := gets cat in
       let* ids :=
         if DOWNLOAD_FORBID_WHEN_NO_ITEM e && has_songlist c
         then lift (DownloadList.unlocked_among e c (DownloadList.user self) ids)
         else ret ids in
       let self := DownloadList.with_song_ids self (Some ids) in
       fold_each ids (fun self i =>
         match song_dir_of e i with
         | Some _ => DownloadList.add_one_song e self i
         | None => ret self
         end) self
   end) w = (Ret s, w1) ->
  url_inv s /\ DownloadList.user s = DownloadList.user self.
Proof.
  intros Hself. cbv zeta.
  set (self0 := match arg with
                | Some l => DownloadList.with_song_ids self (Some l)
                | None => self
                end).
  assert (H0 : url_inv self0 /\ DownloadList.user self0 = DownloadList.user self)
    by (by destruct arg).
  clearbody self0. intros H.
  assert (Hstep : forall a x wa b wb,
    url_inv a /\ DownloadList.user a = DownloadList.user self ->
    DownloadList.add_one_song e a x wa = (Ret b, wb) ->
    url_inv b /\ DownloadList.user b = DownloadList.user self).
  { intros a x wa b wb [Ha Hu] Hrun.
    destruct (add_one_song_url_inv e a x wa b wb Ha Hrun) as [Hb Hu'].
    split; [done | congruence]. }
  destruct (DownloadList.song_ids self0) as [[| i ids] |]; minv_state;
    match goal with
    | H : fold_each _ _ _ _ = _ |- _ =>
        revert H;
        apply (fold_each_invariant
                 (fun a => url_inv a /\ DownloadList.user a = DownloadList.user self))
    end;
    try exact H0;
    try (intros ? x ? ? ? Ha Hrun;
         first [ by eapply Hstep
               | destruct (song_dir_of e x); [by eapply Hstep | by minv] ]).
Qed.

(** X23.  When [add_songs] builds a manifest with URLs and returns,
    every link it has handed out is usable: each download of the list
    (the last one for its song and file name) carries a token and its
    time, and [download_token] holds exactly that token and time under
    the user, the song and the file name. *)
Theorem add_songs_with_urls (e : Env) (self : DownloadList.t) (arg : option (list string))
  (w : World) (self' : DownloadList.t) (w' : World)
  (l1 l2 : list UserDownload.t) (x : UserDownload.t) :
  DownloadList.url_flag_set self = true ->
  all_linked (DownloadList.downloads self) ->
  DownloadList.add_songs e self arg w = (Ret self', w') ->
  DownloadList.downloads self' = (l1 ++ x :: l2)%list ->
  (forall y, y ∈ l2 ->
     UserDownload.song_id y <> UserDownload.song_id x
     \/ UserDownload.file_name y <> UserDownload.file_name x) ->
  exists u s f tok t0,
    DownloadList.user self = Some u /\
    UserDownload.song_id x = Some s /\ UserDownload.file_name x = Some f /\
    UserDownload.token x = Some tok /\ UserDownload.token_time x = Some t0 /\
    download_token w' !! (User.user_id u, s, f) = Some (Some tok, Some t0).
Proof.
  intros Hflag Hold H Hl Hlast. unfold DownloadList.add_songs in H.
  apply bind_ret_inv in H as (s & w1 & Hloop & H).
  destruct (add_songs_url_inv e self arg w s w1 (conj Hflag Hold) Hloop)
    as [[Hs Hlinked] Hu].
  rewrite Hs in H.
  apply bind_ret_inv in H as ([] & w2 & Hclear & H).
  apply bind_ret_inv in H as ([] & w3 & Hins & H).
  unfold ret in H. injection H as <- <-.
  destruct (insert_download_tokens_last s w2 w3 l1 l2 x Hins Hl Hlast)
    as (u & sid & f & Huser & Hsid & Hf & Hrow).
  destruct (Hlinked x) as [[tok Htok] [t0 Ht0]].
  { rewrite Hl. apply elem_of_app. right. apply list_elem_of_here. }
  exists u, sid, f, tok, t0. rewrite <- Hu, <- Htok, <- Ht0. done.
Qed.

Lemma add_songs_with_urls_sample :
  exists u s f tok t0,
    DownloadList.user Sample.with_links = Some u /\
    UserDownload.song_id Sample.link_audio = Some s /\
    UserDownload.file_name Sample.link_audio = Some f /\
    UserDownload.token Sample.link_audio = Some tok /\
    UserDownload.token_time Sample.link_audio = Some t0 /\
    download_token (snd Sample.linking) !! (User.user_id u, s, f) = Some (Some tok, Some t0).
Proof.
  apply (add_songs_with_urls (Sample.env (Some Sample.tree) NoFile) Sample.with_links
           (Some ["b"]) Sample.fresh Sample.linked (snd Sample.linking)
           [Sample.link_chart] [] Sample.link_audio).
  - reflexivity.
  - intros y Hy. by apply elem_of_nil in Hy.
  - vm_compute. reflexivity.
  - vm_compute. reflexivity.
  - intros y Hy. by apply elem_of_nil in Hy.
Defined.

(** ** Checking the token of a request *)

(** X24.  [is_valid] on a request that carries no time, as the download
    route builds it, looks its token up: it answers only for a token that
    is stored for the song and the file name of the request, the answer
    being whether the clock reading is at most [DOWNLOAD_TIME_GAP_LIMIT]
    past the stored time; it raises [NoAccess] when no row has the token,
    and [TypeError] when the row found has no time. *)
Theorem is_valid_by_token (e : Env) (request : UserDownload.t) (w : World) :
  UserDownload.token_time request = None ->
  match fst (UserDownload.is_valid e request w) with
  | Ret (valid, r) =>
      exists uid s f tok t0,
        UserDownload.song_id request = Some s /\
        UserDownload.file_name request = Some f /\
        UserDownload.token request = Some tok /\
        download_token w !! (uid, s, f) = Some (Some tok, Some t0) /\
        UserDownload.user r = Some (User.with_user_id User.new uid) /\
        UserDownload.token_time r = Some t0 /\
        valid = Z.leb (time e (clock_reads w) - t0) (DOWNLOAD_TIME_GAP_LIMIT e)
  | Raise ex =>
      (ex = NoAccess /\
       forall uid s f tok tm,
         UserDownload.song_id request = Some s ->
         UserDownload.file_name request = Some f ->
         UserDownload.token request = Some tok ->
         download_token w !! (uid, s, f) <> Some (Some tok, tm)) \/
      (ex = TypeError /\
       exists uid s f tok,
         UserDownload.song_id request = Some s /\
         UserDownload.file_name request = Some f /\
         UserDownload.token request = Some tok /\
         download_token w !! (uid, s, f) = Some (Some tok, None))
  end.
Proof.
  intros Htime. unfold UserDownload.is_valid. rewrite Htime.
  destruct (select_for_check_spec request w) as [Hw Hres].
  destruct (UserDownload.select_for_check request w) as [[r | ex] w1] eqn:Hrun;
    simpl in Hw, Hres; subst w1.
  - rewrite (bind_run _ _ _ _ _ Hrun), bind_now.
    destruct Hres as (uid & s & f & tok & Hs & Hf & Htok & Hrow & Hr).
    destruct (UserDownload.token_time r) as [t0 |] eqn:Ht0; simpl.
    + exists uid, s, f, tok, t0. rewrite Hr. done.
    + right. split; [done |]. exists uid, s, f, tok. done.
  - rewrite (bind_raise _ _ _ _ _ Hrun). simpl. left. exact Hres.
Qed.

Lemma is_valid_by_token_sample :
  match fst (UserDownload.is_valid (Sample.env None NoFile) Sample.request1
               Sample.one_link_stored) with
  | Ret (valid, r) =>
      exists uid s f tok t0,
        UserDownload.song_id Sample.request1 = Some s /\
        UserDownload.file_name Sample.request1 = Some f /\
        UserDownload.token Sample.request1 = Some tok /\
        download_token Sample.one_link_stored !! (uid, s, f) = Some (Some tok, Some t0) /\
        UserDownload.user r = Some (User.with_user_id User.new uid) /\
        UserDownload.token_time r = Some t0 /\
        valid = Z.leb (time (Sample.env None NoFile) (clock_reads Sample.one_link_stored) - t0)
                  (DOWNLOAD_TIME_GAP_LIMIT (Sample.env None NoFile))
  | Raise ex =>
      (ex = NoAccess /\
       forall uid s f tok tm,
         UserDownload.song_id Sample.request1 = Some s ->
         UserDownload.file_name Sample.request1 = Some f ->
         UserDownload.token Sample.request1 = Some tok ->
         download_token Sample.one_link_stored !! (uid, s, f) <> Some (Some tok, tm)) \/
      (ex = TypeError /\
       exists uid s f tok,
         UserDownload.song_id Sample.request1 = Some s /\
         UserDownload.file_name Sample.request1 = Some f /\
         UserDownload.token Sample.request1 = Some tok /\
         download_token Sample.one_link_stored !! (uid, s, f) = Some (Some tok, None))
  end.
Proof.
  apply (is_valid_by_token (Sample.env None NoFile) Sample.request1 Sample.one_link_stored).
  reflexivity.
Defined.


(** ** The entitlement filter *)

Lemma elem_of_keys_after (ids keys : list string) (k : string) :
  k ∈ keys_after ids keys -> k ∈ keys \/ k ∈ ids.
Proof.
  revert keys. induction ids as [| i ids IH]; intros keys H.
  - by left.
  - rewrite keys_after_cons in H. apply IH in H as [H | H].
    + change (keys_after [i] keys) with (if mem i keys then keys else (keys ++ [i])%list) in H.
      destruct (mem i keys); [by left |].
      apply elem_of_app in H as [H | H]; [by left |].
      apply list_elem_of_singleton in H as ->. right. apply list_elem_of_here.
    + right. by apply list_elem_of_further.
Qed.

Lemma unlocked_among_entitled e c u ids0 ids :
  (forall (X : gset pykey) k, k ∈ list_of_set e X -> k ∈ X) ->
  DownloadList.unlocked_among e c u ids0 = Ret ids ->
  exists unlocked,
    SonglistParser.get_user_unlocks e c u = Ret unlocked /\
    forall i, i ∈ ids -> KStr i ∈ unlocked /\ i ∈ ids0.
Proof.
  intros Hlist H. unfold DownloadList.unlocked_among in H.
  apply obind_ret_inv in H as (unlocked & Hunlocked & H). apply Ret_inj in H. subst ids.
  exists unlocked. split; [done |]. intros i Hi.
  apply list_elem_of_omap in Hi as (k & Hk & Hstr).
  destruct k as [| n | s]; try done. simpl in Hstr. injection Hstr as ->.
  apply Hlist, elem_of_intersection in Hk as [Hk Hreq]. split; [done |].
  apply elem_of_list_to_set, list_elem_of_fmap in Hreq as (i' & Heq & Hi').
  by injection Heq as ->.
Qed.

(** X25.  When the entitlement filter is on
    ([DOWNLOAD_FORBID_WHEN_NO_ITEM] set and [has_songlist] true) and
    [add_songs] returns, [get_user_unlocks] has returned for the user of
    the list, every song id the list ends up with is one the user has
    unlocked, and so is the key of every manifest entry that was not
    there before.  That [list()] of a set yields elements of the set is
    assumed. *)
Theorem add_songs_entitled (e : Env) (self : DownloadList.t) (arg : option (list string))
  (w : World) (self' : DownloadList.t) (w' : World) :
  (forall (X : gset pykey) k, k ∈ list_of_set e X -> k ∈ X) ->
  DOWNLOAD_FORBID_WHEN_NO_ITEM e && has_songlist (cat w) = true ->
  DownloadList.add_songs e self arg w = (Ret self', w') ->
  exists unlocked ids,
    SonglistParser.get_user_unlocks e (cat w) (DownloadList.user self) = Ret unlocked /\
    DownloadList.song_ids self' = Some ids /\
    (forall i, i ∈ ids -> KStr i ∈ unlocked) /\
    (forall k, k ∈ map fst (DownloadList.urls self') ->
               k ∈ map fst (DownloadList.urls self) \/ KStr k ∈ unlocked).
Proof.
  intros Hlist Hfilter H. unfold DownloadList.add_songs in H.
  set (self0 := match arg with
                | Some l => DownloadList.with_song_ids self (Some l)
                | None => self
                end) in H.
  assert (Huser : DownloadList.user self0 = DownloadList.user self) by (by destruct arg).
  assert (Hurls : DownloadList.urls self0 = DownloadList.urls self) by (by destruct arg).
  clearbody self0.
  apply bind_ret_inv in H as (s & w1 & Hblock & H).
  apply add_songs_store_tokens in H as [-> _].
  assert (Hall : forall ids0 wa,
    cat wa = cat w ->
    (let* c := gets cat in
     let* ids :=
       if DOWNLOAD_FORBID_WHEN_NO_ITEM e && has_songlist c
       then lift (DownloadList.unlocked_among e c (DownloadList.user self0) ids0)
       else ret ids0 in
     fold_each ids (DownloadList.add_one_song e)
       (DownloadList.with_song_ids self0 (Some ids))) wa = (Ret s, w1) ->
    exists unlocked ids,
      SonglistParser.get_user_unlocks e (cat w) (DownloadList.user self) = Ret unlocked /\
      DownloadList.song_ids s = Some ids /\
      (forall i, i ∈ ids -> KStr i ∈ unlocked) /\
      (forall k, k ∈ map fst (DownloadList.urls s) ->
                 k ∈ map fst (DownloadList.urls self) \/ KStr k ∈ unlocked)).
  { intros ids0 wa Hcat Hrest. rewrite bind_gets, Hcat, Hfilter in Hrest.
    apply bind_ret_inv in Hrest as (ids & wb & Hids & Hrest).
    unfold lift in Hids.
    destruct (DownloadList.unlocked_among e (cat w) (DownloadList.user self0) ids0)
      as [ids' |] eqn:Hamong; [| done].
    injection Hids as -> <-.
    destruct (unlocked_among_entitled e _ _ _ _ Hlist Hamong) as (unlocked & Hun & Hin).
    apply fold_add_one_song_keys in Hrest as (Hs & _ & Hk). simpl in Hs, Hk.
    exists unlocked, ids. rewrite <- Huser. split; [done |]. split; [done |].
    split; [intros i Hi; by apply Hin |].
    intros k Hk'. rewrite Hk, Hurls in Hk'.
    apply elem_of_keys_after in Hk' as [Hk' | Hk']; [by left |]. right. by apply Hin. }
  destruct (DownloadList.song_ids self0) as [[| i0 l] |] eqn:Hsong.
  - apply bind_ret_inv in Hblock as (ids0 & wa & Hids & Hrest).
    apply (Hall ids0 wa); [| done].
    apply (preserves_run cat _ _ _ _ (get_all_song_ids_cat e) Hids).
  - rewrite bind_gets, Hfilter in Hblock.
    apply bind_ret_inv in Hblock as (ids & wb & Hids & Hrest).
    unfold lift in Hids.
    destruct (DownloadList.unlocked_among e (cat w) (DownloadList.user self0) (i0 :: l))
      as [ids' |] eqn:Hamong; [| done].
    injection Hids as -> <-.
    destruct (unlocked_among_entitled e _ _ _ _ Hlist Hamong) as (unlocked & Hun & Hin).
    apply fold_present_song_keys in Hrest as (Hs & _ & Hk). simpl in Hs, Hk.
    exists unlocked, ids. rewrite <- Huser. split; [done |]. split; [done |].
    split; [intros i Hi; by apply Hin |].
    intros k Hk'. rewrite Hk, Hurls in Hk'.
    apply elem_of_keys_after in Hk' as [Hk' | Hk']; [by left |]. right.
    apply list_elem_of_In, filter_In in Hk' as [Hk' _]. by apply Hin, list_elem_of_In.
  - apply bind_ret_inv in Hblock as (ids0 & wa & Hids & Hrest).
    apply (Hall ids0 wa); [| done].
    apply (preserves_run cat _ _ _ _ (get_all_song_ids_cat e) Hids).
Qed.

Lemma add_songs_entitled_sample :
  exists unlocked ids,
    SonglistParser.get_user_unlocks (Sample.strict (Some Sample.tree) NoFile)
      (cat Sample.filtering) (DownloadList.user (DownloadList.init (Some Sample.alice)))
    = Ret unlocked /\
    DownloadList.song_ids Sample.filtered_list = Some ids /\
    (forall i, i ∈ ids -> KStr i ∈ unlocked) /\
    (forall k, k ∈ map fst (DownloadList.urls Sample.filtered_list) ->
               k ∈ map fst (DownloadList.urls (DownloadList.init (Some Sample.alice)))
               \/ KStr k ∈ unlocked).
Proof.
  apply (add_songs_entitled (Sample.strict (Some Sample.tree) NoFile)
           (DownloadList.init (Some Sample.alice)) None Sample.filtering
           Sample.filtered_list (snd Sample.filtered)).
  - intros X k Hk. by apply elem_of_elements in Hk.
  - reflexivity.
  - vm_compute. reflexivity.
Defined.

(** ** The downloads of a song *)

Lemma url_fields e x w u x' w' :
  UserDownload.url e x w = (Ret (u, x'), w') ->
  UserDownload.user x' = UserDownload.user x /\
  UserDownload.song_id x' = UserDownload.song_id x /\
  UserDownload.file_name x' = UserDownload.file_name x.
Proof.
  intros H. unfold UserDownload.url in H.
  apply bind_ret_inv in H as (x1 & w1 & Hgen & H).
  assert (Hx1 : UserDownload.user x1 = UserDownload.user x /\
                UserDownload.song_id x1 = UserDownload.song_id x /\
                UserDownload.file_name x1 = UserDownload.file_name x).
  { destruct (UserDownload.token x).
    - unfold ret in Hgen. by injection Hgen as <- _.
    - unfold UserDownload.generate_token in Hgen. rewrite bind_now in Hgen.
      destruct (UserDownload.user x); [| done].
      destruct (UserDownload.song_id x); [| done].
      destruct (UserDownload.file_name x); [| done].
      unfold bind, os_urandom, ret in Hgen. simpl in Hgen.
      by injection Hgen as <- _. }
  destruct (DOWNLOAD_LINK_PREFIX e); unfold ret in H; by injection H as _ <- _.
Qed.

Lemma add_file_appends e u with_url s acc i w acc' w' :
  DownloadList.add_file e u with_url s acc i w = (Ret acc', w') ->
  exists x, snd acc' = (snd acc ++ [x])%list /\ download_of u s i x.
Proof.
  unfold DownloadList.add_file, DownloadList.checksum_and_url. intros H.
  repeat match type of H with
         | (if ?b then _ else _) _ = _ => destruct b
         end; minv;
    first
      [ match goal with
        | Hurl : UserDownload.url _ _ _ = (Ret ?ux, _) |- _ =>
            destruct ux as [link x']; apply url_fields in Hurl;
            exists x'; split; [reflexivity | exact Hurl]
        end
      | eexists; split; [reflexivity | by repeat split] ].
Qed.

Lemma fold_add_file_appends e u with_url s names acc w acc' w' :
  fold_each names (DownloadList.add_file e u with_url s) acc w = (Ret acc', w') ->
  exists new, snd acc' = (snd acc ++ new)%list /\ Forall2 (download_of u s) names new.
Proof.
  revert acc w. induction names as [| i names IH]; intros acc w H; simpl in H.
  - minv. exists []. rewrite app_nil_r. split; [done | constructor].
  - apply bind_ret_inv in H as (acc1 & w1 & H1 & H).
    apply add_file_appends in H1 as (x & Hx & Hdl).
    apply IH in H as (new & Hnew & Hall).
    exists (x :: new). rewrite Hnew, Hx, <- app_assoc. split; [done |].
    by constructor.
Qed.

(** X26.  When [add_one_song] returns, it has appended to
    [self.downloads] one download for each file name
    [get_one_song_file_names] gave, in that order, each for the song and
    the file name in question and for the user of the list; the earlier
    downloads are kept. *)
Theorem add_one_song_downloads (e : Env) (self : DownloadList.t) (song_id : string)
  (w : World) (self' : DownloadList.t) (w' : World) :
  DownloadList.add_one_song e self song_id w = (Ret self', w') ->
  exists names w1 new,
    DownloadList.get_one_song_file_names e song_id w = (Ret names, w1) /\
    DownloadList.downloads self' = (DownloadList.downloads self ++ new)%list /\
    Forall2 (download_of (DownloadList.user self) song_id) names new.
Proof.
  intros H. unfold DownloadList.add_one_song in H.
  apply bind_ret_inv in H as (names & w1 & Hnames & H).
  apply bind_ret_inv in H as (r & w2 & Hfold & H).
  unfold ret in H. injection H as <- _.
  apply fold_add_file_appends in Hfold as (new & Hnew & Hall).
  exists names, w1, new. done.
Qed.

Lemma add_one_song_downloads_sample :
  exists names w1 new,
    DownloadList.get_one_song_file_names (Sample.env (Some Sample.tree) NoFile) "b"
      Sample.fresh = (Ret names, w1) /\
    DownloadList.downloads Sample.one_song_list
    = (DownloadList.downloads (DownloadList.init (Some Sample.alice)) ++ new)%list /\
    Forall2 (download_of (DownloadList.user (DownloadList.init (Some Sample.alice))) "b")
      names new.
Proof.
  apply (add_one_song_downloads (Sample.env (Some Sample.tree) NoFile)
           (DownloadList.init (Some Sample.alice)) "b" Sample.fresh
           Sample.one_song_list (snd Sample.one_song)).
  vm_compute. reflexivity.
Defined.


(** ** The bitmaps a catalogue registers *)

Lemma parse_one_unlock_only_grows e song :
  steps only_catalogue_grows (SonglistParser.parse_one_unlock e song).
Proof. unfold SonglistParser.parse_one_unlock. steps_all. Qed.

Lemma parse_one_unlock_songs e song w :
  songs (cat (snd (SonglistParser.parse_one_unlock e song w))) = songs (cat w).
Proof. by destruct (parse_one_unlock_only_grows e song w) as [(_ & Hsongs & _) _]. Qed.

Lemma for_each_parse_registered e xs w w' :
  for_each xs (fun x =>
    let* one := lift (SonglistParser.parse_one x) in
    modify (set_cat (SonglistParser.update_songs one)) ;;
    SonglistParser.parse_one_unlock e x) w = (Ret tt, w') ->
  songs (cat w') = registered xs (songs (cat w)).
Proof.
  revert w. induction xs as [| x xs IH]; intros w H; simpl in H.
  - unfold ret in H. by injection H as <-.
  - apply bind_ret_inv in H as ([] & w1 & Hbody & H). apply IH in H. rewrite H. simpl.
    f_equal. apply bind_ret_inv in Hbody as (one & w0 & Hone & Hbody).
    unfold lift in Hone. injection Hone as Hone <-. rewrite bind_modify in Hbody.
    pose proof (parse_one_unlock_songs e x (set_cat (SonglistParser.update_songs one) w))
      as Hsongs.
    rewrite Hbody in Hsongs. simpl in Hsongs. rewrite Hsongs, Hone.
    by destruct one as [[k r] |].
Qed.

Lemma registered_last (l1 l2 : list json) (x : json) (k : pykey) (r : Z)
  (m : gmap pykey Z) :
  SonglistParser.parse_one x = Ret (Some (k, r)) ->
  (forall y r', y ∈ l2 -> SonglistParser.parse_one y <> Ret (Some (k, r'))) ->
  registered (l1 ++ x :: l2) m !! k = Some r.
Proof.
  intros Hx Hlast.
  assert (Hkeep : forall l m', (forall y r', y ∈ l ->
              SonglistParser.parse_one y <> Ret (Some (k, r'))) ->
            registered l m' !! k = m' !! k).
  { induction l as [| y l IH]; intros m' Hl; simpl; [done |].
    rewrite IH by (intros y' r' Hy'; apply Hl; by apply list_elem_of_further).
    destruct (SonglistParser.parse_one y) as [[[k' r'] |] |] eqn:Hy; try done.
    apply lookup_insert_ne. intros ->. by apply (Hl y r' (list_elem_of_here _ _)). }
  revert m. induction l1 as [| y l1 IH]; intros m; simpl.
  - rewrite Hx, Hkeep by done. apply lookup_insert_eq.
  - apply IH.
Qed.

Lemma registered_other (xs : list json) (k : pykey) (m : gmap pykey Z) :
  (forall y r', y ∈ xs -> SonglistParser.parse_one y <> Ret (Some (k, r'))) ->
  registered xs m !! k = m !! k.
Proof.
  revert m. induction xs as [| y l IH]; intros m' Hl; simpl; [done |].
  rewrite IH by (intros y' r' Hy'; apply Hl; by apply list_elem_of_further).
  destruct (SonglistParser.parse_one y) as [[[k' r'] |] |] eqn:Hy; try done.
  apply lookup_insert_ne. intros ->. by apply (Hl y r' (list_elem_of_here _ _)).
Qed.

(** X27.  When [parse] reads a catalogue and returns, the [songs] index
    holds for each id the bitmap [parse_one] gives for the last entry of
    the [songs] array with that id, and an id no entry has keeps the
    bitmap it had; the parser object records that a catalogue was read. *)
Theorem parse_registers (e : Env) (self self' : SonglistParser.t) (w w' : World)
  (top : json) :
  open_songlist e (SonglistParser.path self) = Decoded top ->
  SonglistParser.parse e self w = (Ret self', w') ->
  exists xs,
    obind (get top "songs" (JArr [])) iter = Ret xs /\
    SonglistParser.self_has_songlist self' = Some true /\
    (forall l1 x l2 k r,
       xs = (l1 ++ x :: l2)%list ->
       SonglistParser.parse_one x = Ret (Some (k, r)) ->
       (forall y r', y ∈ l2 -> SonglistParser.parse_one y <> Ret (Some (k, r'))) ->
       songs (cat w') !! k = Some r) /\
    (forall k,
       (forall y r', y ∈ xs -> SonglistParser.parse_one y <> Ret (Some (k, r'))) ->
       songs (cat w') !! k = songs (cat w) !! k).
Proof.
  intros Hfile H. unfold SonglistParser.parse in H. rewrite Hfile in H.
  apply bind_ret_inv in H as (d & w0 & Hd & H).
  unfold lift in Hd. injection Hd as Hd <-.
  apply bind_ret_inv in H as (xs & w0 & Hxs & H).
  unfold lift in Hxs. injection Hxs as Hxs <-.
  apply bind_ret_inv in H as ([] & w1 & Hloop & H).
  unfold ret in H. injection H as <- <-.
  apply for_each_parse_registered in Hloop.
  exists xs. split; [by rewrite Hd |]. split; [done |]. rewrite Hloop. split.
  - intros l1 x l2 k r -> Hx Hlast. by apply registered_last.
  - intros k Hnone. by apply registered_other.
Qed.

Lemma parse_registers_sample :
  exists xs,
    obind (get Sample.restricted_songlist "songs" (JArr [])) iter = Ret xs /\
    SonglistParser.self_has_songlist Sample.parser = Some true /\
    (forall l1 x l2 k r,
       xs = (l1 ++ x :: l2)%list ->
       SonglistParser.parse_one x = Ret (Some (k, r)) ->
       (forall y r', y ∈ l2 -> SonglistParser.parse_one y <> Ret (Some (k, r'))) ->
       songs (cat (snd Sample.parsed)) !! k = Some r) /\
    (forall k,
       (forall y r', y ∈ xs -> SonglistParser.parse_one y <> Ret (Some (k, r'))) ->
       songs (cat (snd Sample.parsed)) !! k = songs (cat Sample.fresh) !! k).
Proof.
  apply (parse_registers (Sample.env None (Decoded Sample.restricted_songlist))
           (SonglistParser.Build "songlist" (JArr []) None) Sample.parser
           Sample.fresh (snd Sample.parsed) Sample.restricted_songlist).
  - reflexivity.
  - vm_compute. reflexivity.
Defined.

(** ** One row at a time *)

Lemma for_each_insert_download_token (u : User.t) (l : list UserDownload.t)
  (rows : list ((Z * string * string) * (option string * option Z))) (w : World) :
  (forall x, x ∈ l -> UserDownload.user x = Some u) ->
  DownloadList.token_rows (User.user_id u) l = Ret rows ->
  for_each l UserDownload.insert_download_token w
  = (Ret tt,
     set_download_token
       (fun tbl => foldl (fun tbl row => <[ fst row := snd row ]> tbl) tbl rows) w).
Proof.
  revert rows w. induction l as [| x l IH]; intros rows w Hu H; simpl in H.
  - apply Ret_inj in H. subst rows. by destruct w.
  - destruct (UserDownload.song_id x) as [s |] eqn:Hs; [| done].
    destruct (UserDownload.file_name x) as [f |] eqn:Hf; [| done].
    apply obind_ret_inv in H as (rows' & Hrows' & H). apply Ret_inj in H. subst rows.
    simpl. unfold UserDownload.insert_download_token at 1.
    rewrite (Hu x (list_elem_of_here _ _)), Hs, Hf, bind_modify.
    assert (Hu' : forall y, y ∈ l -> UserDownload.user y = Some u)
      by (intros y Hy; apply Hu; by apply list_elem_of_further).
    rewrite (IH rows' _ Hu' Hrows'). reflexivity.
Qed.

(** X28.  Storing the tokens in one batch is storing them one by one:
    when [insert_download_tokens] returns, calling
    [insert_download_token] on each download of the list in turn, each
    download having the user of the list, returns too and leaves the same
    table. *)
Theorem insert_download_tokens_as_loop (self : DownloadList.t) (w w' : World) :
  (forall x, x ∈ DownloadList.downloads self ->
             UserDownload.user x = DownloadList.user self) ->
  DownloadList.insert_download_tokens self w = (Ret tt, w') ->
  for_each (DownloadList.downloads self) UserDownload.insert_download_token w
  = (Ret tt, w').
Proof.
  intros Hu H. unfold DownloadList.insert_download_tokens in H.
  destruct (DownloadList.downloads self) as [| x l] eqn:Hl; [by minv |].
  destruct (DownloadList.user self) as [u |]; [| done].
  unfold bind, lift, modify in H.
  destruct (DownloadList.token_rows (User.user_id u) (x :: l)) as [rows |] eqn:Hrows;
    [| done].
  injection H as <-. exact (for_each_insert_download_token u (x :: l) rows w Hu Hrows).
Qed.

Lemma insert_download_tokens_as_loop_sample :
  for_each (DownloadList.downloads Sample.one_link) UserDownload.insert_download_token
    Sample.fresh
  = (Ret tt, Sample.one_link_stored).
Proof.
  apply (insert_download_tokens_as_loop Sample.one_link Sample.fresh Sample.one_link_stored).
  - intros x Hx. apply list_elem_of_singleton in Hx as ->. reflexivity.
  - reflexivity.
Defined.


(** ** The checksum of the audio file *)

Lemma add_file_digests e u with_url s acc i :
  steps (digests_kept e) (DownloadList.add_file e u with_url s acc i).
Proof.
  unfold DownloadList.add_file, DownloadList.checksum_and_url,
    UserDownload.hash, UserDownload.url, UserDownload.generate_token.
  steps_all.
Qed.

Lemma assoc_set_inner_eq (outer inner : string) (v : json) (re a : list (string * json)) :
  assoc outer re = Some (JObj a) ->
  assoc outer (DownloadList.set_inner outer inner v re) = Some (JObj (dict_set inner v a)).
Proof.
  intros H. unfold DownloadList.set_inner. rewrite H. apply assoc_dict_set_eq.
Qed.

Lemma set_inner_audio_object inner v re :
  audio_is_object re ->
  exists a, assoc "audio" (DownloadList.ensure_key "audio" (JObj []) re) = Some (JObj a) /\
            assoc "audio" (DownloadList.set_inner "audio" inner v
                             (DownloadList.ensure_key "audio" (JObj []) re))
            = Some (JObj (dict_set inner v a)).
Proof.
  unfold audio_is_object, DownloadList.ensure_key, DownloadList.set_inner. intros Hok.
  destruct (assoc "audio" re) as [[| | | | | a] |] eqn:Ha; try done.
  - exists a. rewrite Ha. split; [done |]. apply assoc_dict_set_eq.
  - exists []. by rewrite !assoc_dict_set_eq.
Qed.

Lemma add_file_audio_checksum e u with_url s acc i w acc' w' :
  let h := json_of_hash (file_md5 <$> file_of e s "base.ogg") in
  digests_sound e w ->
  audio_is_object (fst acc) ->
  DownloadList.add_file e u with_url s acc i w = (Ret acc', w') ->
  audio_is_object (fst acc') /\
  (i = "base.ogg" \/ audio_checksum h (fst acc) -> audio_checksum h (fst acc')).
Proof.
  intros h Hw Hok H. unfold DownloadList.add_file in H.
  destruct (String.eqb_spec i "base.ogg") as [-> | Hbase].
  - apply bind_ret_inv in H as (o & w1 & Hhash & H).
    assert (Ho : json_of_hash o = h).
    { unfold UserDownload.hash in Hhash. simpl in Hhash.
      destruct (get_song_file_md5_sound e s "base.ogg" w Hw) as [Hval _].
      rewrite Hhash in Hval. simpl in Hval. apply Ret_inj in Hval. by subst o. }
    rewrite Ho in H. clearbody h.
    destruct (set_inner_audio_object "checksum" h (fst acc) Hok) as (a & Ha & Hset).
    destruct with_url.
    + apply bind_ret_inv in H as ([link x'] & w2 & Hurl & H).
      unfold ret in H. injection H as <- _. simpl.
      pose proof (assoc_set_inner_eq "audio" "url" (JStr link) _ _ Hset) as Hset2.
      unfold audio_is_object, audio_checksum. rewrite Hset2. split; [done |]. intros _.
      eexists. split; [reflexivity |].
      rewrite assoc_dict_set_ne by done. apply assoc_dict_set_eq.
    + unfold ret in H. injection H as <- _. simpl.
      unfold audio_is_object, audio_checksum. rewrite Hset. split; [done |]. intros _.
      eexists. split; [reflexivity |]. apply assoc_dict_set_eq.
  - assert (Hkeep : (i = "base.ogg" \/ audio_checksum h (fst acc)) -> audio_checksum h (fst acc))
      by (by intros [-> | H']).
    destruct (String.eqb i "3.ogg").
    { apply bind_ret_inv in H as ([d x] & w1 & Hrun & H).
      unfold ret in H. injection H as <- _. simpl.
      destruct (set_inner_audio_object "3" (JObj d) (fst acc) Hok) as (a & Ha & Hset).
      unfold audio_is_object, audio_checksum. rewrite Hset. split; [done |].
      intros H'. apply Hkeep in H' as (a0 & Ha0 & Hsum).
      unfold DownloadList.ensure_key in Ha. rewrite Ha0 in Ha. cbv iota in Ha.
      rewrite Ha0 in Ha. injection Ha as <-.
      eexists. split; [reflexivity |]. by rewrite assoc_dict_set_ne. }
    destruct (mem i ["video.mp4"; "video_audio.ogg"; "video_720.mp4"; "video_1080.mp4"]).
    { apply bind_ret_inv in H as ([d x] & w1 & Hrun & H).
      unfold ret in H. injection H as <- _. simpl.
      unfold audio_is_object, audio_checksum.
      rewrite assoc_append_inner_ne, assoc_ensure_key_ne by done.
      split; [exact Hok |]. intros H'. by apply Hkeep. }
    apply bind_ret_inv in H as ([d x] & w1 & Hrun & H).
    destruct i as [| c i]; [done |].
    unfold ret in H. injection H as <- _. simpl.
    unfold audio_is_object, audio_checksum.
    rewrite assoc_set_inner_ne, assoc_ensure_key_ne by done.
    split; [exact Hok |]. intros H'. by apply Hkeep.
Qed.

Lemma fold_add_file_audio_checksum e u with_url s names acc w acc' w' :
  let h := json_of_hash (file_md5 <$> file_of e s "base.ogg") in
  digests_sound e w ->
  audio_is_object (fst acc) ->
  fold_each names (DownloadList.add_file e u with_url s) acc w = (Ret acc', w') ->
  "base.ogg" ∈ names \/ audio_checksum h (fst acc) ->
  audio_checksum h (fst acc').
Proof.
  intros h. revert acc w.
  induction names as [| i names IH]; intros acc w Hw Hok H Hseen; simpl in H.
  - unfold ret in H. injection H as <- _.
    destruct Hseen as [Hin | Hsum]; [by apply elem_of_nil in Hin | done].
  - apply bind_ret_inv in H as (acc1 & w1 & Hstep & H).
    destruct (add_file_audio_checksum e u with_url s acc i w acc1 w1 Hw Hok Hstep)
      as [Hok1 Hsum1]. fold h in Hsum1.
    assert (Hw1 : digests_sound e w1).
    { pose proof (add_file_digests e u with_url s acc i w Hw) as Hkept.
      by rewrite Hstep in Hkept. }
    apply (IH acc1 w1 Hw1 Hok1 H).
    destruct Hseen as [Hin | Hsum].
    + apply elem_of_cons in Hin as [<- | Hin]; [right; apply Hsum1; by left | by left].
    + right. apply Hsum1. by right.
Qed.

Lemma get_one_song_file_names_digests e song_id :
  steps (digests_kept e) (DownloadList.get_one_song_file_names e song_id).
Proof.
  unfold DownloadList.get_one_song_file_names, DownloadList._get_cached_song_file_names,
    SongFileCache.get_song_file_names, SongFileCache._delete_song,
    SongFileCache.ensure_schema.
  steps_all.
Qed.

(** X29.  With sound stored digests, when base.ogg is among the file
    names of a song and [add_one_song] returns, the manifest entry of the
    song gives, as ["checksum"] under ["audio"], the digest of the file
    base.ogg on disk, and [null] if the file is no longer there. *)
Theorem add_one_song_audio_checksum (e : Env) (self self' : DownloadList.t)
  (song_id : string) (w w1 w' : World) (names : list string) :
  digests_sound e w ->
  DownloadList.get_one_song_file_names e song_id w = (Ret names, w1) ->
  "base.ogg" ∈ names ->
  DownloadList.add_one_song e self song_id w = (Ret self', w') ->
  exists re audio,
    assoc song_id (DownloadList.urls self') = Some (JObj re) /\
    assoc "audio" re = Some (JObj audio) /\
    assoc "checksum" audio
    = Some (json_of_hash (file_md5 <$> file_of e song_id "base.ogg")).
Proof.
  intros Hw Hnames Hbase H. unfold DownloadList.add_one_song in H.
  rewrite (bind_run _ _ _ _ _ Hnames) in H.
  apply bind_ret_inv in H as ([re dl] & w2 & Hfold & H).
  unfold ret in H. injection H as <- _. simpl.
  assert (Hw1 : digests_sound e w1).
  { pose proof (get_one_song_file_names_digests e song_id w Hw) as Hkept.
    by rewrite Hnames in Hkept. }
  destruct (fold_add_file_audio_checksum e _ _ song_id names
              ([], DownloadList.downloads self) w1 (re, dl) w2 Hw1 I Hfold)
    as (audio & Haudio & Hsum); [by left |].
  exists re, audio. rewrite assoc_dict_set_eq. done.
Qed.

Lemma add_one_song_audio_checksum_sample :
  exists re audio,
    assoc "abc" (DownloadList.urls Sample.abc_song_list) = Some (JObj re) /\
    assoc "audio" re = Some (JObj audio) /\
    assoc "checksum" audio
    = Some (json_of_hash
              (file_md5 <$> file_of (Sample.env (Some Sample.tree) NoFile) "abc" "base.ogg")).
Proof.
  eapply (add_one_song_audio_checksum (Sample.env (Some Sample.tree) NoFile)
            (DownloadList.init (Some Sample.alice)) Sample.abc_song_list "abc"
            Sample.fresh _ (snd Sample.abc_song)).
  - apply digests_sound_empty; reflexivity.
  - vm_compute. reflexivity.
  - apply (bool_decide_unpack _). vm_compute. exact I.
  - vm_compute. reflexivity.
Defined.

